(** * one-api relay controller: a shallow embedding and its properties

    The development follows the relay file of package [controller] (the
    dispatcher [Relay], the audio forwarder [RelayAudio], the handlers
    [RelayNotImplemented] and [RelayNotFound]) and
    [common/wav-file.go] (the 44-byte [WAVHeader]).  Go values are
    modelled as follows:

    - [int], [int64], [uint32], [uint16] are [Z], with the wrap-around
      written where the source does arithmetic;
    - [string] is [String.string] (a sequence of bytes, as in Go);
    - [[]byte] is [list byte];
    - [float64] is [spec_float] at precision 53 and maximal exponent 1024;
    - [map[string][]string] ([http.Header], [url.Values]) is
      [gmap string (list string)];
    - calls that leave the handler (writes to the client, the upstream
      call, ledger updates, log lines) are recorded, in program order, in a
      trace of events. *)

From Stdlib Require Import ZArith List String Ascii Strings.Byte Bool Lia.
From Stdlib Require Import QArith Qround Qabs.
From Stdlib Require Import Floats.SpecFloat.
From stdpp Require Import base gmap strings list.

Local Open Scope Z_scope.

(* ===================================================================== *)
(** * Go library functions used by the controller                        *)
(* ===================================================================== *)

Module GoLib.

(** [s[i:j]] for [0 <= i <= j <= len(s)]. *)
Definition slice (s : string) (i j : nat) : string :=
  String.substring i (j - i) s.

(** [strings.HasPrefix]:
    [len(s) >= len(prefix) && s[0:len(prefix)] == prefix]. *)
Definition HasPrefix (s prefix : string) : bool :=
  (String.length prefix <=? String.length s)%nat
  && String.eqb (slice s 0 (String.length prefix)) prefix.

(** [strings.HasSuffix]:
    [len(s) >= len(suffix) && s[len(s)-len(suffix):] == suffix]. *)
Definition HasSuffix (s suffix : string) : bool :=
  (String.length suffix <=? String.length s)%nat
  && String.eqb
       (slice s (String.length s - String.length suffix) (String.length s))
       suffix.

(** Bounds of the 64-bit [int]. *)
Definition MaxInt64 : Z := 2 ^ 63 - 1.
Definition MinInt64 : Z := - 2 ^ 63.
Definition MaxUint64 : Z := 2 ^ 64 - 1.

(** Two's-complement wrap-around of 64-bit [int] arithmetic. *)
Definition wrap64 (z : Z) : Z := (z + 2 ^ 63) mod 2 ^ 64 - 2 ^ 63.

(** The decimal digit a byte stands for, if any. *)
Definition digit_of_ascii (a : ascii) : option Z :=
  let n := Z.of_N (N_of_ascii a) in
  if (48 <=? n) && (n <=? 57) then Some (n - 48) else None.

(** Outcome of [strconv.ParseUint(s, 10, 64)] on a non-empty [s]. *)
Inductive uint_result :=
| UintOk (n : Z)
| UintSyntax
| UintRange.

(** The digit loop of [ParseUint]: a byte that is not a decimal digit
    stops with a syntax error; an accumulator leaving the 64-bit range
    stops at once with a range error. *)
Fixpoint parse_uint_loop (s : string) (n : Z) : uint_result :=
  match s with
  | EmptyString => UintOk n
  | String a rest =>
      match digit_of_ascii a with
      | None => UintSyntax
      | Some d =>
          let n1 := n * 10 + d in
          if MaxUint64 <? n1 then UintRange else parse_uint_loop rest n1
      end
  end.

Definition ParseUint (s : string) : uint_result :=
  match s with
  | EmptyString => UintSyntax
  | _ => parse_uint_loop s 0
  end.

(** [represents s L v]: the digit loop, entered at [s] with an accumulator
    [a], leaves with [a] shifted by [L] digits plus [v], as long as that
    fits 64 bits. *)
Definition represents (s : string) (L : Z) (v : Z) : Prop :=
  0 <= L /\ 0 <= v /\
  forall a, 0 <= a -> a * 10 ^ L + v <= MaxUint64 ->
            parse_uint_loop s a = UintOk (a * 10 ^ L + v).

(** The value [strconv.ParseInt(s, 10, 0)] returns (the error is
    dropped by the caller): [0] on a syntax error, the nearest bound on a
    range error. *)
Definition ParseInt (s : string) : Z :=
  match s with
  | EmptyString => 0
  | String a rest =>
      let neg := Ascii.eqb a "-"%char in
      let body := if Ascii.eqb a "+"%char || neg then rest else s in
      match ParseUint body with
      | UintSyntax => 0
      | UintRange => if neg then MinInt64 else MaxInt64
      | UintOk un =>
          if negb neg && (2 ^ 63 <=? un) then MaxInt64
          else if neg && (2 ^ 63 <? un) then MinInt64
          else if neg then - un else un
      end
  end.

(** [n, _ := strconv.Atoi(s)]: the fast path of [Atoi] (fewer than 19
    bytes) computes the same value as [ParseInt], which it otherwise
    calls. *)
Definition Atoi (s : string) : Z := ParseInt s.

Definition ascii_of_digit (d : Z) : ascii := ascii_of_N (Z.to_N (48 + d)).

(** Decimal digits of a non-negative number, least significant digit
    produced first and put in front of [acc], the way [strconv]'s
    [formatBits] fills its buffer from the right. *)
Fixpoint format_digits (fuel : nat) (n : Z) (acc : string) : string :=
  match fuel with
  | O => acc
  | S fuel' =>
      let acc' := String (ascii_of_digit (n mod 10)) acc in
      if n <? 10 then acc' else format_digits fuel' (n / 10) acc'
  end.

(** The verb [%d] of [fmt.Sprintf] at a 64-bit [int]: at most twenty
    digits, a leading [-] for negative numbers. *)
Definition FormatInt (n : Z) : string :=
  if n <? 0 then String "-"%char (format_digits 20 (- n) EmptyString)
  else format_digits 20 n EmptyString.

(** A decimal digit, and a string of decimal digits. *)
Definition is_digit (a : ascii) : bool :=
  match digit_of_ascii a with
  | Some _ => true
  | None => false
  end.

Fixpoint all_digits (s : string) : bool :=
  match s with
  | EmptyString => true
  | String a rest => is_digit a && all_digits rest
  end.

(** [strings.Contains(s, sep)] for a separator of one byte. *)
Fixpoint ContainsByte (s : string) (sep : ascii) : bool :=
  match s with
  | EmptyString => false
  | String a rest => Ascii.eqb a sep || ContainsByte rest sep
  end.

(** [strings.Cut(s, sep)] for a separator of one byte: what stands before
    and behind the first [sep], [None] when [s] holds none. *)
Fixpoint Cut (s : string) (sep : ascii) : option (string * string) :=
  match s with
  | EmptyString => None
  | String a rest =>
      if Ascii.eqb a sep then Some (EmptyString, rest)
      else match Cut rest sep with
           | Some (before, behind) => Some (String a before, behind)
           | None => None
           end
  end.

(** [strings.Split(s, sep)] for a separator of one byte. *)
Fixpoint Split (s : string) (sep : ascii) : list string :=
  match s with
  | EmptyString => [EmptyString]
  | String a rest =>
      if Ascii.eqb a sep then EmptyString :: Split rest sep
      else match Split rest sep with
           | first :: others => String a first :: others
           | [] => [String a EmptyString]
           end
  end.

(** The value of a hexadecimal digit ([unhex] of [net/url]). *)
Definition unhex (a : ascii) : option N :=
  let n := N_of_ascii a in
  if (48 <=? n)%N && (n <=? 57)%N then Some (n - 48)%N
  else if (97 <=? n)%N && (n <=? 102)%N then Some (n - 97 + 10)%N
  else if (65 <=? n)%N && (n <=? 70)%N then Some (n - 65 + 10)%N
  else None.

(** [url.QueryUnescape]: [%XX] stands for the byte of that value, [+] for
    a space; a [%] that two hexadecimal digits do not follow is an error
    ([None]). *)
Fixpoint QueryUnescape (s : string) : option string :=
  match s with
  | EmptyString => Some EmptyString
  | String a rest =>
      if Ascii.eqb a "%" then
        match rest with
        | String h (String l rest') =>
            match unhex h, unhex l, QueryUnescape rest' with
            | Some x, Some y, Some r => Some (String (ascii_of_N (16 * x + y)) r)
            | _, _, _ => None
            end
        | _ => None
        end
      else
        match QueryUnescape rest with
        | Some r => Some (String (if Ascii.eqb a "+" then " "%char else a) r)
        | None => None
        end
  end.

(** One turn of the loop of [url.ParseQuery] on the setting [key]
    between two [&]: a setting with a semicolon, an empty one and one that
    cannot be unescaped are passed over (the error is dropped by
    [URL.Query()]); the value is appended to the values of the key. *)
Definition parseQuery_step (m : gmap string (list string)) (key : string)
  : gmap string (list string) :=
  if ContainsByte key ";" then m
  else if String.eqb key EmptyString then m
  else
    let '(k, v) := match Cut key "=" with
                   | Some kv => kv
                   | None => (key, EmptyString)
                   end in
    match QueryUnescape k, QueryUnescape v with
    | Some k', Some v' => <[ k' := default [] (m !! k') ++ [v'] ]> m
    | _, _ => m
    end.

(** [u.Query()]: [url.ParseQuery(u.RawQuery)] without its error. *)
Definition ParseQuery (query : string) : gmap string (list string) :=
  foldl parseQuery_step ∅ (Split query "&").

(** The query of a URI reference, as [url.Parse] and every client take
    it: the fragment starts at the first [#], and the query is what
    stands between the first [?] before it and the fragment. *)
Definition reference_query (reference : string) : string :=
  let before_fragment := match Cut reference "#" with
                         | Some (before, _) => before
                         | None => reference
                         end in
  match Cut before_fragment "?" with
  | Some (_, query) => query
  | None => EmptyString
  end.

End GoLib.

(* ===================================================================== *)
(** * The gin request context                                            *)
(* ===================================================================== *)

Module Gin.

(** A value stored under a key of [c.Keys]. *)
Inductive KeyValue :=
| KInt (n : Z)
| KString (s : string).

Record Context := {
  Method : string;                        (* c.Request.Method *)
  URL_Path : string;                      (* c.Request.URL.Path *)
  URL_Query : gmap string (list string);  (* c.Request.URL.Query() *)
  Header : gmap string (list string);     (* c.Request.Header *)
  Keys : gmap string KeyValue             (* c.Keys *)
}.

(** [c.Query(key)]: the first value of the key, the empty string when
    the key is absent or has no value. *)
Definition Query (c : Context) (key : string) : string :=
  match URL_Query c !! key with
  | Some (v :: _) => v
  | _ => EmptyString
  end.

(** [c.GetInt(key)]: [0] unless an [int] is stored under the key. *)
Definition GetInt (c : Context) (key : string) : Z :=
  match Keys c !! key with
  | Some (KInt n) => n
  | _ => 0
  end.

(** [c.GetString(key)]: the empty string unless a [string] is stored
    under the key. *)
Definition GetString (c : Context) (key : string) : string :=
  match Keys c !! key with
  | Some (KString s) => s
  | _ => EmptyString
  end.

(** [h.Get(key)] of [http.Header] on a canonical key. *)
Definition Header_Get (h : gmap string (list string)) (key : string) : string :=
  match h !! key with
  | Some (v :: _) => v
  | _ => EmptyString
  end.

End Gin.

(* ===================================================================== *)
(** * float64                                                            *)
(* ===================================================================== *)

Module Float64.
Import GoLib.

Definition prec : Z := 53.
Definition emax : Z := 1024.

(** A [float64] is a binary64 number of IEEE 754. *)
Definition float64 : Type := spec_float.

Definition mul : float64 -> float64 -> float64 := SFmul prec emax.
Definition div : float64 -> float64 -> float64 := SFdiv prec emax.

(** [float64(n)] at an integer [n]: the nearest binary64 number, ties to
    even. *)
Definition of_int (n : Z) : float64 := binary_normalize prec emax n 0 false.

(** The literals of the source, as the binary64 numbers the compiler
    makes of them. *)
Definition lit_0_006 : float64 := S754_finite false 6917529027641082 (-60).
Definition lit_60 : float64 := S754_finite false 8444249301319680 (-47).
Definition lit_16000 : float64 := S754_finite false 8796093022208000 (-39).

(** The rational a finite number stands for ([0] elsewhere). *)
Definition to_Q (f : float64) : Q :=
  match f with
  | S754_finite s m e =>
      let z := cond_Zopp s (Zpos m) in
      match e with
      | Zneg p => Qmake z (2 ^ p)%positive
      | _ => inject_Z (z * 2 ^ e)
      end
  | _ => 0%Q
  end.

(** The integer part of a finite number, the fraction discarded. *)
Definition trunc (f : float64) : option Z :=
  match f with
  | S754_zero _ => Some 0
  | S754_finite s m e =>
      Some (cond_Zopp s
              match e with
              | Zneg p => Zpos m / 2 ^ Zpos p
              | _ => Zpos m * 2 ^ e
              end)
  | _ => None
  end.

(** [int(f)]: the integer part when it fits the 64-bit [int].  For a NaN,
    an infinity or a number out of range the conversion still yields an
    [int], one the language leaves to the implementation: it is the
    parameter [unrepresentable]. *)
Definition to_int (unrepresentable : float64 -> Z) (f : float64) : Z :=
  match trunc f with
  | Some z =>
      if (MinInt64 <=? z) && (z <=? MaxInt64) then z
      else wrap64 (unrepresentable f)
  | None => wrap64 (unrepresentable f)
  end.

(** [0 <= f] as Go compares: false at a NaN, true at both zeros and at
    the positive infinity. *)
Definition nonneg (f : float64) : bool := SFleb (S754_zero false) f.

Definition is_finite (f : float64) : bool :=
  match f with
  | S754_zero _ | S754_finite _ _ _ => true
  | _ => false
  end.

(** The location of a rounding once one more bit of the mantissa has
    gone to the rounding position. *)
Definition shift_location (last_bit_zero : bool) (l : location) : location :=
  match last_bit_zero, l with
  | true, loc_Exact => loc_Exact
  | true, _ => loc_Inexact Lt
  | false, loc_Exact => loc_Inexact Eq
  | false, _ => loc_Inexact Gt
  end.

(** [not_negative f]: [f] is a NaN, a zero, the positive infinity or a
    positive number. *)
Definition not_negative (f : float64) : Prop :=
  match f with
  | S754_infinity s | S754_finite s _ _ => s = false
  | _ => True
  end.

End Float64.

(* ===================================================================== *)
(** * [encoding/binary] and [common.WAVHeader]                           *)
(* ===================================================================== *)

Module Common.

(** [common.WAVHeader]: arrays of four bytes and unsigned integers, 44
    bytes when laid out without padding. *)
Record WAVHeader := {
  RIFF : list byte;
  FileSize : Z;
  WAVE : list byte;
  FMT : list byte;
  FMTSize : Z;
  AudioFormat : Z;
  Channels : Z;
  SampleRate : Z;
  ByteRate : Z;
  BlockAlign : Z;
  BitsPerSample : Z;
  Data : list byte;
  DataSize : Z
}.

(** A decoder consumes a prefix of its input or fails on a short input. *)
Definition Decoder (A : Type) : Type := list byte -> option (A * list byte).

Definition dret {A} (a : A) : Decoder A := fun s => Some (a, s).

Definition dbind {A B} (d : Decoder A) (k : A -> Decoder B) : Decoder B :=
  fun s => match d s with
           | Some (a, s') => k a s'
           | None => None
           end.

Notation "x <~ d ;~ k" := (dbind d (fun x => k))
  (at level 200, d at level 100, k at level 200, only parsing).

(** The next [n] bytes. *)
Definition bytes (n : nat) : Decoder (list byte) :=
  fun s => if (n <=? length s)%nat then Some (take n s, drop n s) else None.

(** [binary.LittleEndian]: the first byte is the least significant. *)
Definition le_value (bs : list byte) : Z :=
  fold_right (fun b acc => Z.of_N (Byte.to_N b) + 256 * acc) 0 bs.

Definition uint16 : Decoder Z := bs <~ bytes 2 ;~ dret (le_value bs).
Definition uint32 : Decoder Z := bs <~ bytes 4 ;~ dret (le_value bs).

(** The fields of the struct in declaration order. *)
Definition decode_WAVHeader : Decoder WAVHeader :=
  riff <~ bytes 4 ;~
  fileSize <~ uint32 ;~
  wave <~ bytes 4 ;~
  fmt <~ bytes 4 ;~
  fmtSize <~ uint32 ;~
  audioFormat <~ uint16 ;~
  channels <~ uint16 ;~
  sampleRate <~ uint32 ;~
  byteRate <~ uint32 ;~
  blockAlign <~ uint16 ;~
  bitsPerSample <~ uint16 ;~
  data <~ bytes 4 ;~
  dataSize <~ uint32 ;~
  dret {| RIFF := riff; FileSize := fileSize; WAVE := wave; FMT := fmt;
          FMTSize := fmtSize; AudioFormat := audioFormat;
          Channels := channels; SampleRate := sampleRate;
          ByteRate := byteRate; BlockAlign := blockAlign;
          BitsPerSample := bitsPerSample; Data := data;
          DataSize := dataSize |}.

(** [binary.Size(header)]. *)
Definition WAVHeader_size : nat := 44.

(** [binary.Read(file, binary.LittleEndian, &header)] on a file at offset
    0: the 44 bytes are read in full, or the call fails ([io.EOF],
    [io.ErrUnexpectedEOF]) and [None] is the result. *)
Definition binary_Read (file : list byte) : option WAVHeader :=
  match bytes WAVHeader_size file with
  | None => None
  | Some (buf, _) =>
      match decode_WAVHeader buf with
      | Some (h, _) => Some h
      | None => None
      end
  end.

(** [bytes.Equal]. *)
Fixpoint bytes_Equal (a b : list byte) : bool :=
  match a, b with
  | [], [] => true
  | x :: a', y :: b' => Byte.eqb x y && bytes_Equal a' b'
  | _, _ => false
  end.

End Common.

(* ===================================================================== *)
(** * The relay controller                                               *)
(* ===================================================================== *)

Module Controller.
Import GoLib Gin Float64 Common.

(** The [iota] constants [RelayModeUnknown] ... [RelayModeEdits]. *)
Inductive RelayMode :=
| RelayModeUnknown
| RelayModeChatCompletions
| RelayModeCompletions
| RelayModeEmbeddings
| RelayModeModerations
| RelayModeImagesGenerations
| RelayModeEdits.

(** The field [Code any] of [OpenAIError]. *)
Inductive AnyCode :=
| CodeNil
| CodeString (s : string)
| CodeInt (n : Z).

Record OpenAIError := {
  Message : string;
  Type_ : string;
  Param : string;
  Code : AnyCode
}.

Record OpenAIErrorWithStatusCode := {
  Error : OpenAIError;   (* the embedded OpenAIError *)
  StatusCode : Z
}.

Definition StatusTemporaryRedirect : Z := 307.
Definition StatusBadRequest : Z := 400.
Definition StatusNotFound : Z := 404.
Definition StatusTooManyRequests : Z := 429.
Definition StatusInternalServerError : Z := 500.
Definition StatusNotImplemented : Z := 501.

(** [multipart.FileHeader]: the name and the size of the upload (its
    content is what [Open] gives to read). *)
Record FileHeader := {
  Filename : string;
  Size : Z
}.

Record AudioTranscriptionsRequest := {
  File : FileHeader;
  Model : string;
  Prompt : string;
  ResponseFormat : string;
  Temperature : float64;
  Language : string
}.

(** The request [RelayAudio] sends upstream: method, URL, the three
    headers it sets and the parts of the multipart body it writes. *)
Record OutboundRequest := {
  req_Method : string;
  req_URL : string;
  req_Authorization : string;
  req_Accept : string;
  part_file_name : string;
  part_file : list byte;
  part_model : string;
  part_prompt : string;
  part_response_format : string;
  part_temperature : float64;
  part_language : string
}.

(** [*http.Response]. *)
Record Response := {
  resp_StatusCode : Z;
  resp_Header : gmap string (list string);
  resp_Body : list byte
}.

(** What the handlers do to the outside, in program order. *)
Inductive Event :=
| EvImageHelper (m : RelayMode)             (* relayImageHelper(c, m) *)
| EvTextHelper (m : RelayMode)              (* relayTextHelper(c, m) *)
| EvRedirect (code : Z) (location : string) (* c.Redirect(code, location) *)
| EvJSON (code : Z) (err : OpenAIError)     (* c.JSON(code, gin.H{error: err}) *)
| EvSysError (msg : string)                 (* common.SysError(msg) *)
| EvSysLog (msg : string)                   (* common.SysLog(msg) *)
| EvDisableChannel (id : Z) (name reason : string)
| EvFileClose                               (* file.Close() *)
| EvDo (req : OutboundRequest)              (* httpClient.Do(req) *)
| EvReqBodyClose                            (* req.Body.Close() *)
| EvInboundBodyClose                        (* c.Request.Body.Close() *)
| EvHeaderSet (k v : string)                (* c.Writer.Header().Set(k, v) *)
| EvWriteHeader (code : Z)                  (* c.Writer.WriteHeader(code) *)
| EvWrite (data : list byte)                (* what io.Copy wrote to c.Writer *)
| EvRespBodyClose                           (* resp.Body.Close() *)
| EvPostConsumeTokenQuota (tokenId quota : Z)
| EvCacheUpdateUserQuota (userId : Z)
| EvRecordConsumeLog (userId : Z) (modelName tokenName : string) (quota : Z)
    (modelRatio groupRatio : float64)
| EvUpdateUserUsedQuotaAndRequestCount (userId quota : Z)
| EvUpdateChannelUsedQuota (channelId quota : Z)
| EvPanic.                                  (* a run-time panic *)

(** The message substituted on a rate-limited terminal failure. *)
Definition saturated_message : string :=
  "当前分组负载已饱和，请稍后再试，或升级账户以提升服务质量。".

(* --------------------------------------------------------------------- *)
(** ** [Relay]                                                           *)
(* --------------------------------------------------------------------- *)

(** The chain of [if ... else if] on [c.Request.URL.Path]. *)
Definition relayMode_of_path (path : string) : RelayMode :=
  if HasPrefix path "/v1/chat/completions" then RelayModeChatCompletions
  else if HasPrefix path "/v1/completions" then RelayModeCompletions
  else if HasPrefix path "/v1/embeddings" then RelayModeEmbeddings
  else if HasSuffix path "embeddings" then RelayModeEmbeddings
  else if HasPrefix path "/v1/moderations" then RelayModeModerations
  else if HasPrefix path "/v1/images/generations" then RelayModeImagesGenerations
  else if HasPrefix path "/v1/edits" then RelayModeEdits
  else RelayModeUnknown.

Section Relay.

(** What [Relay] uses from other files of the repository: the
    process-wide [common.RetryTimes], the two pipelines (each returns
    [nil] or an error) and the policy [shouldDisableChannel]. *)
Variable RetryTimes : Z.
Variable relayImageHelper relayTextHelper :
  Context -> RelayMode -> option OpenAIErrorWithStatusCode.
Variable shouldDisableChannel : OpenAIError -> bool.

(** The [switch relayMode]: the pipeline called and its result. *)
Definition dispatch (c : Context) (relayMode : RelayMode)
  : Event * option OpenAIErrorWithStatusCode :=
  match relayMode with
  | RelayModeImagesGenerations =>
      (EvImageHelper relayMode, relayImageHelper c relayMode)
  | _ => (EvTextHelper relayMode, relayTextHelper c relayMode)
  end.

(** [retryTimes] as computed at the head of [if err != nil]. *)
Definition retryTimes_of (c : Context) : Z :=
  let retryTimesStr := Query c "retry" in
  let retryTimes := Atoi retryTimesStr in
  if String.eqb retryTimesStr EmptyString then RetryTimes else retryTimes.

(** The error after the branch on [retryTimes]: the terminal branch
    overwrites [err.OpenAIError.Message] in place when the status is 429,
    and every later use of [err] reads the overwritten field. *)
Definition err_after_branch (retryTimes : Z) (err : OpenAIErrorWithStatusCode)
  : OpenAIErrorWithStatusCode :=
  if 0 <? retryTimes then err
  else if StatusCode err =? StatusTooManyRequests then
    {| Error := {| Message := saturated_message;
                   Type_ := Type_ (Error err);
                   Param := Param (Error err);
                   Code := Code (Error err) |};
       StatusCode := StatusCode err |}
  else err.

(** The body of [if err != nil]. *)
Definition on_error (c : Context) (err : OpenAIErrorWithStatusCode) : list Event :=
  let retryTimes := retryTimes_of c in
  let err' := err_after_branch retryTimes err in
  let answer :=
    if 0 <? retryTimes then
      EvRedirect StatusTemporaryRedirect
        (URL_Path c ++ "?retry=" ++ FormatInt (wrap64 (retryTimes - 1)))%string
    else
      EvJSON (StatusCode err') (Error err') in
  let channelId := GetInt c "channel_id" in
  let log :=
    EvSysError ("relay error (channel #" ++ FormatInt channelId ++ "): "
                ++ Message (Error err'))%string in
  let disable :=
    if shouldDisableChannel (Error err') then
      [EvDisableChannel (GetInt c "channel_id") (GetString c "channel_name")
         (Message (Error err'))]
    else [] in
  answer :: log :: disable.

Definition Relay (c : Context) : list Event :=
  let relayMode := relayMode_of_path (URL_Path c) in
  let '(call, err) := dispatch c relayMode in
  match err with
  | Some e => call :: on_error c e
  | None => [call]
  end.

End Relay.

(* --------------------------------------------------------------------- *)
(** ** [RelayAudio]                                                      *)
(* --------------------------------------------------------------------- *)

(** What the world outside answers during one call of [RelayAudio].  Go
    ranges over a map in an order of its own choosing: [Range_order] is
    the order in which the loop over [resp.Header] meets the entries. *)
Record AudioEnv := {
  ShouldBind : option AudioTranscriptionsRequest;  (* [None]: an error *)
  File_Open : option (list byte);           (* the content of the upload *)
  CreateFormFile_ok : bool;
  NewRequest_ok : bool;
  Do : string + Response;                   (* the error text, or the response *)
  Range_order : list (string * list string); (* resp.Header as [range] visits it *)
  ReqBody_Close_ok : bool;
  InboundBody_Close_ok : bool;
  Copy_fails_after : option nat;            (* io.Copy fails after so many bytes *)
  RespBody_Close_ok : bool;
  PostConsumeTokenQuota_err : option string;
  CacheUpdateUserQuota_err : option string
}.

Definition audio_error (message param : string) : OpenAIError :=
  {| Message := message;
     Type_ := "one_api_error";
     Param := param;
     Code := CodeString "audio_error" |}.

(** The duration in seconds, from the header or from the size of the
    file. *)
Definition estimate_duration (fileSize : Z) (header : WAVHeader) : float64 :=
  if negb (bytes_Equal (RIFF header) (list_byte_of_string "RIFF"))
     || negb (bytes_Equal (WAVE header) (list_byte_of_string "WAVE"))
  then div (of_int fileSize) lit_16000
  else div (of_int (DataSize header)) (of_int (ByteRate header)).

(** The loop [for k, v := range resp.Header], on the entries in the order
    the loop meets them: [v[0]] panics at an entry without a value.  The
    boolean tells whether the loop ran to its end. *)
Fixpoint copy_headers (entries : list (string * list string)) : list Event * bool :=
  match entries with
  | [] => ([], true)
  | (k, v) :: rest =>
      match v with
      | [] => ([EvPanic], false)
      | v0 :: _ =>
          let '(evs, completed) := copy_headers rest in
          (EvHeaderSet k v0 :: evs, completed)
      end
  end.

Section RelayAudio.

(** What [RelayAudio] uses from other files of the repository, and the
    implementation's choice at a conversion Go leaves open. *)
Variable QuotaPerUnit : float64.             (* common.QuotaPerUnit *)
Variable ChannelBaseURLs : list string.      (* common.ChannelBaseURLs *)
Variable GetModelRatio GetGroupRatio : string -> float64.
Variable unrepresentable : float64 -> Z.

(** [quota] of the deferred function. *)
Definition audio_quota (duration : float64) : Z :=
  let m := mul QuotaPerUnit lit_0_006 in
  let s := div m lit_60 in
  to_int unrepresentable (mul duration s).

(** The deferred function: it runs on every return after the upstream
    call has answered. *)
Definition deferred_accounting (env : AudioEnv) (c : Context) (resp : Response)
    (duration : float64) : list Event :=
  if resp_StatusCode resp =? 200 then
    let quota := audio_quota duration in
    let tokenId := GetInt c "token_id" in
    let userId := GetInt c "id" in
    let group := GetString c "group" in
    let imageModel := "whisper-1"%string in
    let modelRatio := GetModelRatio imageModel in
    let groupRatio := GetGroupRatio group in
    [EvPostConsumeTokenQuota tokenId quota]
    ++ match PostConsumeTokenQuota_err env with
       | Some e => [EvSysError ("error consuming token remain quota: " ++ e)%string]
       | None => []
       end
    ++ [EvCacheUpdateUserQuota userId]
    ++ match CacheUpdateUserQuota_err env with
       | Some e => [EvSysError ("error update user quota cache: " ++ e)%string]
       | None => []
       end
    ++ (if negb (quota =? 0) then
          let tokenName := GetString c "token_name" in
          let channelId := GetInt c "channel_id" in
          [EvRecordConsumeLog userId imageModel tokenName quota modelRatio groupRatio;
           EvUpdateUserUsedQuotaAndRequestCount userId quota;
           EvUpdateChannelUsedQuota channelId quota]
        else [])
  else [].

(** From [io.Copy] to the end of the function. *)
Definition after_WriteHeader (env : AudioEnv) (resp : Response) : list Event :=
  match Copy_fails_after env with
  | Some n =>
      [EvWrite (take n (resp_Body resp));
       EvJSON StatusInternalServerError
         (audio_error "copy_response_body_failed" EmptyString)]
  | None =>
      EvWrite (resp_Body resp) :: EvRespBodyClose ::
      if negb (RespBody_Close_ok env) then
        [EvJSON StatusInternalServerError
           (audio_error "close_response_body_failed" EmptyString)]
      else []
  end.

(** From [req.Body.Close()] to the end of the function. *)
Definition after_do (env : AudioEnv) (resp : Response) : list Event :=
  EvReqBodyClose ::
  if negb (ReqBody_Close_ok env) then
    [EvJSON StatusInternalServerError (audio_error "close_request_body_failed" EmptyString)]
  else
    EvInboundBodyClose ::
    if negb (InboundBody_Close_ok env) then
      [EvJSON StatusInternalServerError (audio_error "close_request_body_failed" EmptyString)]
    else
      let '(sets, completed) := copy_headers (Range_order env) in
      sets ++
      if negb completed then []
      else EvWriteHeader (resp_StatusCode resp) :: after_WriteHeader env resp.

(** [common.ChannelBaseURLs[channelType]]: a panic outside the slice. *)
Definition index_ChannelBaseURLs (channelType : Z) : option string :=
  if channelType <? 0 then None
  else ChannelBaseURLs !! Z.to_nat channelType.

(** From [binary.Read] to the end of the function, [defer file.Close()]
    apart. *)
Definition after_open (env : AudioEnv) (c : Context)
    (form : AudioTranscriptionsRequest) (file : list byte) : list Event :=
  match binary_Read file with
  | None => [EvJSON StatusBadRequest (audio_error "Read file error" EmptyString)]
  | Some header =>
      let duration := estimate_duration (Size (File form)) header in
      let channelType := GetInt c "channel" in
      match index_ChannelBaseURLs channelType with
      | None => [EvPanic]
      | Some baseURL0 =>
          let requestURL := URL_Path c in
          let baseURL :=
            if negb (String.eqb (GetString c "base_url") EmptyString)
            then GetString c "base_url" else baseURL0 in
          let fullRequestURL := (baseURL ++ requestURL)%string in
          if negb (CreateFormFile_ok env) then
            [EvJSON StatusInternalServerError
               (audio_error "create_form_file_failed" EmptyString)]
          else if negb (NewRequest_ok env) then
            [EvJSON StatusInternalServerError
               (audio_error "new_request_failed" EmptyString)]
          else
            let req :=
              {| req_Method := Method c;
                 req_URL := fullRequestURL;
                 req_Authorization := Header_Get (Header c) "Authorization";
                 req_Accept := Header_Get (Header c) "Accept";
                 part_file_name := Filename (File form);
                 part_file := file;
                 part_model := Model form;
                 part_prompt := Prompt form;
                 part_response_format := ResponseFormat form;
                 part_temperature := Temperature form;
                 part_language := Language form |} in
            EvDo req ::
            match Do env with
            | inl e =>
                [EvSysLog ("RelayAudio do_request_failed " ++ e)%string;
                 EvJSON StatusInternalServerError (audio_error "do_request_failed" e)]
            | inr resp =>
                after_do env resp ++ deferred_accounting env c resp duration
            end
      end
  end.

Definition RelayAudio (env : AudioEnv) (c : Context) : list Event :=
  match ShouldBind env with
  | None => [EvJSON StatusBadRequest (audio_error "bind_form_failed" EmptyString)]
  | Some form =>
      match File_Open env with
      | None => [EvJSON StatusBadRequest (audio_error "Open file error" EmptyString)]
      | Some file => after_open env c form file ++ [EvFileClose]
      end
  end.

End RelayAudio.

(* --------------------------------------------------------------------- *)
(** ** [RelayNotImplemented] and [RelayNotFound]                         *)
(* --------------------------------------------------------------------- *)

Definition RelayNotImplemented (c : Context) : list Event :=
  let err := {| Message := "API not implemented";
                Type_ := "one_api_error";
                Param := EmptyString;
                Code := CodeString "api_not_implemented" |} in
  [EvJSON StatusNotImplemented err].

(** The verbs [%s:%s] put the method and the path around a colon. *)
Definition RelayNotFound (c : Context) : list Event :=
  let err := {| Message := ("API not found: " ++ Method c ++ ":" ++ URL_Path c)%string;
                Type_ := "one_api_error";
                Param := EmptyString;
                Code := CodeString "api_not_found" |} in
  [EvJSON StatusNotFound err].

End Controller.

(* ===================================================================== *)
(** * Reading a trace, and the tables of the specification               *)
(* ===================================================================== *)

Module Spec.
Import GoLib Gin Float64 Common Controller.

(** The answers a trace sends to the client through [c.Redirect] and
    [c.JSON]. *)
Definition is_answer (e : Event) : bool :=
  match e with
  | EvRedirect _ _ | EvJSON _ _ => true
  | _ => false
  end.

Definition answers (t : list Event) : list Event := List.filter is_answer t.

(** The calls of [disableChannel] in a trace. *)
Fixpoint disablements (t : list Event) : list (Z * string * string) :=
  match t with
  | [] => []
  | EvDisableChannel id name reason :: t' => (id, name, reason) :: disablements t'
  | _ :: t' => disablements t'
  end.

(** The pipeline calls in a trace. *)
Definition is_pipeline_call (e : Event) : bool :=
  match e with
  | EvImageHelper _ | EvTextHelper _ => true
  | _ => false
  end.

(** A row of the table of the specification: a path matcher. *)
Inductive Matcher :=
| PathPrefix (p : string)
| PathSuffix (p : string).

Definition matches (m : Matcher) (path : string) : Prop :=
  match m with
  | PathPrefix p => exists rest, path = (p ++ rest)%string
  | PathSuffix p => exists front, path = (front ++ p)%string
  end.

(** The table of the specification, in its priority order. *)
Definition mode_table : list (Matcher * RelayMode) :=
  [ (PathPrefix "/v1/chat/completions", RelayModeChatCompletions);
    (PathPrefix "/v1/completions", RelayModeCompletions);
    (PathPrefix "/v1/embeddings", RelayModeEmbeddings);
    (PathSuffix "embeddings", RelayModeEmbeddings);
    (PathPrefix "/v1/moderations", RelayModeModerations);
    (PathPrefix "/v1/images/generations", RelayModeImagesGenerations);
    (PathPrefix "/v1/edits", RelayModeEdits) ].

(** [selects table path mode]: [mode] stands in the first row of [table]
    whose matcher holds of [path]; it is [RelayModeUnknown] when no row
    matches. *)
Inductive selects : list (Matcher * RelayMode) -> string -> RelayMode -> Prop :=
| selects_none path :
    selects [] path RelayModeUnknown
| selects_here m mode table path :
    matches m path -> selects ((m, mode) :: table) path mode
| selects_later m mode table path mode' :
    ~ matches m path -> selects table path mode' ->
    selects ((m, mode) :: table) path mode'.

(** The pipeline of a mode, in the words of the specification. *)
Definition pipeline_call (mode : RelayMode) : Event :=
  match mode with
  | RelayModeImagesGenerations => EvImageHelper mode
  | _ => EvTextHelper mode
  end.

(** The attempt on [c] fails with [err]: the pipeline [Relay] calls
    returns that error. *)
Definition attempt_fails
    (relayImageHelper relayTextHelper :
       Context -> RelayMode -> option OpenAIErrorWithStatusCode)
    (c : Context) (err : OpenAIErrorWithStatusCode) : Prop :=
  (dispatch relayImageHelper relayTextHelper c
     (relayMode_of_path (URL_Path c))).2 = Some err.

(** A path that holds neither [?] nor [#]. *)
Definition plain_path (path : string) : bool :=
  negb (ContainsByte path "?") && negb (ContainsByte path "#").

(** The request [c'] follows a redirect to [location]: its query is the
    query of that reference, as the server parses it.  The client sends
    the query as it stands in the reference; what it makes of the path,
    its headers, and the keys the middleware sets for the new request
    are left open. *)
Definition follows (location : string) (c' : Context) : Prop :=
  URL_Query c' = ParseQuery (reference_query location).

Section RedirectChain.

Variable RetryTimes : Z.
Variable relayImageHelper relayTextHelper :
  Context -> RelayMode -> option OpenAIErrorWithStatusCode.
Variable shouldDisableChannel : OpenAIError -> bool.

(** The requests one client sends in a row: each but the first follows
    the redirect by which [Relay] answered the one before it. *)
Inductive redirect_chain : list Context -> Prop :=
| chain_first (c : Context) :
    redirect_chain [c]
| chain_next (c c' : Context) (rest : list Context) (code : Z) (location : string) :
    answers (Relay RetryTimes relayImageHelper relayTextHelper
               shouldDisableChannel c) = [EvRedirect code location] ->
    follows location c' ->
    redirect_chain (c' :: rest) ->
    redirect_chain (c :: c' :: rest).

End RedirectChain.

(** Modelled from the spec: the body of [disableChannel] is in another
    file of the repository.  The specification has it mark the channel of
    the request as disabled in the channel store, and disabling a channel
    already disabled is a no-op; the store is the set of the disabled
    channels. *)
Definition disableChannel (channelId : Z) (store : gset Z) : gset Z :=
  {[ channelId ]} ∪ store.

(** The channel store after the disablements of a trace. *)
Definition store_after (t : list Event) (store : gset Z) : gset Z :=
  foldl (fun s d => disableChannel d.1.1 s) store (disablements t).

(** The ledger updates of a trace. *)
Definition is_ledger (e : Event) : bool :=
  match e with
  | EvPostConsumeTokenQuota _ _ | EvCacheUpdateUserQuota _
  | EvRecordConsumeLog _ _ _ _ _ _
  | EvUpdateUserUsedQuotaAndRequestCount _ _
  | EvUpdateChannelUsedQuota _ _ => true
  | _ => false
  end.

Definition ledger (t : list Event) : list Event := List.filter is_ledger t.

(** The upstream calls of a trace. *)
Definition is_upstream_call (e : Event) : bool :=
  match e with
  | EvDo _ => true
  | _ => false
  end.

(** How often a trace closes the outbound request body and the upstream
    response body. *)
Definition is_ReqBodyClose (e : Event) : bool :=
  match e with
  | EvReqBodyClose => true
  | _ => false
  end.

Definition is_RespBodyClose (e : Event) : bool :=
  match e with
  | EvRespBodyClose => true
  | _ => false
  end.

Definition closes_request_body (t : list Event) : nat :=
  length (List.filter is_ReqBodyClose t).

Definition closes_response_body (t : list Event) : nat :=
  length (List.filter is_RespBodyClose t).

(** The run of [RelayAudio] got an answer from upstream: the form was
    bound, the upload opened and its header read, the channel has a base
    URL, the outbound request was built, and [httpClient.Do] returned
    [resp], over whose headers the loop ranges in some order. *)
Definition upstream_answered (ChannelBaseURLs : list string) (env : AudioEnv)
    (c : Context) (form : AudioTranscriptionsRequest) (file : list byte)
    (header : WAVHeader) (resp : Response) : Prop :=
  ShouldBind env = Some form
  /\ File_Open env = Some file
  /\ binary_Read file = Some header
  /\ is_Some (index_ChannelBaseURLs ChannelBaseURLs (GetInt c "channel"))
  /\ CreateFormFile_ok env = true
  /\ NewRequest_ok env = true
  /\ Do env = inr resp
  /\ Range_order env ≡ₚ map_to_list (resp_Header resp).

(** The calls on [c.Writer] in a trace. *)
Definition is_writer (e : Event) : bool :=
  match e with
  | EvHeaderSet _ _ | EvWriteHeader _ | EvWrite _ | EvJSON _ _ => true
  | _ => false
  end.

Definition writer_events (t : list Event) : list Event := List.filter is_writer t.

(** The writes of body bytes. *)
Definition is_body_write (e : Event) : bool :=
  match e with
  | EvWrite _ | EvJSON _ _ => true
  | _ => false
  end.

(** The first value of a header entry, set on the response of the
    client. *)
Definition set_first_value (entry : string * list string) : Event :=
  EvHeaderSet entry.1 (default EmptyString (head entry.2)).

(** Every header of the response has a value, as the headers [net/http]
    reads from the wire have. *)
Definition header_values_present (h : gmap string (list string)) : Prop :=
  forall k vs, h !! k = Some vs -> vs <> [].

(** gin's response writer, as far as the status line and the headers
    go: the header map the handler fills, the status [WriteHeader] has
    stored (200 at first) and, once the header is written, the status and
    the headers that went out with it.  What [net/http] adds of its own
    when it writes them is left out. *)
Record ResponseWriter := {
  rw_header : gmap string (list string);
  rw_status : Z;
  rw_written : option (Z * gmap string (list string))
}.

(** The writer at the start of the handler; [h0] holds what the
    middleware has set. *)
Definition fresh_writer (h0 : gmap string (list string)) : ResponseWriter :=
  {| rw_header := h0; rw_status := 200; rw_written := None |}.

(** [Header().Set(k, v0)]: the key holds the one value [v0].  (The keys
    of an [http.Header] read from the wire are canonical, and on such a
    key [Set] changes nothing before it stores.) *)
Definition Header_Set (k v0 : string) (w : ResponseWriter) : ResponseWriter :=
  {| rw_header := <[ k := [v0] ]> (rw_header w);
     rw_status := rw_status w;
     rw_written := rw_written w |}.

(** [WriteHeader(code)] of gin's writer stores the code and writes
    nothing; once the header is written, what went out stays as it is. *)
Definition gin_WriteHeader (code : Z) (w : ResponseWriter) : ResponseWriter :=
  if (0 <? code) && negb (rw_status w =? code) then
    match rw_written w with
    | Some _ => w
    | None => {| rw_header := rw_header w;
                 rw_status := code;
                 rw_written := None |}
    end
  else w.

(** [WriteHeaderNow()]: the header goes out, once, with the status
    stored and the headers set by then. *)
Definition gin_WriteHeaderNow (w : ResponseWriter) : ResponseWriter :=
  match rw_written w with
  | Some _ => w
  | None => {| rw_header := rw_header w;
               rw_status := rw_status w;
               rw_written := Some (rw_status w, rw_header w) |}
  end.

(** [writeContentType] of gin's renderers: the content type is set where
    the header has none. *)
Definition writeContentType (value : string) (h : gmap string (list string))
  : gmap string (list string) :=
  match h !! "Content-Type"%string with
  | Some (_ :: _) => h
  | _ => <[ "Content-Type"%string := [value] ]> h
  end.

Definition jsonContentType : string := "application/json; charset=utf-8".

(** [c.JSON(code, obj)]: the status is stored, the content type set, and
    the rendering written, the header before it. *)
Definition gin_JSON (code : Z) (w : ResponseWriter) : ResponseWriter :=
  let w1 := gin_WriteHeader code w in
  gin_WriteHeaderNow
    {| rw_header := writeContentType jsonContentType (rw_header w1);
       rw_status := rw_status w1;
       rw_written := rw_written w1 |}.

(** What an event of [RelayAudio] does to the writer.  [io.Copy] calls
    [Write] with the bytes it has read and not at all when it has read
    none, and [Write] writes the header first. *)
Definition writer_step (w : ResponseWriter) (e : Event) : ResponseWriter :=
  match e with
  | EvHeaderSet k v0 => Header_Set k v0 w
  | EvWriteHeader code => gin_WriteHeader code w
  | EvWrite [] => w
  | EvWrite (_ :: _) => gin_WriteHeaderNow w
  | EvJSON code _ => gin_JSON code w
  | _ => w
  end.

(** The status and the headers the client is sent for a run of
    [RelayAudio] that returns: when the handler has returned, gin writes
    the header if it is not written yet. *)
Definition response_sent (h0 : gmap string (list string)) (t : list Event)
  : option (Z * gmap string (list string)) :=
  rw_written (gin_WriteHeaderNow (foldl writer_step (fresh_writer h0) t)).

(** What [io.Copy] has written to the client when it returns, and
    whether the handler fails behind [WriteHeader]: on an error of the
    copy or of the close of the response body. *)
Definition bytes_copied (env : AudioEnv) (resp : Response) : list byte :=
  match Copy_fails_after env with
  | Some n => take n (resp_Body resp)
  | None => resp_Body resp
  end.

Definition fails_behind_WriteHeader (env : AudioEnv) : bool :=
  match Copy_fails_after env with
  | Some _ => true
  | None => negb (RespBody_Close_ok env)
  end.

Definition fails_before_first_byte (env : AudioEnv) (resp : Response) : bool :=
  fails_behind_WriteHeader env && bool_decide (bytes_copied env resp = []).

(** The lines a trace writes to the log. *)
Definition is_log (e : Event) : bool :=
  match e with
  | EvSysError _ | EvSysLog _ => true
  | _ => false
  end.

Definition log_lines (t : list Event) : list Event := List.filter is_log t.

(** The requests a trace sends upstream. *)
Fixpoint upstream_requests (t : list Event) : list OutboundRequest :=
  match t with
  | [] => []
  | EvDo req :: t' => req :: upstream_requests t'
  | _ :: t' => upstream_requests t'
  end.

(** How often a trace closes the uploaded file and the body of the
    inbound request. *)
Definition is_FileClose (e : Event) : bool :=
  match e with
  | EvFileClose => true
  | _ => false
  end.

Definition is_InboundBodyClose (e : Event) : bool :=
  match e with
  | EvInboundBodyClose => true
  | _ => false
  end.

Definition closes_file (t : list Event) : nat :=
  length (List.filter is_FileClose t).

Definition closes_inbound_body (t : list Event) : nat :=
  length (List.filter is_InboundBodyClose t).

(** The run of [RelayAudio] reaches the upstream call: the form was
    bound, the upload opened and its header read, the channel has the
    base URL [base], and the outbound request was built. *)
Definition upstream_called (ChannelBaseURLs : list string) (env : AudioEnv)
    (c : Context) (form : AudioTranscriptionsRequest) (file : list byte)
    (base : string) : Prop :=
  ShouldBind env = Some form
  /\ File_Open env = Some file
  /\ (44 <= length file)%nat
  /\ index_ChannelBaseURLs ChannelBaseURLs (GetInt c "channel") = Some base
  /\ CreateFormFile_ok env = true
  /\ NewRequest_ok env = true.

(** An event without the ratios it carries: those of the consumption
    log are put to zero. *)
Definition without_ratios (e : Event) : Event :=
  match e with
  | EvRecordConsumeLog userId modelName tokenName quota _ _ =>
      EvRecordConsumeLog userId modelName tokenName quota
        (S754_zero false) (S754_zero false)
  | _ => e
  end.

(** The prefixes the chain of [Relay] tests. *)
Definition route_prefixes : list string :=
  [ "/v1/chat/completions"%string; "/v1/completions"%string;
    "/v1/embeddings"%string; "/v1/moderations"%string;
    "/v1/images/generations"%string; "/v1/edits"%string ].

End Spec.


(* ===================================================================== *)
(** * Concrete requests and errors                                       *)
(* ===================================================================== *)

Module Examples.
Import GoLib Gin Float64 Common Controller.

(** A request on [/v1/chat/completions] with the query [retry=<retry>],
    relayed through channel 7. *)
Definition chat_request (retry : string) : Context :=
  {| Method := "POST";
     URL_Path := "/v1/chat/completions";
     URL_Query := {[ "retry"%string := [retry] ]};
     Header := ∅;
     Keys := {[ "channel_id"%string := KInt 7;
                "channel_name"%string := KString "primary" ]} |}.

(** A request on [path] with the query [retry=<retry>], relayed through
    channel 7. *)
Definition request_on (path retry : string) : Context :=
  {| Method := "POST";
     URL_Path := path;
     URL_Query := {[ "retry"%string := [retry] ]};
     Header := ∅;
     Keys := {[ "channel_id"%string := KInt 7;
                "channel_name"%string := KString "primary" ]} |}.

(** The same request without a query. *)
Definition chat_request_plain : Context :=
  {| Method := "POST";
     URL_Path := "/v1/chat/completions";
     URL_Query := ∅;
     Header := ∅;
     Keys := {[ "channel_id"%string := KInt 7;
                "channel_name"%string := KString "primary" ]} |}.

Definition rate_limited : OpenAIErrorWithStatusCode :=
  {| Error := {| Message := "Rate limit reached";
                 Type_ := "requests";
                 Param := EmptyString;
                 Code := CodeString "rate_limit_exceeded" |};
     StatusCode := 429 |}.

Definition quota_exhausted : OpenAIErrorWithStatusCode :=
  {| Error := {| Message := "You exceeded your current quota";
                 Type_ := "insufficient_quota";
                 Param := EmptyString;
                 Code := CodeString "insufficient_quota" |};
     StatusCode := 401 |}.

(** A disable policy on the type of the error. *)
Definition disable_on_insufficient_quota (e : OpenAIError) : bool :=
  String.eqb (Type_ e) "insufficient_quota".

(** A pipeline that fails with the same error on every request. *)
Definition always_fails (err : OpenAIErrorWithStatusCode)
    (_ : Context) (_ : RelayMode) : option OpenAIErrorWithStatusCode :=
  Some err.

(** [Relay] with a default budget of 0, both pipelines failing with
    [err], and the policy above. *)
Definition run_relay (err : OpenAIErrorWithStatusCode) (c : Context) : list Event :=
  Relay 0 (always_fails err) (always_fails err) disable_on_insufficient_quota c.

(** A 32-bit number as four bytes, the least significant first. *)
Definition le32 (n : Z) : list byte :=
  map (fun i => match Byte.of_N (Z.to_N ((n / 256 ^ i) mod 256)) with
                | Some b => b
                | None => x00
                end) [0; 1; 2; 3].

Definition zeros (n : nat) : list byte := repeat x00 n.

(** A 44-byte WAV header: [RIFF], [WAVE], byte rate 16000, data size
    160000; every other field zero. *)
Definition wav_10s : list byte :=
  list_byte_of_string "RIFF" ++ zeros 4 ++ list_byte_of_string "WAVE"
  ++ zeros 16 ++ le32 16000 ++ zeros 8 ++ le32 160000.

(** An upload that is not a WAV file: 64 zero bytes. *)
Definition not_wav : list byte := zeros 64.

(** An upload shorter than a header: 10 bytes. *)
Definition short_upload : list byte := zeros 10.

Definition audio_form (size : Z) : AudioTranscriptionsRequest :=
  {| File := {| Filename := "speech.wav"; Size := size |};
     Model := "whisper-1";
     Prompt := EmptyString;
     ResponseFormat := "json";
     Temperature := S754_zero false;
     Language := "en" |}.

Definition audio_request : Context :=
  {| Method := "POST";
     URL_Path := "/v1/audio/transcriptions";
     URL_Query := ∅;
     Header := {[ "Authorization"%string := ["Bearer sk-test"%string] ]};
     Keys := {[ "channel"%string := KInt 1;
                "channel_id"%string := KInt 7;
                "token_id"%string := KInt 3;
                "id"%string := KInt 11;
                "group"%string := KString "default";
                "token_name"%string := KString "demo" ]} |}.

Definition base_urls : list string :=
  [ EmptyString; "https://api.openai.com"%string ].

Definition transcript : list byte := list_byte_of_string "{}".

Definition upstream_response (status : Z) : Response :=
  {| resp_StatusCode := status;
     resp_Header := {[ "Content-Type"%string :=
                         ["application/json"%string; "ignored"%string] ]};
     resp_Body := transcript |}.

(** Everything succeeds, upstream answers [status], and [io.Copy] fails
    or not as [copy] says. *)
Definition audio_env (file : list byte) (status : Z) (copy : option nat) : AudioEnv :=
  {| ShouldBind := Some (audio_form (Z.of_nat (length file)));
     File_Open := Some file;
     CreateFormFile_ok := true;
     NewRequest_ok := true;
     Do := inr (upstream_response status);
     Range_order := map_to_list (resp_Header (upstream_response status));
     ReqBody_Close_ok := true;
     InboundBody_Close_ok := true;
     Copy_fails_after := copy;
     RespBody_Close_ok := true;
     PostConsumeTokenQuota_err := None;
     CacheUpdateUserQuota_err := None |}.

(** A run in which the form is bound, the upload opened and the
    outbound request built; the rest is as the arguments say. *)
Definition audio_env_of (file : list byte) (do : string + Response)
    (order : list (string * list string)) (req_close inbound_close : bool)
    (copy : option nat) (resp_close : bool) (post cache : option string) : AudioEnv :=
  {| ShouldBind := Some (audio_form (Z.of_nat (length file)));
     File_Open := Some file;
     CreateFormFile_ok := true;
     NewRequest_ok := true;
     Do := do;
     Range_order := order;
     ReqBody_Close_ok := req_close;
     InboundBody_Close_ok := inbound_close;
     Copy_fails_after := copy;
     RespBody_Close_ok := resp_close;
     PostConsumeTokenQuota_err := post;
     CacheUpdateUserQuota_err := cache |}.

(** An upstream response with a header that has no value. *)
Definition response_without_value : Response :=
  {| resp_StatusCode := 200;
     resp_Header := {[ "X-Empty"%string := [] ]};
     resp_Body := transcript |}.

(** A value for [common.QuotaPerUnit]. *)
Definition quota_per_unit : float64 := of_int 500000.

(** Every model and group ratio is 1. *)
Definition ratio_one (_ : string) : float64 := of_int 1.

(** An implementation that makes 0 of every conversion out of range. *)
Definition no_choice (_ : float64) : Z := 0.

(** The forwarder on an upload, with these parameters. *)
Definition run_audio (file : list byte) (status : Z) (copy : option nat) : list Event :=
  RelayAudio quota_per_unit base_urls ratio_one ratio_one no_choice
    (audio_env file status copy) audio_request.

End Examples.

(* ===================================================================== *)
(** * Facts about the library functions                                  *)
(* ===================================================================== *)

Module GoLibFacts.
Import GoLib.

Lemma substring_0_append (p t : string) :
  String.substring 0 (String.length p) (p ++ t) = p.
Proof. induction p as [|a p IH]; simpl; [by destruct t | by rewrite IH]. Qed.

Lemma substring_0_split (p s : string) :
  String.substring 0 (String.length p) s = p -> exists t, s = (p ++ t)%string.
Proof.
  revert s. induction p as [|a p IH]; intros s H.
  - by exists s.
  - destruct s as [|b s]; simpl in H; [discriminate|].
    injection H as -> H. destruct (IH _ H) as [t ->]. by exists t.
Qed.

Lemma length_append (s t : string) :
  String.length (s ++ t) = (String.length s + String.length t)%nat.
Proof. induction s; simpl; auto. Qed.

(** [strings.HasPrefix] holds exactly of the strings that start with the
    prefix. *)
Lemma HasPrefix_iff (s p : string) :
  HasPrefix s p = true <-> exists t, s = (p ++ t)%string.
Proof.
  unfold HasPrefix, slice. rewrite andb_true_iff, Nat.leb_le, String.eqb_eq, Nat.sub_0_r.
  split.
  - intros [_ H]. by apply substring_0_split.
  - intros [t ->]. rewrite length_append, substring_0_append. split; [lia|done].
Qed.

Lemma substring_0_length (p : string) :
  String.substring 0 (String.length p) p = p.
Proof. induction p as [|a p IH]; simpl; [done | by rewrite IH]. Qed.

Lemma substring_skip (t p : string) :
  String.substring (String.length t) (String.length p) (t ++ p) = p.
Proof. induction t as [|a t IH]; simpl; [apply substring_0_length | done]. Qed.

Lemma substring_0_0 (s : string) : String.substring 0 0 s = EmptyString.
Proof. by destruct s. Qed.

Lemma substring_cut (s : string) (n m : nat) :
  (n + m)%nat = String.length s ->
  s = (String.substring 0 n s ++ String.substring n m s)%string.
Proof.
  revert n. induction s as [|a s IH]; intros n H.
  - simpl in H. assert (n = 0%nat) as -> by lia. assert (m = 0%nat) as -> by lia. done.
  - destruct n as [|n].
    + simpl in H. rewrite substring_0_0. subst m.
      change (S (String.length s)) with (String.length (String a s)).
      by rewrite substring_0_length.
    + change (String a s = String a (String.substring 0 n s ++ String.substring n m s)%string).
      f_equal. apply IH. simpl in H. lia.
Qed.

(** [strings.HasSuffix] holds exactly of the strings that end with the
    suffix. *)
Lemma HasSuffix_iff (s p : string) :
  HasSuffix s p = true <-> exists t, s = (t ++ p)%string.
Proof.
  unfold HasSuffix, slice. rewrite andb_true_iff, Nat.leb_le, String.eqb_eq.
  split.
  - intros [Hle H].
    replace (String.length s - (String.length s - String.length p))%nat
      with (String.length p) in H by lia.
    exists (String.substring 0 (String.length s - String.length p) s).
    etrans; [apply (substring_cut s (String.length s - String.length p)
                      (String.length p)); lia|].
    by rewrite H.
  - intros [t ->]. rewrite length_append. split; [lia|].
    replace (String.length t + String.length p - String.length p)%nat
      with (String.length t) by lia.
    replace (String.length t + String.length p - String.length t)%nat
      with (String.length p) by lia.
    apply substring_skip.
Qed.

End GoLibFacts.

(* ===================================================================== *)
(** * [strconv]: reading back what [%d] printed                           *)
(* ===================================================================== *)

Module StrconvFacts.
Import GoLib.

Lemma digit_cases (d : Z) :
  0 <= d <= 9 ->
  d = 0 \/ d = 1 \/ d = 2 \/ d = 3 \/ d = 4 \/ d = 5 \/ d = 6 \/ d = 7 \/ d = 8 \/ d = 9.
Proof. lia. Qed.

Ltac each_digit H :=
  destruct (digit_cases _ H) as [->|[->|[->|[->|[->|[->|[->|[->|[->| ->]]]]]]]]].

Lemma digit_of_ascii_of_digit (d : Z) :
  0 <= d <= 9 -> digit_of_ascii (ascii_of_digit d) = Some d.
Proof. intros H. each_digit H; reflexivity. Qed.

Lemma ascii_of_digit_not_sign (d : Z) :
  0 <= d <= 9 ->
  Ascii.eqb (ascii_of_digit d) "-" = false /\ Ascii.eqb (ascii_of_digit d) "+" = false.
Proof. intros H. each_digit H; split; reflexivity. Qed.

Lemma represents_empty : represents EmptyString 0 0.
Proof.
  split; [lia|]. split; [lia|]. intros a _ _. simpl. f_equal. lia.
Qed.

Lemma represents_digit (s : string) (L v d : Z) :
  0 <= d <= 9 -> represents s L v ->
  represents (String (ascii_of_digit d) s) (L + 1) (d * 10 ^ L + v).
Proof.
  intros Hd (HL & Hv & H). split; [lia|]. 
  assert (0 < 10 ^ L) by (apply Z.pow_pos_nonneg; lia).
  split; [nia|].
  intros a Ha Hmax. rewrite Z.pow_add_r in Hmax by lia.
  cbn [parse_uint_loop]. rewrite digit_of_ascii_of_digit by done.
  cbv zeta.
  assert (a * 10 + d <= (a * 10 + d) * 10 ^ L) by nia.
  destruct (Z.ltb_spec MaxUint64 (a * 10 + d)) as [Hlt|_]; [lia|].
  rewrite H by lia. f_equal. rewrite Z.pow_add_r by lia. lia.
Qed.

Lemma format_digits_represents (fuel : nat) :
  forall n acc L v,
    0 <= n < 10 ^ Z.of_nat fuel -> (0 < fuel)%nat -> represents acc L v ->
    exists L', represents (format_digits fuel n acc) L' (n * 10 ^ L + v).
Proof.
  induction fuel as [|fuel IH]; intros n acc L v Hn Hf Hrep; [lia|].
  cbn [format_digits]. cbv zeta.
  assert (Hd : 0 <= n mod 10 <= 9) by (pose proof (Z.mod_pos_bound n 10); lia).
  pose proof (represents_digit acc L v (n mod 10) Hd Hrep) as Hacc.
  destruct (Z.ltb_spec n 10) as [Hlt|Hge].
  - exists (L + 1). rewrite (Z.mod_small n 10) in Hacc |- * by lia. exact Hacc.
  - assert (fuel <> 0%nat).
    { intros ->. simpl in Hn. lia. }
    destruct (IH (n / 10) _ _ _ ltac:(
      split; [apply Z.div_pos; lia|];
      apply Z.div_lt_upper_bound; [lia|];
      rewrite Nat2Z.inj_succ, Z.pow_succ_r in Hn by lia; lia) ltac:(lia) Hacc)
      as [L' HL'].
    exists L'.
    destruct Hrep as (HL & _).
    replace (n * 10 ^ L + v)
      with (n / 10 * 10 ^ (L + 1) + (n mod 10 * 10 ^ L + v)); [done|].
    rewrite Z.pow_add_r by lia.
    pose proof (Z.div_mod n 10 ltac:(lia)). nia.
Qed.

Lemma format_digits_head (fuel : nat) :
  forall n acc,
    0 <= n < 10 ^ Z.of_nat fuel -> (0 < fuel)%nat ->
    exists d rest, 0 <= d <= 9 /\
      format_digits fuel n acc = String (ascii_of_digit d) rest.
Proof.
  induction fuel as [|fuel IH]; intros n acc Hn Hf; [lia|].
  cbn [format_digits]. cbv zeta.
  assert (Hd : 0 <= n mod 10 <= 9) by (pose proof (Z.mod_pos_bound n 10); lia).
  destruct (Z.ltb_spec n 10) as [Hlt|Hge]; [by eauto|].
  assert (fuel <> 0%nat).
  { intros ->. simpl in Hn. lia. }
  apply IH; [|lia].
  split; [apply Z.div_pos; lia|].
  apply Z.div_lt_upper_bound; [lia|].
  rewrite Nat2Z.inj_succ, Z.pow_succ_r in Hn by lia. lia.
Qed.

(** Twenty digits are enough for a number below [2^64]. *)
Lemma ParseUint_format_digits (n : Z) :
  0 <= n <= MaxUint64 ->
  ParseUint (format_digits 20 n EmptyString) = UintOk n.
Proof.
  intros Hn.
  assert (Hb : 0 <= n < 10 ^ Z.of_nat 20) by (unfold MaxUint64 in Hn; simpl; lia).
  destruct (format_digits_head 20 n EmptyString Hb ltac:(lia)) as (d & rest & Hd & E).
  destruct (format_digits_represents 20 n EmptyString 0 0 Hb ltac:(lia) represents_empty)
    as (L' & _ & _ & H).
  unfold ParseUint. rewrite E. rewrite <- E.
  rewrite (H 0) by lia. f_equal. lia.
Qed.

(** Reading back what [%d] printed gives the number printed. *)
Lemma Atoi_FormatInt (n : Z) :
  MinInt64 <= n <= MaxInt64 -> Atoi (FormatInt n) = n.
Proof.
  unfold MinInt64, MaxInt64. intros Hn. unfold Atoi, FormatInt.
  destruct (Z.ltb_spec n 0) as [Hneg|Hpos].
  - unfold ParseInt.
    change (Ascii.eqb "-" "-") with true. change (Ascii.eqb "-" "+") with false.
    cbn [orb]. cbv zeta.
    rewrite ParseUint_format_digits by (unfold MaxUint64; lia).
    cbn [negb andb].
    destruct (Z.ltb_spec (2 ^ 63) (- n)); lia.
  - assert (Hb : 0 <= n < 10 ^ Z.of_nat 20) by (simpl; lia).
    destruct (format_digits_head 20 n EmptyString Hb ltac:(lia)) as (d & rest & Hd & E).
    pose proof (ParseUint_format_digits n ltac:(unfold MaxUint64; lia)) as HP.
    rewrite E in *. unfold ParseInt.
    destruct (ascii_of_digit_not_sign d Hd) as [-> ->].
    cbn [orb]. cbv zeta. rewrite HP. cbn [negb andb].
    destruct (Z.leb_spec (2 ^ 63) n); lia.
Qed.

End StrconvFacts.
(* ===================================================================== *)
(** * The dispatcher and the retry orchestrator                          *)
(* ===================================================================== *)

Module RelayFacts.
Import GoLib Gin Controller Spec GoLibFacts StrconvFacts.

Lemma matches_prefix (path p : string) :
  matches (PathPrefix p) path <-> HasPrefix path p = true.
Proof. symmetry. apply HasPrefix_iff. Qed.

Lemma matches_suffix (path p : string) :
  matches (PathSuffix p) path <-> HasSuffix path p = true.
Proof. symmetry. apply HasSuffix_iff. Qed.

(** The first matching row is unique. *)
Lemma selects_functional table path m1 m2 :
  selects table path m1 -> selects table path m2 -> m1 = m2.
Proof.
  intros H1. revert m2.
  induction H1 as [path|m mode table path Hm|m mode table path mode' Hn H IH];
    intros m2 H2; inversion H2; subst; try done.
  by apply IH.
Qed.

Lemma selects_relayMode_of_path (path : string) :
  selects mode_table path (relayMode_of_path path).
Proof.
  unfold relayMode_of_path, mode_table.
  repeat match goal with
  | |- selects ((PathPrefix ?p, _) :: _) _ (if HasPrefix ?s ?p then _ else _) =>
      destruct (HasPrefix s p) eqn:?;
      [ apply selects_here; by apply matches_prefix
      | apply selects_later; [rewrite matches_prefix; congruence|] ]
  | |- selects ((PathSuffix ?p, _) :: _) _ (if HasSuffix ?s ?p then _ else _) =>
      destruct (HasSuffix s p) eqn:?;
      [ apply selects_here; by apply matches_suffix
      | apply selects_later; [rewrite matches_suffix; congruence|] ]
  end.
  apply selects_none.
Qed.

Lemma dispatch_call RI RT c mode :
  (dispatch RI RT c mode).1 = pipeline_call mode.
Proof. by destruct mode. Qed.

Lemma dispatch_result RI RT c mode :
  (dispatch RI RT c mode).2 =
  match mode with
  | RelayModeImagesGenerations => RI c mode
  | _ => RT c mode
  end.
Proof. by destruct mode. Qed.

Lemma Relay_unfold RetryTimes RI RT policy c :
  Relay RetryTimes RI RT policy c =
  let mode := relayMode_of_path (URL_Path c) in
  pipeline_call mode ::
  match (dispatch RI RT c mode).2 with
  | Some e => on_error RetryTimes policy c e
  | None => []
  end.
Proof.
  unfold Relay. cbv zeta. rewrite <- dispatch_call with (RI := RI) (RT := RT) (c := c).
  by destruct (dispatch RI RT c (relayMode_of_path (URL_Path c))) as [call [e|]].
Qed.

Lemma on_error_no_pipeline_call RetryTimes policy c e :
  List.filter is_pipeline_call (on_error RetryTimes policy c e) = [].
Proof.
  unfold on_error. cbv zeta.
  destruct (0 <? retryTimes_of RetryTimes c); destruct (policy _); reflexivity.
Qed.

(** C7. [Relay] gives every path exactly one mode, the one of the first
    matching row of the table (chat-completions prefix, completions prefix,
    embeddings prefix, embeddings suffix, moderations prefix,
    image-generation prefix, edits prefix, else unknown); it then calls
    the image pipeline for [RelayModeImagesGenerations] and the text
    pipeline for every other mode, once, and when the pipeline returns no
    error it does nothing else. *)
Theorem Relay_dispatch RetryTimes RI RT policy (c : Context) :
  let mode := relayMode_of_path (URL_Path c) in
  selects mode_table (URL_Path c) mode
  /\ (forall mode', selects mode_table (URL_Path c) mode' -> mode' = mode)
  /\ List.filter is_pipeline_call (Relay RetryTimes RI RT policy c)
     = [pipeline_call mode]
  /\ (pipeline_call mode = EvImageHelper mode <-> mode = RelayModeImagesGenerations)
  /\ (pipeline_call mode = EvTextHelper mode <-> mode <> RelayModeImagesGenerations)
  /\ ((dispatch RI RT c mode).2 = None ->
      Relay RetryTimes RI RT policy c = [pipeline_call mode]).
Proof.
  cbv zeta. split; [apply selects_relayMode_of_path|].
  split.
  { intros mode' H. eapply selects_functional; [exact H|apply selects_relayMode_of_path]. }
  rewrite Relay_unfold. cbv zeta.
  split.
  { cbn [List.filter].
    replace (is_pipeline_call (pipeline_call (relayMode_of_path (URL_Path c))))
      with true by (by destruct (relayMode_of_path _)).
    f_equal. destruct (dispatch _ _ _ _).2; [apply on_error_no_pipeline_call|done]. }
  split; [destruct (relayMode_of_path _); split; intros; simpl in *; congruence|].
  split; [destruct (relayMode_of_path _); split; intros; simpl in *; congruence|].
  by intros ->.
Qed.


Lemma wrap64_id (z : Z) : MinInt64 <= z <= MaxInt64 -> wrap64 z = z.
Proof.
  unfold MinInt64, MaxInt64, wrap64. intros H.
  rewrite Z.mod_small by lia. lia.
Qed.

Lemma parse_uint_loop_ge (s : string) :
  forall a n, parse_uint_loop s a = UintOk n -> a <= n \/ a < 0.
Proof.
  induction s as [|ch s IH]; intros a n H; simpl in H.
  - injection H as ->. lia.
  - destruct (digit_of_ascii ch) as [d|] eqn:Hd; [|discriminate].
    destruct (MaxUint64 <? a * 10 + d); [discriminate|].
    apply IH in H.
    unfold digit_of_ascii in Hd.
    destruct (_ && _) eqn:Hb in Hd; [|discriminate].
    injection Hd as <-. lia.
Qed.

(** [Atoi] always yields an [int]. *)
Lemma Atoi_range (s : string) : MinInt64 <= Atoi s <= MaxInt64.
Proof.
  unfold Atoi, ParseInt, MinInt64, MaxInt64.
  destruct s as [|ch s]; [lia|].
  match goal with |- context [ParseUint ?b] => set (body := b) end.
  destruct (ParseUint body) as [un| |] eqn:HP.
  - assert (0 <= un).
    { unfold ParseUint in HP. destruct body; [discriminate|].
      apply parse_uint_loop_ge in HP. lia. }
    destruct (Ascii.eqb ch "-"); cbn [negb andb].
    + destruct (Z.ltb_spec (2 ^ 63) un); lia.
    + destruct (Z.leb_spec (2 ^ 63) un); lia.
  - lia.
  - destruct (Ascii.eqb ch "-"); lia.
Qed.

Lemma FormatInt_nonempty (n : Z) :
  MinInt64 <= n <= MaxInt64 -> FormatInt n <> EmptyString.
Proof.
  unfold MinInt64, MaxInt64, FormatInt. intros Hn.
  destruct (n <? 0) eqn:E; [discriminate|].
  apply Z.ltb_ge in E.
  destruct (format_digits_head 20 n EmptyString ltac:(simpl; lia) ltac:(lia))
    as (d & rest & _ & ->).
  discriminate.
Qed.

(** ** The query of the redirect *)

Lemma ContainsByte_app (s t : string) (x : ascii) :
  ContainsByte (s ++ t) x = ContainsByte s x || ContainsByte t x.
Proof.
  induction s as [|a s IH]; [done|].
  change (String a s +:+ t) with (String a (s +:+ t)). cbn [ContainsByte].
  fold (s ++ t)%string. by rewrite IH, orb_assoc.
Qed.

Lemma Cut_first (s t : string) (sep : ascii) :
  ContainsByte s sep = false -> Cut (s ++ String sep t) sep = Some (s, t).
Proof.
  induction s as [|a s IH]; intros H.
  - change (EmptyString +:+ String sep t) with (String sep t).
    cbn [Cut]. by rewrite Ascii.eqb_refl.
  - cbn [ContainsByte] in H. apply orb_false_iff in H as [Ha Hs].
    change (String a s +:+ String sep t) with (String a (s +:+ String sep t)).
    cbn [Cut]. rewrite Ha. fold (s ++ String sep t)%string. by rewrite (IH Hs).
Qed.

Lemma Cut_none (s : string) (sep : ascii) :
  ContainsByte s sep = false -> Cut s sep = None.
Proof.
  induction s as [|a s IH]; [done|]. cbn [ContainsByte Cut]. intros H.
  apply orb_false_iff in H as [-> Hs]. by rewrite (IH Hs).
Qed.

Lemma Split_one (s : string) (sep : ascii) :
  ContainsByte s sep = false -> Split s sep = [s].
Proof.
  induction s as [|a s IH]; [done|]. cbn [ContainsByte Split]. intros H.
  apply orb_false_iff in H as [-> Hs]. by rewrite (IH Hs).
Qed.

(** A byte that is no digit does not occur in a string of digits. *)
Lemma all_digits_without (s : string) (x : ascii) :
  all_digits s = true -> is_digit x = false -> ContainsByte s x = false.
Proof.
  intros Hs Hx. induction s as [|a s IH]; [done|].
  cbn [all_digits] in Hs. apply andb_true_iff in Hs as [Ha Hs].
  cbn [ContainsByte]. rewrite (IH Hs), orb_false_r.
  destruct (Ascii.eqb_spec a x) as [->|]; [congruence|done].
Qed.

Lemma QueryUnescape_digits (s : string) :
  all_digits s = true -> QueryUnescape s = Some s.
Proof.
  induction s as [|a s IH]; [done|]. cbn [all_digits]. intros H.
  apply andb_true_iff in H as [Ha Hs]. cbn [QueryUnescape].
  destruct (Ascii.eqb_spec a "%") as [->|_]; [done|].
  rewrite (IH Hs). destruct (Ascii.eqb_spec a "+") as [->|_]; done.
Qed.

Lemma all_digits_format_digits (fuel : nat) :
  forall n acc,
    0 <= n -> all_digits acc = true -> all_digits (format_digits fuel n acc) = true.
Proof.
  induction fuel as [|fuel IH]; intros n acc Hn Hacc; [done|].
  cbn [format_digits].
  assert (Hd : all_digits (String (ascii_of_digit (n mod 10)) acc) = true).
  { cbn [all_digits]. rewrite Hacc, andb_true_r. unfold is_digit.
    rewrite StrconvFacts.digit_of_ascii_of_digit; [done|].
    pose proof (Z.mod_pos_bound n 10). lia. }
  destruct (n <? 10); [done|].
  apply IH; [|done]. apply Z.div_pos; lia.
Qed.

Lemma all_digits_FormatInt (n : Z) : 0 <= n -> all_digits (FormatInt n) = true.
Proof.
  intros Hn. unfold FormatInt.
  replace (n <? 0) with false by (symmetry; apply Z.ltb_ge; lia).
  by apply all_digits_format_digits.
Qed.

(** Behind a path that holds neither [?] nor [#], the query of the
    reference is the setting of [retry]. *)
Lemma reference_query_retry (path digits : string) :
  plain_path path = true -> all_digits digits = true ->
  reference_query (path ++ "?retry=" ++ digits) = ("retry=" ++ digits)%string.
Proof.
  intros Hp Hd. unfold plain_path in Hp.
  apply andb_true_iff in Hp as [Hq Hf].
  apply negb_true_iff in Hq. apply negb_true_iff in Hf.
  unfold reference_query.
  assert (Hnf : ContainsByte (path ++ "?retry=" ++ digits) "#" = false).
  { rewrite !ContainsByte_app, Hf. cbn.
    by rewrite (all_digits_without digits "#" Hd). }
  rewrite (Cut_none _ _ Hnf).
  change ("?retry=" ++ digits)%string with (String "?" ("retry=" ++ digits)).
  by rewrite (Cut_first path _ "?" Hq).
Qed.

Lemma ParseQuery_retry (digits : string) :
  all_digits digits = true ->
  ParseQuery ("retry=" ++ digits) = {[ "retry"%string := [digits] ]}.
Proof.
  intros Hd. unfold ParseQuery.
  assert (Hno : forall x, is_digit x = false ->
                  ContainsByte "retry=" x = false ->
                  ContainsByte ("retry=" ++ digits) x = false).
  { intros x Hx Hr. by rewrite ContainsByte_app, Hr, (all_digits_without digits x Hd Hx). }
  rewrite Split_one by (by apply Hno).
  cbn [foldl]. unfold parseQuery_step.
  rewrite (Hno ";"%char) by done.
  change ("retry=" ++ digits)%string with ("retry" ++ String "=" digits)%string.
  rewrite (Cut_first "retry" digits "=" eq_refl).
  change (("retry" ++ String "=" digits)%string =? "")%string with false.
  cbv beta iota zeta.
  change (QueryUnescape "retry") with (Some "retry"%string).
  rewrite (QueryUnescape_digits digits Hd). cbv beta iota.
  rewrite lookup_empty. cbn [default app]. by rewrite insert_empty.
Qed.

Section Orchestrator.
Variable RetryTimes : Z.
Variable policy : OpenAIError -> bool.
Hypothesis RetryTimes_int : MinInt64 <= RetryTimes <= MaxInt64.

Lemma retryTimes_of_range (c : Context) :
  MinInt64 <= retryTimes_of RetryTimes c <= MaxInt64.
Proof.
  unfold retryTimes_of. cbv zeta.
  destruct (String.eqb _ _); [done | apply Atoi_range].
Qed.

(** The budget of a request that follows the redirect to [path?retry=n]
    is [n], when the path holds neither [?] nor [#]. *)
Lemma retryTimes_of_follows (path : string) (n : Z) (c' : Context) :
  plain_path path = true -> 0 <= n <= MaxInt64 ->
  follows (path ++ "?retry=" ++ FormatInt n) c' ->
  retryTimes_of RetryTimes c' = n.
Proof.
  intros Hp Hn Hf. unfold follows in Hf.
  rewrite reference_query_retry in Hf by (done || apply all_digits_FormatInt; lia).
  rewrite ParseQuery_retry in Hf by (apply all_digits_FormatInt; lia).
  unfold retryTimes_of, Query. cbv zeta. rewrite Hf, lookup_singleton_eq.
  destruct (String.eqb_spec (FormatInt n) EmptyString) as [E|_].
  - apply FormatInt_nonempty in E; [done|]. unfold MinInt64. lia.
  - apply Atoi_FormatInt. unfold MinInt64. lia.
Qed.

Lemma retryTimes_of_absent (c : Context) :
  URL_Query c !! "retry"%string = None -> retryTimes_of RetryTimes c = RetryTimes.
Proof. intros H. unfold retryTimes_of, Query. by rewrite H. Qed.

Lemma answers_on_error (c : Context) (err : OpenAIErrorWithStatusCode) :
  answers (on_error RetryTimes policy c err) =
  let b := retryTimes_of RetryTimes c in
  if 0 <? b then
    [EvRedirect StatusTemporaryRedirect
       (URL_Path c ++ "?retry=" ++ FormatInt (wrap64 (b - 1)))%string]
  else
    [EvJSON (StatusCode (err_after_branch b err)) (Error (err_after_branch b err))].
Proof.
  unfold on_error. cbv zeta.
  destruct (0 <? retryTimes_of RetryTimes c); destruct (policy _); reflexivity.
Qed.

Lemma disablements_on_error (c : Context) (err : OpenAIErrorWithStatusCode) :
  disablements (on_error RetryTimes policy c err) =
  let e := Error (err_after_branch (retryTimes_of RetryTimes c) err) in
  if policy e
  then [(GetInt c "channel_id", GetString c "channel_name", Message e)]
  else [].
Proof.
  unfold on_error. cbv zeta.
  destruct (0 <? retryTimes_of RetryTimes c); destruct (policy _); reflexivity.
Qed.

Variable RI RT : Context -> RelayMode -> option OpenAIErrorWithStatusCode.

(** A failed attempt is the call of the pipeline followed by the body of
    [if err != nil]. *)
Lemma Relay_failed (c : Context) (err : OpenAIErrorWithStatusCode) :
  attempt_fails RI RT c err ->
  Relay RetryTimes RI RT policy c
  = pipeline_call (relayMode_of_path (URL_Path c))
    :: on_error RetryTimes policy c err.
Proof. intros H. rewrite Relay_unfold. cbv zeta. by rewrite H. Qed.

Lemma answers_Relay_failed (c : Context) (err : OpenAIErrorWithStatusCode) :
  attempt_fails RI RT c err ->
  answers (Relay RetryTimes RI RT policy c)
  = answers (on_error RetryTimes policy c err).
Proof.
  intros H. rewrite (Relay_failed c err H).
  by destruct (relayMode_of_path (URL_Path c)).
Qed.

Lemma disablements_Relay_failed (c : Context) (err : OpenAIErrorWithStatusCode) :
  attempt_fails RI RT c err ->
  disablements (Relay RetryTimes RI RT policy c)
  = disablements (on_error RetryTimes policy c err).
Proof.
  intros H. rewrite (Relay_failed c err H).
  by destruct (relayMode_of_path (URL_Path c)).
Qed.

End Orchestrator.

(** C3 does not hold of the code.  The redirect pastes the path, as
    decoded, in front of [?retry=]: on a path that holds a [?] the query
    of the reference starts at that [?], and it has no setting of
    [retry].  A failed attempt on [/v1/engines/a?b/embeddings] (sent as
    [/v1/engines/a%3Fb/embeddings], an embeddings path by its suffix) with
    a budget of 2 is answered by a redirect whose query is
    [b/embeddings?retry=1]; every request that follows it has the
    process-wide default for its budget, not 1. *)
Theorem retry_budget_lost_behind_question_mark :
  let c := Examples.request_on "/v1/engines/a?b/embeddings" "2" in
  let location := "/v1/engines/a?b/embeddings?retry=1"%string in
  relayMode_of_path (URL_Path c) = RelayModeEmbeddings
  /\ retryTimes_of 0 c = 2
  /\ answers (Examples.run_relay Examples.rate_limited c) = [EvRedirect 307 location]
  /\ reference_query location = "b/embeddings?retry=1"%string
  /\ ParseQuery (reference_query location)
     = {[ "b/embeddings?retry"%string := ["1"%string] ]}
  /\ (forall (RetryTimes : Z) (c' : Context),
        follows location c' -> retryTimes_of RetryTimes c' = RetryTimes).
Proof.
  cbv zeta.
  assert (E : ParseQuery (reference_query "/v1/engines/a?b/embeddings?retry=1")
              = {[ "b/embeddings?retry"%string := ["1"%string] ]}).
  { change (reference_query "/v1/engines/a?b/embeddings?retry=1")
      with "b/embeddings?retry=1"%string.
    unfold ParseQuery.
    change (Split "b/embeddings?retry=1" "&") with ["b/embeddings?retry=1"%string].
    cbn [foldl]. unfold parseQuery_step.
    change (ContainsByte "b/embeddings?retry=1" ";") with false.
    change ("b/embeddings?retry=1" =? "")%string with false.
    change (Cut "b/embeddings?retry=1" "=")
      with (Some ("b/embeddings?retry"%string, "1"%string)).
    cbv iota beta.
    change (QueryUnescape "b/embeddings?retry") with (Some "b/embeddings?retry"%string).
    change (QueryUnescape "1") with (Some "1"%string).
    cbv iota beta. rewrite lookup_empty. cbn [default app]. by rewrite insert_empty. }
  split; [by vm_compute|].
  split; [by vm_compute|]. split; [by vm_compute|]. split; [reflexivity|].
  split; [exact E|].
  intros RetryTimes c' Hf. unfold follows in Hf. rewrite E in Hf.
  unfold retryTimes_of, Query. cbv zeta. rewrite Hf.
  by rewrite lookup_singleton_ne.
Qed.

(** X24. The budget is handed on behind a plain path.  On a failed
    attempt with budget [b] on a path that holds neither [?] nor [#]:
    without a [retry] parameter [b] is the process-wide default; when
    [b > 0] the only answer is a redirect of status 307 to the path with
    [?retry=b-1], and every request that follows this redirect has the
    budget [b - 1], one less and not below 0; when [b] is 0 or below, the
    only answer is the error envelope. *)
Theorem budget_handed_on_behind_plain_path (RetryTimes : Z)
    (RI RT : Context -> RelayMode -> option OpenAIErrorWithStatusCode)
    (policy : OpenAIError -> bool)
    (c : Context) (err : OpenAIErrorWithStatusCode) :
  MinInt64 <= RetryTimes <= MaxInt64 ->
  attempt_fails RI RT c err ->
  plain_path (URL_Path c) = true ->
  let b := retryTimes_of RetryTimes c in
  let t := Relay RetryTimes RI RT policy c in
  let location := (URL_Path c ++ "?retry=" ++ FormatInt (b - 1))%string in
  (URL_Query c !! "retry"%string = None -> b = RetryTimes)
  /\ (0 < b ->
      answers t = [EvRedirect 307 location]
      /\ (forall c', follows location c' -> retryTimes_of RetryTimes c' = b - 1)
      /\ 0 <= b - 1 < b)
  /\ (b <= 0 ->
      exists e, answers t = [EvJSON (StatusCode err) e]).
Proof.
  intros HR Hfail Hplain. cbv zeta. rewrite (answers_Relay_failed _ _ _ _ _ _ Hfail).
  pose proof (retryTimes_of_range RetryTimes HR c) as Hb.
  split; [apply retryTimes_of_absent|].
  split.
  - intros Hpos. rewrite answers_on_error. cbv zeta.
    replace (0 <? retryTimes_of RetryTimes c) with true by (symmetry; by apply Z.ltb_lt).
    unfold MinInt64, MaxInt64 in Hb.
    rewrite wrap64_id by (unfold MinInt64, MaxInt64; lia).
    split; [done|].
    split; [|lia].
    intros c'. apply retryTimes_of_follows; [done|]. unfold MaxInt64. lia.
  - intros Hz. rewrite answers_on_error. cbv zeta.
    replace (0 <? retryTimes_of RetryTimes c) with false
      by (symmetry; by apply Z.ltb_ge).
    eexists. f_equal. f_equal. unfold err_after_branch.
    replace (0 <? retryTimes_of RetryTimes c) with false
      by (symmetry; by apply Z.ltb_ge).
    by destruct (_ =? _).
Qed.

Lemma budget_handed_on_behind_plain_path_witness :
  let c := Examples.chat_request "2" in
  retryTimes_of 0 c = 2
  /\ answers (Examples.run_relay Examples.rate_limited c)
     = [EvRedirect 307 "/v1/chat/completions?retry=1"]
  /\ (forall c', follows "/v1/chat/completions?retry=1" c' -> retryTimes_of 0 c' = 1).
Proof.
  cbv zeta.
  destruct (budget_handed_on_behind_plain_path 0
              (Examples.always_fails Examples.rate_limited)
              (Examples.always_fails Examples.rate_limited)
              Examples.disable_on_insufficient_quota
              (Examples.chat_request "2") Examples.rate_limited)
    as (_ & H & _).
  { unfold MinInt64, MaxInt64. lia. }
  { reflexivity. }
  { reflexivity. }
  assert (E : retryTimes_of 0 (Examples.chat_request "2") = 2) by (vm_compute; reflexivity).
  rewrite E in H. destruct (H ltac:(lia)) as (H1 & H2 & _).
  split; [exact E|]. split; [exact H1 | exact H2].
Defined.
Lemma err_after_branch_retry (b : Z) (err : OpenAIErrorWithStatusCode) :
  0 < b -> err_after_branch b err = err.
Proof.
  intros H. unfold err_after_branch.
  by replace (0 <? b) with true by (symmetry; by apply Z.ltb_lt).
Qed.

Lemma err_after_branch_terminal (b : Z) (err : OpenAIErrorWithStatusCode) :
  b <= 0 ->
  err_after_branch b err =
  {| Error := {| Message := if StatusCode err =? 429 then saturated_message
                            else Message (Error err);
                 Type_ := Type_ (Error err);
                 Param := Param (Error err);
                 Code := Code (Error err) |};
     StatusCode := StatusCode err |}.
Proof.
  intros H. unfold err_after_branch, StatusTooManyRequests.
  replace (0 <? b) with false by (symmetry; by apply Z.ltb_ge).
  destruct (StatusCode err =? 429); [done|].
  by destruct err as [[] ?].
Qed.

(** C8. On a terminal failure (no retry budget left) the client gets
    exactly one answer, the JSON envelope of the error with the status of
    the error; its message is the load-saturated message when that status
    is 429 and the message of the error in every other case, and type,
    param and code are those of the error.  An attempt that is retried
    leaves the error as it is. *)
Theorem terminal_envelope (RetryTimes : Z)
    (RI RT : Context -> RelayMode -> option OpenAIErrorWithStatusCode)
    (policy : OpenAIError -> bool)
    (c : Context) (err : OpenAIErrorWithStatusCode) :
  attempt_fails RI RT c err ->
  retryTimes_of RetryTimes c <= 0 ->
  answers (Relay RetryTimes RI RT policy c) =
    [EvJSON (StatusCode err)
       {| Message := if StatusCode err =? 429 then saturated_message
                     else Message (Error err);
          Type_ := Type_ (Error err);
          Param := Param (Error err);
          Code := Code (Error err) |}]
  /\ (forall b, 0 < b -> err_after_branch b err = err).
Proof.
  intros Hfail H. split; [|intros b; apply err_after_branch_retry].
  rewrite (answers_Relay_failed _ _ _ _ _ _ Hfail), answers_on_error. cbv zeta.
  replace (0 <? retryTimes_of RetryTimes c) with false by (symmetry; by apply Z.ltb_ge).
  by rewrite err_after_branch_terminal.
Qed.

Lemma terminal_envelope_witness :
  answers (Examples.run_relay Examples.rate_limited (Examples.chat_request "0")) =
    [EvJSON 429
       {| Message := saturated_message;
          Type_ := "requests";
          Param := EmptyString;
          Code := CodeString "rate_limit_exceeded" |}].
Proof.
  apply (terminal_envelope 0 (Examples.always_fails Examples.rate_limited)
           (Examples.always_fails Examples.rate_limited)
           Examples.disable_on_insufficient_quota
           (Examples.chat_request "0") Examples.rate_limited).
  - reflexivity.
  - assert (E : retryTimes_of 0 (Examples.chat_request "0") = 0) by (vm_compute; reflexivity).
    rewrite E. lia.
Defined.

(** Disabling a channel twice leaves the store as disabling it once. *)
Lemma disableChannel_idempotent (channelId : Z) (store : gset Z) :
  disableChannel channelId (disableChannel channelId store)
  = disableChannel channelId store.
Proof. unfold disableChannel. by rewrite (assoc_L (∪)), union_idemp_L. Qed.

(** C5, as stated, fails: an attempt that is retried (budget 1, answered
    by a redirect) whose error matches the policy calls [disableChannel]. *)
Lemma disable_on_retried_attempt :
  let c := Examples.chat_request "1" in
  let t := Examples.run_relay Examples.quota_exhausted c in
  retryTimes_of 0 c = 1
  /\ answers t = [EvRedirect 307 "/v1/chat/completions?retry=0"]
  /\ disablements t = [(7, "primary"%string, "You exceeded your current quota"%string)].
Proof. vm_compute. repeat split; reflexivity. Qed.

(** C5, amended. On every failed attempt, retried or terminal,
    [disableChannel] is called once when the error, as it stands after the
    branch on the budget, matches the policy, and not at all otherwise; on
    a retried attempt that error is the error of the pipeline.  Disabling
    a channel again does not change the channel store, so the
    disablements of an attempt, repeated, leave the store as it was
    after the first time. *)
Theorem disable_iff_policy (RetryTimes : Z)
    (RI RT : Context -> RelayMode -> option OpenAIErrorWithStatusCode)
    (policy : OpenAIError -> bool)
    (c : Context) (err : OpenAIErrorWithStatusCode) :
  attempt_fails RI RT c err ->
  let b := retryTimes_of RetryTimes c in
  let e := Error (err_after_branch b err) in
  let t := Relay RetryTimes RI RT policy c in
  disablements t
  = (if policy e
     then [(GetInt c "channel_id", GetString c "channel_name", Message e)]
     else [])
  /\ (0 < b -> e = Error err)
  /\ (forall channelId store,
        disableChannel channelId (disableChannel channelId store)
        = disableChannel channelId store)
  /\ (forall store, store_after t (store_after t store) = store_after t store).
Proof.
  intros Hfail. cbv zeta.
  pose proof (disablements_Relay_failed RetryTimes policy _ _ _ _ Hfail) as ->.
  split; [apply disablements_on_error|].
  split; [intros H; by rewrite err_after_branch_retry|].
  split; [apply disableChannel_idempotent|].
  intros store. unfold store_after.
  rewrite (disablements_Relay_failed RetryTimes policy _ _ _ _ Hfail).
  rewrite disablements_on_error. cbv zeta.
  destruct (policy _); [|done]. cbn. apply disableChannel_idempotent.
Qed.

Lemma disable_iff_policy_witness :
  disablements (Examples.run_relay Examples.quota_exhausted (Examples.chat_request "0"))
  = [(7, "primary"%string, "You exceeded your current quota"%string)]
  /\ disablements (Examples.run_relay Examples.rate_limited (Examples.chat_request "0"))
     = [].
Proof.
  split.
  - exact (proj1 (disable_iff_policy 0 (Examples.always_fails Examples.quota_exhausted)
                    (Examples.always_fails Examples.quota_exhausted)
                    Examples.disable_on_insufficient_quota
                    (Examples.chat_request "0") Examples.quota_exhausted eq_refl)).
  - exact (proj1 (disable_iff_policy 0 (Examples.always_fails Examples.rate_limited)
                    (Examples.always_fails Examples.rate_limited)
                    Examples.disable_on_insufficient_quota
                    (Examples.chat_request "0") Examples.rate_limited eq_refl)).
Defined.

(** ** A request whose every attempt fails *)

Section Exhaustion.
Variable RetryTimes : Z.
Variable RI RT : Context -> RelayMode -> option OpenAIErrorWithStatusCode.
Variable policy : OpenAIError -> bool.
Hypothesis RetryTimes_int : MinInt64 <= RetryTimes <= MaxInt64.
Hypothesis RI_fails : forall c m, RI c m <> None.
Hypothesis RT_fails : forall c m, RT c m <> None.

Lemma answers_failing_Relay (c : Context) :
  let b := retryTimes_of RetryTimes c in
  if 0 <? b then
    answers (Relay RetryTimes RI RT policy c)
    = [EvRedirect 307 (URL_Path c ++ "?retry=" ++ FormatInt (b - 1))%string]
  else
    exists code e, answers (Relay RetryTimes RI RT policy c) = [EvJSON code e].
Proof.
  cbv zeta. rewrite Relay_unfold. cbv zeta.
  destruct ((dispatch RI RT c (relayMode_of_path (URL_Path c))).2) as [e|] eqn:E.
  - replace (answers (pipeline_call (relayMode_of_path (URL_Path c))
                        :: on_error RetryTimes policy c e))
      with (answers (on_error RetryTimes policy c e))
      by (by destruct (relayMode_of_path (URL_Path c))).
    rewrite answers_on_error. cbv zeta.
    pose proof (retryTimes_of_range RetryTimes RetryTimes_int c) as Hb.
    destruct (Z.ltb_spec 0 (retryTimes_of RetryTimes c)); [|by eauto].
    rewrite wrap64_id; [done|]. unfold MinInt64, MaxInt64 in *. lia.
  - rewrite dispatch_result in E.
    destruct (relayMode_of_path (URL_Path c)); first [by apply RI_fails in E | by apply RT_fails in E].
Qed.

Lemma chain_budgets (cs : list Context) :
  redirect_chain RetryTimes RI RT policy cs ->
  Forall (fun c => plain_path (URL_Path c) = true) cs ->
  forall c0, head cs = Some c0 ->
  forall (i : nat) (c : Context), cs !! i = Some c ->
    retryTimes_of RetryTimes c = retryTimes_of RetryTimes c0 - Z.of_nat i
    /\ ((S i < length cs)%nat -> 0 < retryTimes_of RetryTimes c).
Proof.
  induction 1 as [c|c c' rest code location Hans Hfol Hchain IH];
    intros Hplain c0 [= <-] i x Hi.
  - destruct i as [|i]; [|done]. injection Hi as <-.
    split; [lia|]. cbn. lia.
  - apply Forall_cons in Hplain as [Hp Hplain].
    pose proof (answers_failing_Relay c) as HA. cbv zeta in HA.
    pose proof (retryTimes_of_range RetryTimes RetryTimes_int c) as Hb.
    destruct (Z.ltb_spec 0 (retryTimes_of RetryTimes c)) as [Hpos|Hle];
      [|by destruct HA as (? & ? & HA); rewrite HA in Hans].
    rewrite HA in Hans. injection Hans as <- <-.
    assert (Hc' : retryTimes_of RetryTimes c' = retryTimes_of RetryTimes c - 1).
    { apply (retryTimes_of_follows RetryTimes _ _ _ Hp); [|done].
      unfold MaxInt64 in *. lia. }
    destruct i as [|i].
    + injection Hi as <-. split; [lia|done].
    + destruct (IH Hplain c' eq_refl i x Hi) as [E Hlt].
      split; [lia|]. intros Hlen. apply Hlt. cbn in *. lia.
Qed.

(** X4. The chain of attempts ends.  With every attempt failing, take
    the requests one client sends in a row, each following the redirect
    that answered the one before, all on paths that hold neither [?] nor
    [#], the first with budget [b].  The budget goes down by one from
    request to request, so that there are no more than [b + 1] of them
    (one, when [b] is below 0); a request with a budget above 0 is
    answered by a redirect of status 307, and the last of [b + 1]
    requests by the error envelope. *)
Theorem failing_request_exhausts_budget (cs : list Context) (c0 : Context) :
  redirect_chain RetryTimes RI RT policy cs ->
  Forall (fun c => plain_path (URL_Path c) = true) cs ->
  head cs = Some c0 ->
  let b := retryTimes_of RetryTimes c0 in
  (forall (i : nat) (c : Context),
     cs !! i = Some c -> retryTimes_of RetryTimes c = b - Z.of_nat i)
  /\ Z.of_nat (length cs) <= Z.max b 0 + 1
  /\ (forall c, c ∈ cs ->
        if 0 <? retryTimes_of RetryTimes c then
          exists location,
            answers (Relay RetryTimes RI RT policy c) = [EvRedirect 307 location]
        else
          exists code e,
            answers (Relay RetryTimes RI RT policy c) = [EvJSON code e]
            /\ last cs = Some c
            /\ Z.of_nat (length cs) = Z.max b 0 + 1).
Proof.
  intros Hchain Hplain Hhead. cbv zeta.
  pose proof (chain_budgets cs Hchain Hplain c0 Hhead) as Hb.
  assert (Hlen : Z.of_nat (length cs) <= Z.max (retryTimes_of RetryTimes c0) 0 + 1).
  { destruct cs as [|c1 [|c2 rest]]; [done|cbn; lia|].
    destruct (lookup_lt_is_Some_2 (c1 :: c2 :: rest) (length rest)) as [x Hx];
      [cbn; lia|].
    destruct (Hb _ _ Hx) as [E Hpos]. specialize (Hpos ltac:(cbn; lia)).
    cbn [length]. lia. }
  split; [intros i c Hi; by apply Hb|]. split; [done|].
  intros c Hc. apply list_elem_of_lookup in Hc as [i Hi].
  destruct (Hb _ _ Hi) as [E Hpos].
  pose proof (answers_failing_Relay c) as HA. cbv zeta in HA.
  destruct (Z.ltb_spec 0 (retryTimes_of RetryTimes c)) as [Hp|Hle]; [by eauto|].
  destruct HA as (code & e & HA). exists code, e. split; [done|].
  assert (Hi' : i = pred (length cs)).
  { apply lookup_lt_Some in Hi as Hlt.
    destruct (decide (S i < length cs)%nat) as [Hs|]; [|lia].
    specialize (Hpos Hs). lia. }
  split.
  - by rewrite last_lookup, <- Hi'.
  - apply lookup_lt_Some in Hi. lia.
Qed.

End Exhaustion.

(** The end-to-end example of the specification: a request to
    [/v1/chat/completions] whose every attempt ends rate-limited, with a
    default budget of 2, is redirected twice and then answered by one
    envelope of status 429 with the load-saturated message. *)
Example no_channel_available :
  let relay := Relay 2 (Examples.always_fails Examples.rate_limited)
                 (Examples.always_fails Examples.rate_limited)
                 Examples.disable_on_insufficient_quota in
  let requests := [Examples.chat_request_plain; Examples.chat_request "1";
                   Examples.chat_request "0"] in
  redirect_chain 2 (Examples.always_fails Examples.rate_limited)
    (Examples.always_fails Examples.rate_limited)
    Examples.disable_on_insufficient_quota requests
  /\ map (fun c => answers (relay c)) requests
     = [ [EvRedirect 307 "/v1/chat/completions?retry=1"];
         [EvRedirect 307 "/v1/chat/completions?retry=0"];
         [EvJSON 429 {| Message := saturated_message;
                        Type_ := "requests";
                        Param := EmptyString;
                        Code := CodeString "rate_limit_exceeded" |}] ].
Proof.
  cbv zeta. split; [|by vm_compute].
  eapply chain_next; [by vm_compute| |].
  { exact (eq_sym (ParseQuery_retry "1" eq_refl)). }
  eapply chain_next; [by vm_compute| |apply chain_first].
  exact (eq_sym (ParseQuery_retry "0" eq_refl)).
Defined.

Lemma failing_request_exhausts_budget_witness :
  let requests := [Examples.chat_request_plain; Examples.chat_request "1";
                   Examples.chat_request "0"] in
  Z.of_nat (length requests) <= 3
  /\ retryTimes_of 2 (Examples.chat_request "0") = 0.
Proof.
  cbv zeta.
  destruct (failing_request_exhausts_budget 2
              (Examples.always_fails Examples.rate_limited)
              (Examples.always_fails Examples.rate_limited)
              Examples.disable_on_insufficient_quota
              ltac:(unfold MinInt64, MaxInt64; lia)
              ltac:(discriminate) ltac:(discriminate)
              [Examples.chat_request_plain; Examples.chat_request "1";
               Examples.chat_request "0"]
              Examples.chat_request_plain
              (proj1 no_channel_available)
              ltac:(by repeat constructor) eq_refl)
    as (B & L & _).
  split; [exact L|]. exact (B 2%nat (Examples.chat_request "0") eq_refl).
Defined.

End RelayFacts.

(* ===================================================================== *)
(** * Facts about float64                                                *)
(* ===================================================================== *)

Module Float64Facts.
Import GoLib Float64.

Lemma wrap64_range (z : Z) : MinInt64 <= wrap64 z <= MaxInt64.
Proof.
  unfold wrap64, MinInt64, MaxInt64.
  pose proof (Z.mod_pos_bound (z + 2 ^ 63) (2 ^ 64) ltac:(lia)). lia.
Qed.

Lemma Zpos_pow2 (p : positive) : Zpos (2 ^ p)%positive = 2 ^ Zpos p.
Proof. by rewrite Pos2Z.inj_pow. Qed.

(** The integer part of a number that is not negative is the floor of its
    value. *)
Lemma trunc_nonneg_floor (f : float64) (z : Z) :
  match f with S754_finite true _ _ => False | _ => True end ->
  trunc f = Some z -> z = Qfloor (to_Q f) /\ 0 <= z.
Proof.
  destruct f as [s|s| |s m e]; simpl; try discriminate.
  - intros _ [= <-]. by vm_compute.
  - destruct s; [done|]. intros _ [= <-]. cbn [cond_Zopp].
    destruct e as [|p|p].
    + rewrite Qfloor_Z. lia.
    + rewrite Qfloor_Z. lia.
    + unfold Qfloor. rewrite Zpos_pow2. split; [done|].
      apply Z.div_pos; lia.
Qed.

(** [trunc] discards the fraction towards zero: it is the floor of a
    value that is not negative and the ceiling of a negative one. *)
Lemma trunc_toward_zero (f : float64) (z : Z) :
  trunc f = Some z ->
  z = if Qle_bool 0 (to_Q f) then Qfloor (to_Q f) else Qceiling (to_Q f).
Proof.
  destruct f as [s|s| |s m e]; cbn [trunc to_Q]; try discriminate.
  - by intros [= <-].
  - intros [= <-]. cbv zeta. destruct e as [|p|p].
    + destruct (Qle_bool _ _); rewrite ?Qfloor_Z, ?Qceiling_Z;
        destruct s; cbn [cond_Zopp]; ring.
    + destruct (Qle_bool _ _); rewrite ?Qfloor_Z, ?Qceiling_Z;
        destruct s; cbn [cond_Zopp]; ring.
    + destruct s; cbn [cond_Zopp].
      * replace (Qle_bool 0 (- Z.pos m # 2 ^ p)) with false by done.
        unfold Qceiling, Qfloor, Qopp. cbn [Qnum Qden Z.opp].
        by rewrite Zpos_pow2.
      * replace (Qle_bool 0 (Z.pos m # 2 ^ p)) with true by done.
        unfold Qfloor. by rewrite Zpos_pow2.
Qed.

Lemma nonneg_not_negative (f : float64) : nonneg f = true -> not_negative f.
Proof. destruct f as [s|[]| |[] m e]; simpl; done. Qed.

Lemma binary_round_aux_not_negative (mx ex : Z) (lx : location) :
  not_negative (binary_round_aux prec emax false mx ex lx).
Proof.
  unfold binary_round_aux.
  destruct (shr_fexp _ _ _ _ _) as [mrs' e'].
  destruct (shr_fexp _ _ _ _ _) as [mrs'' e''].
  destruct (shr_m mrs''); [done| |done].
  by destruct (_ <=? _).
Qed.

Lemma mul_not_negative (x y : float64) :
  not_negative x -> not_negative y -> not_negative (mul x y).
Proof.
  destruct x as [sx|sx| |sx mx ex], y as [sy|sy| |sy my ey]; simpl;
    intros Hx Hy; subst; try done.
  apply binary_round_aux_not_negative.
Qed.

Lemma div_lit_60_not_negative (x : float64) :
  not_negative x -> not_negative (div x lit_60).
Proof.
  destruct x as [sx|sx| |sx mx ex]; simpl; intros Hx; subst; try done.
  unfold div, SFdiv, lit_60.
  destruct (SFdiv_core_binary _ _ _ _ _ _) as [[mz ez] lz].
  apply binary_round_aux_not_negative.
Qed.

(** ** Conversions of integers below [2^53] are exact *)

Lemma digits2_pos_bounds (p : positive) :
  2 ^ (Zpos (digits2_pos p) - 1) <= Zpos p < 2 ^ Zpos (digits2_pos p).
Proof.
  induction p as [p IH|p IH|]; cbn [digits2_pos]; [| |by vm_compute];
    rewrite Pos2Z.inj_succ;
    replace (Z.succ (Z.pos (digits2_pos p)) - 1) with (Z.succ (Zpos (digits2_pos p) - 1)) by lia;
    rewrite !Z.pow_succ_r by lia; lia.
Qed.

Lemma digits2_pos_le_53 (p : positive) :
  Zpos p < 2 ^ 53 -> Zpos (digits2_pos p) <= 53.
Proof.
  intros H. pose proof (digits2_pos_bounds p) as [Hlo _].
  destruct (Z.le_gt_cases (Zpos (digits2_pos p)) 53) as [|Hgt]; [done|].
  assert (2 ^ 53 <= 2 ^ (Zpos (digits2_pos p) - 1)) by (apply Z.pow_le_mono_r; lia).
  lia.
Qed.

Lemma iter_xO_value (p k : positive) :
  Zpos (Pos.iter xO p k) = Zpos p * 2 ^ Zpos k
  /\ digits2_pos (Pos.iter xO p k) = (digits2_pos p + k)%positive.
Proof.
  apply (Pos.iter_ind _ xO p
           (fun k q => Zpos q = Zpos p * 2 ^ Zpos k
                       /\ digits2_pos q = (digits2_pos p + k)%positive)).
  - split; [by rewrite Pos2Z.inj_xO; lia | cbn [digits2_pos]; lia].
  - intros k' q [E1 E2]. split.
    + rewrite Pos2Z.inj_xO, E1, Pos2Z.inj_succ, Z.pow_succ_r by lia. lia.
    + cbn [digits2_pos]. rewrite E2. lia.
Qed.

(** A mantissa of 53 digits with an exponent in range is a number as it
    stands: rounding changes nothing. *)
Lemma binary_round_aux_canonical (m : positive) (e : Z) :
  Zpos (digits2_pos m) = 53 -> -1074 <= e <= 971 ->
  binary_round_aux prec emax false (Zpos m) e loc_Exact = S754_finite false m e.
Proof.
  intros Hd He.
  assert (Hs : forall l, shr_fexp prec emax (Zpos m) e l
                         = (shr_record_of_loc (Zpos m) l, e)).
  { intros l. unfold shr_fexp, fexp, emin, Zdigits2, prec, emax. rewrite Hd.
    replace (Z.max (53 + e - 53) (3 - 1024 - 53) - e) with 0 by lia. done. }
  unfold binary_round_aux. rewrite Hs. cbn [shr_record_of_loc shr_m loc_of_shr_record
    round_nearest_even]. rewrite Hs. cbn [shr_record_of_loc shr_m].
  unfold emax, prec.
  by replace (e <=? 1024 - 53) with true by (symmetry; apply Z.leb_le; lia).
Qed.

Lemma of_int_pos (p : positive) :
  Zpos p < 2 ^ 53 ->
  exists m e, of_int (Zpos p) = S754_finite false m e
              /\ (to_Q (S754_finite false m e) == inject_Z (Zpos p))%Q.
Proof.
  intros Hp. pose proof (digits2_pos_le_53 p Hp) as Hd.
  unfold of_int, binary_normalize, binary_round, shl_align, fexp, emin, prec, emax.
  replace (Z.max (Z.pos (digits2_pos p) + 0 - 53) (3 - 1024 - 53))
    with (Z.pos (digits2_pos p) - 53) by lia.
  destruct (Z.pos (digits2_pos p) - 53 - 0) as [|k|k] eqn:Ek; [|lia|].
  - exists p, 0. split.
    + apply binary_round_aux_canonical; lia.
    + cbn [to_Q cond_Zopp]. by rewrite Z.pow_0_r, Z.mul_1_r.
  - destruct (iter_xO_value p k) as [Ev Edig].
    exists (Pos.iter xO p k), (Z.pos (digits2_pos p) - 53). split.
    + apply binary_round_aux_canonical; [rewrite Edig|]; lia.
    + replace (Z.pos (digits2_pos p) - 53) with (Zneg k) by lia.
      cbn [to_Q cond_Zopp]. unfold Qeq. cbn [Qnum Qden inject_Z].
      rewrite Ev, Zpos_pow2. lia.
Qed.

(** [float64(n)] is [n] for a natural number below [2^53], so for every
    [uint32]. *)
Lemma of_int_exact (n : Z) :
  0 <= n < 2 ^ 53 -> (to_Q (of_int n) == inject_Z n)%Q /\ is_finite (of_int n) = true.
Proof.
  intros Hn. destruct n as [|p|p]; [done| |lia].
  destruct (of_int_pos p ltac:(lia)) as (m & e & -> & E). done.
Qed.


(** ** Division rounds to nearest *)

Lemma digits2_pos_unique (p : positive) (d : Z) :
  2 ^ (d - 1) <= Zpos p < 2 ^ d -> Zpos (digits2_pos p) = d.
Proof.
  intros [Hlo Hhi]. pose proof (digits2_pos_bounds p) as [Hlo' Hhi'].
  assert (0 < d).
  { destruct (Z.lt_ge_cases 0 d) as [|Hd]; [done|].
    destruct (Z.eq_dec d 0) as [->|]; [simpl in Hhi; lia|].
    rewrite Z.pow_neg_r in Hhi by lia. lia. }
  destruct (Z.lt_trichotomy (Zpos (digits2_pos p)) d) as [Hlt|[|Hgt]]; [|done|].
  - assert (2 ^ Zpos (digits2_pos p) <= 2 ^ (d - 1)) by (apply Z.pow_le_mono_r; lia). lia.
  - assert (2 ^ d <= 2 ^ (Zpos (digits2_pos p) - 1)) by (apply Z.pow_le_mono_r; lia). lia.
Qed.

Lemma shr_fexp_53 (m : positive) (e : Z) (l : location) :
  Zpos (digits2_pos m) = 53 -> -1074 <= e ->
  shr_fexp prec emax (Zpos m) e l = (shr_record_of_loc (Zpos m) l, e).
Proof.
  intros Hd He. unfold shr_fexp, fexp, emin, Zdigits2, prec, emax. rewrite Hd.
  by replace (Z.max (53 + e - 53) (3 - 1024 - 53) - e) with 0 by lia.
Qed.

Lemma shr_fexp_54 (m : positive) (e : Z) (l : location) :
  Zpos (digits2_pos m) = 54 -> -1074 <= e ->
  shr_fexp prec emax (Zpos m) e l = (shr_1 (shr_record_of_loc (Zpos m) l), e + 1).
Proof.
  intros Hd He. unfold shr_fexp, fexp, emin, Zdigits2, prec, emax. rewrite Hd.
  by replace (Z.max (54 + e - 53) (3 - 1024 - 53) - e) with 1 by lia.
Qed.

Lemma loc_of_shr_record_of_loc (m : Z) (l : location) :
  loc_of_shr_record (shr_record_of_loc m l) = l.
Proof. by destruct l as [|[]]. Qed.

Lemma shr_record_of_loc_of_shr_record (x : shr_record) :
  shr_record_of_loc (shr_m x) (loc_of_shr_record x) = x.
Proof. by destruct x as [m [] []]. Qed.

(** Rounding a mantissa of 53 digits: the result has the value of the
    rounded mantissa, at the same exponent or, after a carry, the next. *)
Lemma binary_round_aux_53 (q : positive) (e : Z) (l : location) :
  Zpos (digits2_pos q) = 53 -> -1074 <= e <= 969 ->
  exists m' e',
    binary_round_aux prec emax false (Zpos q) e l = S754_finite false m' e'
    /\ e <= e' <= e + 1
    /\ Zpos m' * 2 ^ (e' - e) = round_nearest_even (Zpos q) l.
Proof.
  intros Hd He. unfold binary_round_aux.
  rewrite shr_fexp_53 by (done || lia).
  rewrite loc_of_shr_record_of_loc.
  replace (shr_m (shr_record_of_loc (Zpos q) l)) with (Zpos q) by (by destruct l as [|[]]).
  pose proof (digits2_pos_bounds q) as Hq. rewrite Hd in Hq. 
  assert (Hr : round_nearest_even (Zpos q) l = Zpos q
               \/ round_nearest_even (Zpos q) l = Zpos (q + 1)).
  { destruct l as [|[]]; cbn [round_nearest_even]; auto. destruct (Z.even _); auto. }
  assert (Hsame : forall p : positive, 2 ^ 52 <= Zpos p <= 2 ^ 53 ->
            exists m' e',
              (let '(mrs'', e'') := shr_fexp prec emax (Zpos p) e loc_Exact in
               match shr_m mrs'' with
               | 0 => S754_zero false
               | Z.pos m => if e'' <=? emax - prec then S754_finite false m e''
                            else S754_infinity false
               | Z.neg _ => S754_nan
               end) = S754_finite false m' e'
              /\ e <= e' <= e + 1 /\ Zpos m' * 2 ^ (e' - e) = Zpos p).
  { intros p Hp. destruct (Z.eq_dec (Zpos p) (2 ^ 53)) as [E|NE].
    - assert (p = (2 ^ 53)%positive) as -> by lia.
      rewrite shr_fexp_54 by (done || lia). cbn [shr_record_of_loc shr_1 shr_m].
      unfold emax, prec.
      replace (e + 1 <=? 1024 - 53) with true by (symmetry; apply Z.leb_le; lia).
      eexists _, _. split; [reflexivity|]. split; [lia|].
      replace (e + 1 - e) with 1 by lia. done.
    - rewrite shr_fexp_53 by (try lia; apply digits2_pos_unique; lia).
      cbn [shr_record_of_loc shr_m]. unfold emax, prec.
      replace (e <=? 1024 - 53) with true by (symmetry; apply Z.leb_le; lia).
      eexists _, _. split; [reflexivity|]. split; [lia|].
      rewrite Z.sub_diag. lia. }
  destruct Hr as [-> | ->]; apply Hsame; lia.
Qed.

(** A mantissa of 54 digits loses its last bit to the rounding position
    first. *)
Lemma binary_round_aux_54 (q : positive) (e : Z) (l : location) :
  Zpos (digits2_pos q) = 54 -> -1074 <= e <= 968 ->
  exists p : positive,
    Zpos q = 2 * Zpos p + (if Z.even (Zpos q) then 0 else 1)
    /\ Zpos (digits2_pos p) = 53
    /\ binary_round_aux prec emax false (Zpos q) e l
       = binary_round_aux prec emax false (Zpos p) (e + 1)
           (shift_location (Z.even (Zpos q)) l).
Proof.
  intros Hd He.
  assert (exists p, Zpos q = 2 * Zpos p + (if Z.even (Zpos q) then 0 else 1)
                    /\ shr_1 (shr_record_of_loc (Zpos q) l)
                       = shr_record_of_loc (Zpos p)
                           (shift_location (Z.even (Zpos q)) l))
    as (p & Hq & Hrec).
  { destruct q as [p|p|]; [exists p|exists p|by vm_compute in Hd];
      (split; [done|]); by destruct l as [|[]]. }
  exists p.
  assert (Hp : Zpos (digits2_pos p) = 53).
  { pose proof (digits2_pos_bounds q) as Hb. rewrite Hd in Hb.
    apply digits2_pos_unique. destruct (Z.even (Zpos q)); lia. }
  split; [done|]. split; [done|].
  unfold binary_round_aux.
  rewrite shr_fexp_54 by (done || lia).
  rewrite (shr_fexp_53 p) by (done || lia).
  by rewrite Hrec.
Qed.

(** The location of the remainder [r] of a division by an even [Y]. *)
Lemma new_location_even_cases (Y r : Z) :
  0 <= r < Y ->
  match new_location_even Y r with
  | loc_Exact => r = 0
  | loc_Inexact Lt => 0 < r /\ 2 * r < Y
  | loc_Inexact Eq => 0 < r /\ 2 * r = Y
  | loc_Inexact Gt => 0 < r /\ 2 * r > Y
  end.
Proof.
  intros Hr. unfold new_location_even.
  destruct (Z.eqb_spec r 0) as [->|Hne]; [done|].
  destruct (Z.compare_spec (2 * r) Y); lia.
Qed.

(** The rounded quotient is within half a unit of the quotient, a unit
    being the weight of the last of 53 digits. *)
Lemma rounded_quotient_close (N Y q r : Z) (qp : positive) (e : Z) :
  0 < Y -> Z.even Y = true ->
  N = Y * q + r -> 0 <= r < Y -> q = Zpos qp ->
  2 ^ 52 <= q < 2 ^ 54 -> -1074 <= e <= 968 ->
  exists m' e',
    binary_round_aux prec emax false q e (new_location Y r) = S754_finite false m' e'
    /\ e <= e' <= e + 2
    /\ Z.abs (Zpos m' * 2 ^ (e' - e) * Y - N) * 2 ^ 53 <= N.
Proof.
  intros HY Heven HN Hr -> Hq He.
  unfold new_location. rewrite Heven.
  pose proof (new_location_even_cases Y r Hr) as Hloc.
  destruct (Z.lt_ge_cases (Zpos qp) (2 ^ 53)) as [Hlt|Hge].
  - (* 53 digits *)
    destruct (binary_round_aux_53 qp e (new_location_even Y r))
      as (m' & e' & -> & He' & Hv); [apply digits2_pos_unique; lia|lia|].
    exists m', e'. split; [done|]. split; [lia|]. rewrite Hv.
    assert (Y * 2 ^ 52 <= Y * Zpos qp) by (apply Z.mul_le_mono_nonneg_l; lia).
    destruct (new_location_even Y r) as [|[]]; cbn [round_nearest_even];
      [|destruct (Z.even (Zpos qp))| |].
    all: lia.
  - (* 54 digits *)
    destruct (binary_round_aux_54 qp e (new_location_even Y r))
      as (p & Hqp & Hp & ->); [apply digits2_pos_unique; lia|lia|].
    destruct (binary_round_aux_53 p (e + 1)
                (shift_location (Z.even (Zpos qp)) (new_location_even Y r)))
      as (m' & e' & -> & He' & Hv); [done|lia|].
    exists m', e'. split; [done|]. split; [lia|].
    replace (e' - e) with (1 + (e' - (e + 1))) by lia.
    rewrite Z.pow_add_r by lia. 
    replace (Zpos m' * (2 ^ 1 * 2 ^ (e' - (e + 1))))
      with (2 * (Zpos m' * 2 ^ (e' - (e + 1)))) by ring.
    rewrite Hv. clear Hv.
    assert (Y * 2 ^ 53 <= Y * Zpos qp) by (apply Z.mul_le_mono_nonneg_l; lia).
    destruct (new_location_even Y r) as [|[]], (Z.even (Zpos qp)) eqn:Eq;
      cbn [shift_location round_nearest_even]; try destruct (Z.even (Zpos p));
      rewrite Hqp in *.
    all: lia.
Qed.

(** [float64(n)] for a positive [n] below [2^53]: a mantissa of 53
    digits, [n] shifted left to fill them. *)
Lemma of_int_normal (p : positive) :
  Zpos p < 2 ^ 53 ->
  exists (m : positive) (k : Z),
    of_int (Zpos p) = S754_finite false m (- k)
    /\ k = 53 - Zpos (digits2_pos p)
    /\ Zpos (digits2_pos m) = 53
    /\ Zpos m = Zpos p * 2 ^ k.
Proof.
  intros Hp. pose proof (digits2_pos_le_53 p Hp) as Hd.
  unfold of_int, binary_normalize, binary_round, shl_align, fexp, emin, prec, emax.
  replace (Z.max (Z.pos (digits2_pos p) + 0 - 53) (3 - 1024 - 53))
    with (Z.pos (digits2_pos p) - 53) by lia.
  destruct (Z.pos (digits2_pos p) - 53 - 0) as [|k|k] eqn:Ek; [|lia|].
  - exists p, 0. split; [apply binary_round_aux_canonical; lia|].
    split; [lia|]. split; [lia|]. rewrite Z.pow_0_r. lia.
  - destruct (iter_xO_value p k) as [Ev Edig].
    exists (Pos.iter xO p k), (Zpos k). split.
    + replace (Z.pos (digits2_pos p) - 53) with (- Zpos k) by lia.
      apply binary_round_aux_canonical; [rewrite Edig|]; lia.
    + split; [lia|]. split; [rewrite Edig; lia | done].
Qed.

Lemma SFdiv_core_normal (mx my : positive) (ka kb : Z) :
  Zpos (digits2_pos mx) = 53 -> Zpos (digits2_pos my) = 53 ->
  0 <= ka <= 52 -> 0 <= kb <= 52 ->
  SFdiv_core_binary prec emax (Zpos mx) (- ka) (Zpos my) (- kb)
  = ((Zpos mx * 2 ^ 53) / Zpos my, kb - ka - 53,
     new_location (Zpos my) ((Zpos mx * 2 ^ 53) mod Zpos my)).
Proof.
  intros Hx Hy Hka Hkb.
  unfold SFdiv_core_binary, Zdigits2, fexp, emin, prec, emax. rewrite Hx, Hy.
  replace (Z.min (Z.max (53 + - ka - (53 + - kb) - 53) (3 - 1024 - 53))
             (- ka - - kb)) with (kb - ka - 53) by lia.
  replace (- ka - - kb - (kb - ka - 53)) with 53 by lia.
  rewrite Z.shiftl_mul_pow2 by lia.
  unfold Z.div, Z.modulo. by destruct (Z.div_eucl _ _).
Qed.

(** The float64 quotient of two positive 32-bit numbers is a positive
    number within a relative distance [2^-53] of their quotient: the
    division rounds to nearest and neither overflows nor underflows. *)
Lemma div_of_int_close (a b : Z) :
  0 < a < 2 ^ 32 -> 0 < b < 2 ^ 32 ->
  exists (m : positive) (k : Z),
    div (of_int a) (of_int b) = S754_finite false m (- k)
    /\ 20 <= k <= 84
    /\ Z.abs (Zpos m * b - a * 2 ^ k) * 2 ^ 53 <= a * 2 ^ k.
Proof.
  intros Ha Hb.
  destruct a as [|pa|pa]; [lia| |lia]. destruct b as [|pb|pb]; [lia| |lia].
  destruct (of_int_normal pa ltac:(lia)) as (mx & ka & -> & Eka & Hdx & Hx).
  destruct (of_int_normal pb ltac:(lia)) as (my & kb & -> & Ekb & Hdy & Hy).
  pose proof (digits2_pos_bounds pa) as Hba. pose proof (digits2_pos_bounds pb) as Hbb.
  assert (Hka : 21 <= ka <= 52).
  { split; [|lia]. destruct (Z.le_gt_cases (Zpos (digits2_pos pa)) 32); [lia|].
    assert (2 ^ 32 <= 2 ^ (Zpos (digits2_pos pa) - 1)) by (apply Z.pow_le_mono_r; lia). lia. }
  assert (Hkb : 21 <= kb <= 52).
  { split; [|lia]. destruct (Z.le_gt_cases (Zpos (digits2_pos pb)) 32); [lia|].
    assert (2 ^ 32 <= 2 ^ (Zpos (digits2_pos pb) - 1)) by (apply Z.pow_le_mono_r; lia). lia. }
  pose proof (digits2_pos_bounds mx) as Hbx. rewrite Hdx in Hbx.
  pose proof (digits2_pos_bounds my) as Hby. rewrite Hdy in Hby.
  change (53 - 1) with 52 in *.
  unfold div, SFdiv. rewrite SFdiv_core_normal by (done || lia). cbn [xorb].
  set (N := Zpos mx * 2 ^ 53). set (Y := Zpos my).
  assert (HqN : 2 ^ 52 <= N / Y < 2 ^ 54).
  { unfold N, Y. split.
    - apply Z.div_le_lower_bound; lia.
    - apply Z.div_lt_upper_bound; lia. }
  destruct (N / Y) as [|qp|qp] eqn:Eq; [lia| |lia].
  destruct (rounded_quotient_close N Y (Zpos qp) (N mod Y) qp (kb - ka - 53))
    as (m' & e' & -> & He' & Hclose); try done; try lia.
  { unfold Y. rewrite Hy. replace kb with (1 + (kb - 1)) by lia.
    rewrite Z.pow_add_r by lia. rewrite Z.mul_assoc, (Z.mul_comm _ (2 ^ 1)), <- Z.mul_assoc.
    by rewrite Z.even_mul. }
  { rewrite <- Eq. apply Z.div_mod. unfold Y. lia. }
  { apply Z.mod_pos_bound. unfold Y. lia. }
  exists m', (- e'). rewrite Z.opp_involutive. split; [done|]. split; [lia|].
  set (k := - e'). set (j := e' - (kb - ka - 53)) in *.
  assert (Hj : 0 <= j <= 2) by (unfold j; lia).
  assert (Ek : ka + 53 = k + (j + kb)) by (unfold k, j; lia).
  set (T := 2 ^ (j + kb)).
  assert (HT : 0 < T) by (apply Z.pow_pos_nonneg; lia).
  assert (E1 : Zpos m' * 2 ^ j * Y = Zpos m' * Zpos pb * T).
  { unfold Y, T. rewrite Hy, Z.pow_add_r by lia. ring. }
  assert (E2 : N = Zpos pa * 2 ^ k * T).
  { unfold N, T. rewrite Hx. rewrite <- !Z.mul_assoc, <- !Z.pow_add_r by (unfold k; lia).
    by rewrite Ek. }
  rewrite E1, E2 in Hclose.
  replace (Zpos m' * Zpos pb * T - Zpos pa * 2 ^ k * T)
    with ((Zpos m' * Zpos pb - Zpos pa * 2 ^ k) * T) in Hclose by ring.
  rewrite Z.abs_mul, (Z.abs_eq T) in Hclose by lia.
  apply (Z.mul_le_mono_pos_r _ _ T); [done|].
  etrans; [|exact Hclose]. apply Z.eq_le_incl. ring.
Qed.

(** The same in rationals: the float64 quotient of a 32-bit [a] by a
    positive 32-bit [b] is finite, not negative, and differs from [a / b]
    by at most [a / b * 2^-53]. *)
Lemma div_of_int_accurate (a b : Z) :
  0 <= a < 2 ^ 32 -> 0 < b < 2 ^ 32 ->
  let r := div (of_int a) (of_int b) in
  is_finite r = true
  /\ nonneg r = true
  /\ (Qabs (to_Q r - (a # Z.to_pos b)) <= (a # Z.to_pos b) * (1 # 2 ^ 53))%Q.
Proof.
  intros Ha Hb. cbv zeta.
  destruct (Z.eq_dec a 0) as [->|Hne].
  { destruct (of_int_normal (Z.to_pos b) ltac:(lia)) as (my & kb & E & _).
    rewrite Z2Pos.id in E by lia. rewrite E. by vm_compute. }
  destruct (div_of_int_close a b ltac:(lia) Hb) as (m & k & -> & Hk & Hclose).
  destruct k as [|kp|kp]; [lia| |lia].
  change (- Z.pos kp) with (Z.neg kp).
  split; [done|]. split; [done|].
  cbn [to_Q cond_Zopp].
  unfold Qle, Qabs, Qminus, Qplus, Qopp, Qmult. cbn [Qnum Qden].
  rewrite !Pos2Z.inj_mul, Zpos_pow2, Z2Pos.id by lia.
  change (Z.pos (2 ^ 53)) with (2 ^ 53).
  replace (Z.pos m * b + - a * 2 ^ Z.pos kp) with (Z.pos m * b - a * 2 ^ Z.pos kp) by ring.
  replace (Z.abs (Z.pos m * b - a * 2 ^ Z.pos kp) * (b * 2 ^ 53))
    with (Z.abs (Z.pos m * b - a * 2 ^ Z.pos kp) * 2 ^ 53 * b) by ring.
  replace (a * 1 * (2 ^ Z.pos kp * b)) with (a * 2 ^ Z.pos kp * b) by ring.
  apply Z.mul_le_mono_nonneg_r; [lia | done].
Qed.

End Float64Facts.

(* ===================================================================== *)
(** * The WAV header and the duration estimate                           *)
(* ===================================================================== *)

Module HeaderFacts.
Import GoLib Float64 Common Controller Float64Facts.

Lemma bytes_Equal_eq (a b : list byte) : bytes_Equal a b = true <-> a = b.
Proof.
  revert b. induction a as [|x a IH]; intros [|y b]; simpl; try done.
  rewrite andb_true_iff, IH. split.
  - intros [Hx ->]. by apply Byte.byte_dec_bl in Hx as ->.
  - intros [= -> ->]. split; [by apply Byte.byte_dec_lb | done].
Qed.

Lemma le_value_range (bs : list byte) :
  0 <= le_value bs < 256 ^ Z.of_nat (length bs).
Proof.
  induction bs as [|b bs IH]; [by vm_compute|].
  cbn [le_value fold_right length]. fold (le_value bs).
  rewrite Nat2Z.inj_succ, Z.pow_succ_r by lia.
  pose proof (Byte.to_N_bounded b). lia.
Qed.

Lemma cons_of_length {A} (l : list A) (n : nat) :
  (S n <= length l)%nat -> exists x l', l = x :: l' /\ (n <= length l')%nat.
Proof. destruct l as [|x l']; simpl; [lia|]. intros. exists x, l'. split; [done|lia]. Qed.

(** [binary.Read] fails exactly on a file shorter than the header. *)
Lemma binary_Read_short (file : list byte) :
  (length file < 44)%nat -> binary_Read file = None.
Proof.
  intros H. unfold binary_Read, bytes, WAVHeader_size.
  by replace (44 <=? length file)%nat with false by (symmetry; apply Nat.leb_gt; lia).
Qed.

(** On a file of 44 bytes or more, [binary.Read] fills the header from
    the fixed offsets of the layout, integers in little-endian order. *)
Lemma binary_Read_layout (file : list byte) :
  (44 <= length file)%nat ->
  binary_Read file =
  Some {| RIFF := take 4 file;
          FileSize := le_value (take 4 (drop 4 file));
          WAVE := take 4 (drop 8 file);
          FMT := take 4 (drop 12 file);
          FMTSize := le_value (take 4 (drop 16 file));
          AudioFormat := le_value (take 2 (drop 20 file));
          Channels := le_value (take 2 (drop 22 file));
          SampleRate := le_value (take 4 (drop 24 file));
          ByteRate := le_value (take 4 (drop 28 file));
          BlockAlign := le_value (take 2 (drop 32 file));
          BitsPerSample := le_value (take 2 (drop 34 file));
          Data := take 4 (drop 36 file);
          DataSize := le_value (take 4 (drop 40 file)) |}.
Proof.
  intros H.
  do 44 (apply cons_of_length in H as (? & ? & -> & H)).
  reflexivity.
Qed.

(** The literals are the numbers they denote: 16000 and 60 exactly, and
    0.006 to within half a unit in the last place ([2^-61]). *)
Lemma literals_faithful :
  lit_16000 = of_int 16000 /\ lit_60 = of_int 60
  /\ (Qabs (to_Q lit_0_006 - (6 # 1000)) <= 1 # 2 ^ 61)%Q
  /\ valid_binary prec emax lit_0_006 = true.
Proof. by vm_compute. Qed.

(** A header with the magic and a byte rate of 0 gives an estimate that
    is no number of seconds: the positive infinity, or a NaN when the
    data size is 0 as well. *)
Example zero_byte_rate :
  div (of_int 160000) (of_int 0) = S754_infinity false
  /\ div (of_int 0) (of_int 0) = S754_nan.
Proof. by vm_compute. Qed.

Lemma estimate_duration_wav (fileSize : Z) (header : WAVHeader) :
  RIFF header = list_byte_of_string "RIFF" ->
  WAVE header = list_byte_of_string "WAVE" ->
  estimate_duration fileSize header
  = div (of_int (DataSize header)) (of_int (ByteRate header)).
Proof.
  intros HR HW. unfold estimate_duration.
  apply bytes_Equal_eq in HR as ->. by apply bytes_Equal_eq in HW as ->.
Qed.

Lemma estimate_duration_fallback (fileSize : Z) (header : WAVHeader) :
  RIFF header <> list_byte_of_string "RIFF"
  \/ WAVE header <> list_byte_of_string "WAVE" ->
  estimate_duration fileSize header = div (of_int fileSize) lit_16000.
Proof.
  intros H. unfold estimate_duration.
  destruct (bytes_Equal (RIFF header) _) eqn:ER; [|done].
  destruct (bytes_Equal (WAVE header) _) eqn:EW; [|done].
  apply bytes_Equal_eq in ER, EW. tauto.
Qed.

(** C1. A payload of 44 bytes or more is read into a header whose magic,
    byte rate and data size are the bytes at offsets 0, 8, 28 and 40
    (little-endian).  With both magic values and a positive byte rate the
    estimate is the float64 quotient of the data size by the byte rate,
    both converted without loss: a finite number, not negative, within
    the relative distance [2^-53] of the quotient.  If either magic value
    is missing it is the float64 quotient of the file size by 16000. *)
Theorem duration_estimate (file : list byte) (fileSize : Z) :
  (44 <= length file)%nat ->
  exists header,
    binary_Read file = Some header
    /\ RIFF header = take 4 file
    /\ WAVE header = take 4 (drop 8 file)
    /\ ByteRate header = le_value (take 4 (drop 28 file))
    /\ DataSize header = le_value (take 4 (drop 40 file))
    /\ (RIFF header = list_byte_of_string "RIFF" ->
        WAVE header = list_byte_of_string "WAVE" ->
        0 < ByteRate header ->
        estimate_duration fileSize header
        = div (of_int (DataSize header)) (of_int (ByteRate header))
        /\ (to_Q (of_int (DataSize header)) == inject_Z (DataSize header))%Q
        /\ (to_Q (of_int (ByteRate header)) == inject_Z (ByteRate header))%Q
        /\ is_finite (estimate_duration fileSize header) = true
        /\ nonneg (estimate_duration fileSize header) = true
        /\ (Qabs (to_Q (estimate_duration fileSize header)
                  - (DataSize header # Z.to_pos (ByteRate header)))
            <= (DataSize header # Z.to_pos (ByteRate header)) * (1 # 2 ^ 53))%Q)
    /\ (RIFF header <> list_byte_of_string "RIFF"
        \/ WAVE header <> list_byte_of_string "WAVE" ->
        estimate_duration fileSize header = div (of_int fileSize) (of_int 16000)).
Proof.
  intros H. eexists. split; [by apply binary_Read_layout|].
  cbn [RIFF WAVE ByteRate DataSize].
  do 4 (split; [reflexivity|]).
  split.
  - intros HR HW Hpos. split; [by apply estimate_duration_wav|].
    assert (Hr : forall bs : list byte, (length bs <= 4)%nat -> 0 <= le_value bs < 2 ^ 32).
    { intros bs Hl. pose proof (le_value_range bs) as [? Hlt]. split; [done|].
      eapply Z.lt_le_trans; [exact Hlt|].
      etrans; [apply (Z.pow_le_mono_r 256 _ 4); lia|]. by vm_compute. }
    pose proof (Hr (take 4 (drop 40 file)) ltac:(rewrite length_take; lia)) as HD.
    pose proof (Hr (take 4 (drop 28 file)) ltac:(rewrite length_take; lia)) as HB.
    split; [apply of_int_exact; lia|]. split; [apply of_int_exact; lia|].
    rewrite estimate_duration_wav by done. cbn [DataSize ByteRate].
    apply div_of_int_accurate; [done|]. cbn [ByteRate] in Hpos. lia.
  - intros Hm. by apply estimate_duration_fallback.
Qed.

(** An upload of 64 zero bytes is no WAV file: the estimate is 64 / 16000
    seconds, four milliseconds. *)
Example not_wav_fallback :
  exists header,
    binary_Read Examples.not_wav = Some header
    /\ estimate_duration 64 header = div (of_int 64) (of_int 16000)
    /\ (to_Q (estimate_duration 64 header) - (4 # 1000) <= 1 # 2 ^ 60)%Q.
Proof. eexists. split; [by vm_compute|]. split; by vm_compute. Qed.

Lemma duration_estimate_witness :
  exists header,
    binary_Read Examples.wav_10s = Some header
    /\ ByteRate header = 16000 /\ DataSize header = 160000
    /\ estimate_duration 44 header = of_int 10.
Proof.
  destruct (duration_estimate Examples.wav_10s 44)
    as (h & Hread & HR & HW & HB & HD & Hwav & _).
  { vm_compute. done. }
  exists h. split; [exact Hread|].
  assert (EB : ByteRate h = 16000) by (rewrite HB; reflexivity).
  assert (ED : DataSize h = 160000) by (rewrite HD; reflexivity).
  split; [exact EB|]. split; [exact ED|].
  destruct Hwav as (E & _).
  - rewrite HR. reflexivity.
  - rewrite HW. reflexivity.
  - rewrite EB. lia.
  - rewrite E, EB, ED. reflexivity.
Defined.

End HeaderFacts.

(* ===================================================================== *)
(** * The audio forwarder                                                *)
(* ===================================================================== *)

Module AudioFacts.
Import GoLib Gin Float64 Common Controller Spec Float64Facts HeaderFacts.

Section Forwarder.
Variable QuotaPerUnit : float64.
Variable ChannelBaseURLs : list string.
Variable GetModelRatio GetGroupRatio : string -> float64.
Variable unrepresentable : float64 -> Z.


(** Once upstream has answered, the trace is the upstream call, the rest
    of the function body, the deferred accounting and the deferred
    [file.Close()]. *)
Lemma RelayAudio_upstream env c form file header resp :
  upstream_answered ChannelBaseURLs env c form file header resp ->
  exists req,
    RelayAudio QuotaPerUnit ChannelBaseURLs GetModelRatio GetGroupRatio
    unrepresentable env c =
    EvDo req :: after_do env resp
      ++ deferred_accounting QuotaPerUnit GetModelRatio GetGroupRatio
         unrepresentable env c resp (estimate_duration (Size (File form)) header)
      ++ [EvFileClose].
Proof.
  intros (HB & HO & HR & [base HI] & HC & HN & HD & _).
  unfold RelayAudio, after_open. rewrite HB, HO, HR, HI, HC, HN, HD.
  cbn [negb]. eexists. cbn [app]. by rewrite <- app_assoc.
Qed.

Lemma filter_copy_headers (f : Event -> bool) (l : list (string * list string)) :
  (forall k v, f (EvHeaderSet k v) = false) -> f EvPanic = false ->
  List.filter f (copy_headers l).1 = [].
Proof.
  intros Hs Hp. induction l as [|[k [|v0 vs]] l IH]; cbn [copy_headers]; [done| |].
  - cbn. by rewrite Hp.
  - destruct (copy_headers l) as [evs ok]. cbn [fst List.filter]. by rewrite Hs.
Qed.

(** The loop over the headers runs to its end when every header has a
    value, setting the first value of each. *)
Lemma copy_headers_present (l : list (string * list string)) :
  Forall (fun entry => entry.2 <> []) l ->
  copy_headers l = (map set_first_value l, true).
Proof.
  induction 1 as [|[k [|v0 vs]] l Hne _ IH]; cbn [copy_headers]; [done|done|].
  by rewrite IH.
Qed.

Lemma ledger_after_do env resp : ledger (after_do env resp) = [].
Proof.
  unfold ledger, after_do.
  pose proof (filter_copy_headers is_ledger (Range_order env)
                ltac:(done) ltac:(done)) as Hc.
  destruct (copy_headers _) as [sets ok]. cbn [fst] in Hc.
  destruct (ReqBody_Close_ok env), (InboundBody_Close_ok env); cbn; try done.
  rewrite List.filter_app, Hc. unfold after_WriteHeader.
  destruct ok, (Copy_fails_after env), (RespBody_Close_ok env); done.
Qed.

Lemma ledger_accounting env c resp duration :
  ledger (deferred_accounting QuotaPerUnit GetModelRatio GetGroupRatio
         unrepresentable env c resp duration) =
  if resp_StatusCode resp =? 200 then
    let quota := audio_quota QuotaPerUnit unrepresentable duration in
    EvPostConsumeTokenQuota (GetInt c "token_id") quota
    :: EvCacheUpdateUserQuota (GetInt c "id")
    :: (if quota =? 0 then []
        else [EvRecordConsumeLog (GetInt c "id") "whisper-1"
                (GetString c "token_name") quota
                (GetModelRatio "whisper-1") (GetGroupRatio (GetString c "group"));
              EvUpdateUserUsedQuotaAndRequestCount (GetInt c "id") quota;
              EvUpdateChannelUsedQuota (GetInt c "channel_id") quota])
  else [].
Proof.
  unfold ledger, deferred_accounting.
  destruct (resp_StatusCode resp =? 200); [|done]. cbv zeta.
  destruct (PostConsumeTokenQuota_err env), (CacheUpdateUserQuota_err env),
    (audio_quota QuotaPerUnit unrepresentable duration =? 0); reflexivity.
Qed.

(** A header that is read but lacks the magic does not stop the
    forwarder: the request goes upstream, and the accounting uses the
    fallback estimate. *)
Lemma fallback_proceeds env c form file header resp :
  upstream_answered ChannelBaseURLs env c form file header resp ->
  RIFF header <> list_byte_of_string "RIFF"
  \/ WAVE header <> list_byte_of_string "WAVE" ->
  exists req,
    RelayAudio QuotaPerUnit ChannelBaseURLs GetModelRatio GetGroupRatio
      unrepresentable env c =
    EvDo req :: after_do env resp
      ++ deferred_accounting QuotaPerUnit GetModelRatio GetGroupRatio
           unrepresentable env c resp
           (div (of_int (Size (File form))) (of_int 16000))
      ++ [EvFileClose].
Proof.
  intros H Hm. destruct (RelayAudio_upstream _ _ _ _ _ _ H) as [req ->].
  exists req. by rewrite estimate_duration_fallback.
Qed.

(** C4, amended. When the header cannot be read (an upload shorter than
    44 bytes) the forwarder answers 400 with the envelope "Read file
    error" and returns: no duration is estimated, nothing is sent
    upstream, and only the deferred [file.Close()] follows.  The fallback
    estimate is for a header that was read and lacks the magic: then the
    request goes upstream and the accounting uses the file size divided
    by 16000. *)
Theorem read_failure_is_fatal env c form file :
  ShouldBind env = Some form ->
  File_Open env = Some file ->
  ((length file < 44)%nat ->
   RelayAudio QuotaPerUnit ChannelBaseURLs GetModelRatio GetGroupRatio
     unrepresentable env c =
   [EvJSON 400 (audio_error "Read file error" EmptyString); EvFileClose])
  /\ (forall header resp,
        upstream_answered ChannelBaseURLs env c form file header resp ->
        RIFF header <> list_byte_of_string "RIFF"
        \/ WAVE header <> list_byte_of_string "WAVE" ->
        exists req,
          RelayAudio QuotaPerUnit ChannelBaseURLs GetModelRatio GetGroupRatio
            unrepresentable env c =
          EvDo req :: after_do env resp
            ++ deferred_accounting QuotaPerUnit GetModelRatio GetGroupRatio
                 unrepresentable env c resp
                 (div (of_int (Size (File form))) (of_int 16000))
            ++ [EvFileClose]).
Proof.
  intros HB HO. split.
  - intros Hlen. unfold RelayAudio, after_open.
    by rewrite HB, HO, binary_Read_short.
  - intros header resp. apply fallback_proceeds.
Qed.

End Forwarder.

(** C4, as stated, fails: on an upload of 10 bytes the forwarder answers
    with the error envelope of status 400 and sends nothing upstream. *)
Lemma short_upload_is_rejected :
  let t := RelayAudio Examples.quota_per_unit Examples.base_urls
             Examples.ratio_one Examples.ratio_one Examples.no_choice
             (Examples.audio_env Examples.short_upload 200 None)
             Examples.audio_request in
  length Examples.short_upload = 10%nat
  /\ answers t = [EvJSON 400 (audio_error "Read file error" EmptyString)]
  /\ List.filter is_upstream_call t = []
  /\ ledger t = [].
Proof. vm_compute. repeat split; reflexivity. Qed.

Lemma read_failure_is_fatal_witness :
  RelayAudio Examples.quota_per_unit Examples.base_urls
    Examples.ratio_one Examples.ratio_one Examples.no_choice
    (Examples.audio_env (Examples.zeros 43) 200 None) Examples.audio_request =
  [EvJSON 400 {| Message := "Read file error";
                 Type_ := "one_api_error";
                 Param := EmptyString;
                 Code := CodeString "audio_error" |};
   EvFileClose].
Proof.
  apply (read_failure_is_fatal Examples.quota_per_unit Examples.base_urls
           Examples.ratio_one Examples.ratio_one Examples.no_choice
           (Examples.audio_env (Examples.zeros 43) 200 None) Examples.audio_request
           (Examples.audio_form 43) (Examples.zeros 43)).
  - reflexivity.
  - reflexivity.
  - vm_compute. lia.
Defined.

Lemma example_upstream_answered (status : Z) (copy : option nat) :
  exists header,
    upstream_answered Examples.base_urls
      (Examples.audio_env Examples.wav_10s status copy) Examples.audio_request
      (Examples.audio_form 44) Examples.wav_10s header
      (Examples.upstream_response status)
    /\ estimate_duration 44 header = of_int 10.
Proof.
  destruct (binary_Read Examples.wav_10s) as [h|] eqn:E; [|by vm_compute in E].
  exists h. split.
  - repeat split; try reflexivity; try done.
  - vm_compute in E. by injection E as <-.
Defined.


(** ** The quota *)

Lemma audio_quota_product_not_negative (Q d : float64) :
  nonneg d = true -> nonneg Q = true ->
  not_negative (mul d (div (mul Q lit_0_006) lit_60)).
Proof.
  intros Hd HQ. apply mul_not_negative; [by apply nonneg_not_negative|].
  apply div_lit_60_not_negative, mul_not_negative; [by apply nonneg_not_negative|done].
Qed.

(** C2, amended. For a duration and a [QuotaPerUnit] that are not
    negative, when the float64 product
    [duration * ((QuotaPerUnit * 0.006) / 60)] is finite and its integer
    part fits the 64-bit [int], the quota is the floor of that product; it
    is not negative, and it is the product with its fraction discarded
    towards zero. *)
Theorem audio_quota_floor (QuotaPerUnit duration : float64)
    (unrepresentable : float64 -> Z) :
  nonneg duration = true ->
  nonneg QuotaPerUnit = true ->
  let product := mul duration (div (mul QuotaPerUnit lit_0_006) lit_60) in
  is_finite product = true ->
  Qfloor (to_Q product) <= MaxInt64 ->
  let quota := audio_quota QuotaPerUnit unrepresentable duration in
  quota = Qfloor (to_Q product)
  /\ 0 <= quota
  /\ trunc product = Some quota
  /\ quota = (if Qle_bool 0 (to_Q product) then Qfloor (to_Q product)
              else Qceiling (to_Q product)).
Proof.
  intros Hd HQ product Hfin Hmax.
  pose proof (audio_quota_product_not_negative _ _ Hd HQ) as Hnn.
  fold product in Hnn.
  destruct (trunc product) as [z|] eqn:Ez; [|by destruct product].
  destruct (trunc_nonneg_floor product z) as [Efl Hz]; [|done|].
  { destruct product as [| | |[] m e]; done. }
  assert (Eq : audio_quota QuotaPerUnit unrepresentable duration = z).
  { unfold audio_quota. cbv zeta. fold product. unfold to_int. rewrite Ez.
    replace (MinInt64 <=? z) with true
      by (symmetry; apply Z.leb_le; unfold MinInt64; lia).
    by replace (z <=? MaxInt64) with true by (symmetry; apply Z.leb_le; lia). }
  cbv zeta. rewrite Eq. repeat split; try done.
  by apply trunc_toward_zero.
Qed.

Lemma audio_quota_floor_witness :
  audio_quota Examples.quota_per_unit Examples.no_choice (of_int 10) = 500
  /\ 0 <= audio_quota Examples.quota_per_unit Examples.no_choice (of_int 10).
Proof.
  destruct (audio_quota_floor Examples.quota_per_unit (of_int 10) Examples.no_choice)
    as (E & Hpos & _).
  - reflexivity.
  - reflexivity.
  - reflexivity.
  - by vm_compute.
  - split; [exact E | exact Hpos].
Defined.

(** C2, as stated, fails: a duration of [2^60] seconds with a
    [QuotaPerUnit] of 500000 are both finite and not negative; the product
    is [50 * 2^60], beyond the 64-bit [int], and whatever the
    implementation makes of the conversion the quota is below the floor
    of the product.  The same happens at a duration a header can give
    ([2^31] seconds: data size [2^31], byte rate 1) with a
    [QuotaPerUnit] of [2^50]. *)
Lemma audio_quota_out_of_range :
  let duration := of_int (2 ^ 60) in
  let QuotaPerUnit := of_int 500000 in
  let product := mul duration (div (mul QuotaPerUnit lit_0_006) lit_60) in
  let duration' := div (of_int (2 ^ 31)) (of_int 1) in
  let QuotaPerUnit' := of_int (2 ^ 50) in
  let product' := mul duration' (div (mul QuotaPerUnit' lit_0_006) lit_60) in
  (nonneg duration = true
   /\ nonneg QuotaPerUnit = true
   /\ is_finite product = true
   /\ Qfloor (to_Q product) = 50 * 2 ^ 60
   /\ (forall unrepresentable,
         audio_quota QuotaPerUnit unrepresentable duration < Qfloor (to_Q product)))
  /\ (nonneg duration' = true
      /\ nonneg QuotaPerUnit' = true
      /\ is_finite product' = true
      /\ MaxInt64 < Qfloor (to_Q product')
      /\ (forall unrepresentable,
            audio_quota QuotaPerUnit' unrepresentable duration'
            < Qfloor (to_Q product'))).
Proof.
  cbv zeta. split.
  - do 4 (split; [by vm_compute|]).
    intros u. unfold audio_quota. cbv zeta.
    set (product := mul _ _).
    assert (E : trunc product = Some (50 * 2 ^ 60)) by (by vm_compute).
    unfold to_int. rewrite E.
    replace (50 * 2 ^ 60 <=? MaxInt64) with false by (by vm_compute).
    rewrite andb_false_r.
    replace (Qfloor (to_Q product)) with (50 * 2 ^ 60) by (by vm_compute).
    pose proof (wrap64_range (u product)). unfold MaxInt64 in *. lia.
  - do 4 (split; [by vm_compute|]).
    intros u. unfold audio_quota. cbv zeta.
    set (product := mul _ _).
    assert (E : exists z, trunc product = Some z /\ Qfloor (to_Q product) = z
                          /\ MaxInt64 < z).
    { eexists. split; [by vm_compute|]. split; by vm_compute. }
    destruct E as (z & E & -> & Hz).
    unfold to_int. rewrite E.
    replace (z <=? MaxInt64) with false by (symmetry; apply Z.leb_gt; lia).
    rewrite andb_false_r.
    pose proof (wrap64_range (u product)). lia.
Qed.

(** ** What is written to the client *)

Lemma writer_steps_app (t1 t2 : list Event) (w : ResponseWriter) :
  foldl writer_step w (t1 ++ t2) = foldl writer_step (foldl writer_step w t1) t2.
Proof. apply foldl_app. Qed.

(** Events that are no calls on the writer leave it as it is. *)
Lemma writer_steps_no_writer (t : list Event) (w : ResponseWriter) :
  writer_events t = [] -> foldl writer_step w t = w.
Proof.
  revert w. induction t as [|e t IH]; intros w H; [done|].
  unfold writer_events in H. cbn [List.filter] in H.
  destruct (is_writer e) eqn:E; [done|].
  cbn [foldl]. replace (writer_step w e) with w by (by destruct e).
  by apply IH.
Qed.

(** The loop over the headers changes the header map alone: under the
    key of an entry it leaves the first value of the entry, and under a
    key that has no entry what was there. *)
Lemma writer_steps_sets (l : list (string * list string)) (w : ResponseWriter) :
  rw_status (foldl writer_step w (map set_first_value l)) = rw_status w
  /\ rw_written (foldl writer_step w (map set_first_value l)) = rw_written w.
Proof.
  revert w. induction l as [|e l IH]; intros w; [done|].
  cbn [map foldl]. by destruct (IH (writer_step w (set_first_value e))) as [-> ->].
Qed.

Lemma writer_steps_sets_absent (k : string) (l : list (string * list string))
    (w : ResponseWriter) :
  k ∉ l.*1 ->
  rw_header (foldl writer_step w (map set_first_value l)) !! k = rw_header w !! k.
Proof.
  revert w. induction l as [|[k' vs] l IH]; intros w H; [done|].
  cbn [fmap list_fmap fst] in H. apply not_elem_of_cons in H as [Hne H].
  cbn [map foldl]. rewrite IH by done.
  cbn. by rewrite lookup_insert_ne.
Qed.

Lemma writer_steps_sets_entry (k : string) (vs : list string)
    (l : list (string * list string)) (w : ResponseWriter) :
  NoDup l.*1 -> (k, vs) ∈ l ->
  rw_header (foldl writer_step w (map set_first_value l)) !! k
  = Some [default EmptyString (head vs)].
Proof.
  revert w. induction l as [|[k' vs'] l IH]; intros w Hnd Hel;
    [by apply elem_of_nil in Hel|].
  cbn [fmap list_fmap fst] in Hnd. apply NoDup_cons in Hnd as [Hk' Hnd].
  cbn [map foldl]. apply elem_of_cons in Hel as [[= -> ->]|Hel].
  - rewrite writer_steps_sets_absent by done. cbn. by rewrite lookup_insert_eq.
  - by apply IH.
Qed.

(** With the header written, what went out stays. *)
Lemma gin_written (w : ResponseWriter) (sent : Z * gmap string (list string))
    (code : Z) :
  rw_written w = Some sent ->
  rw_written (gin_WriteHeaderNow w) = Some sent
  /\ rw_written (gin_JSON code w) = Some sent.
Proof.
  intros Hs. split.
  - unfold gin_WriteHeaderNow. by rewrite Hs.
  - unfold gin_JSON, gin_WriteHeader, gin_WriteHeaderNow. rewrite Hs.
    destruct (_ && _); cbn [rw_written]; by rewrite Hs.
Qed.


Section Relayed.
Variable QuotaPerUnit : float64.
Variable ChannelBaseURLs : list string.
Variable GetModelRatio GetGroupRatio : string -> float64.
Variable unrepresentable : float64 -> Z.


Lemma writer_events_accounting env c resp duration :
  writer_events (deferred_accounting QuotaPerUnit GetModelRatio GetGroupRatio
                   unrepresentable env c resp duration) = [].
Proof.
  unfold writer_events, deferred_accounting.
  destruct (resp_StatusCode resp =? 200); [|done]. cbv zeta.
  destruct (PostConsumeTokenQuota_err env), (CacheUpdateUserQuota_err env),
    (audio_quota QuotaPerUnit unrepresentable duration =? 0); reflexivity.
Qed.

Lemma header_entries_present (h : gmap string (list string))
    (l : list (string * list string)) :
  header_values_present h -> l ≡ₚ map_to_list h ->
  Forall (fun entry => entry.2 <> []) l.
Proof.
  intros H Hl. apply Forall_forall. intros [k vs] Hel.
  rewrite Hl in Hel. apply elem_of_map_to_list in Hel. by apply (H k).
Qed.

(** With both request bodies closed and a value for every header,
    [after_do] sets the first value of every header, writes the status and
    only then the body. *)
Lemma after_do_relays env resp :
  ReqBody_Close_ok env = true ->
  InboundBody_Close_ok env = true ->
  header_values_present (resp_Header resp) ->
  Range_order env ≡ₚ map_to_list (resp_Header resp) ->
  after_do env resp =
  EvReqBodyClose :: EvInboundBodyClose ::
  map set_first_value (Range_order env)
  ++ EvWriteHeader (resp_StatusCode resp) :: after_WriteHeader env resp.
Proof.
  intros HR HI HP Hl. unfold after_do. rewrite HR, HI. cbn [negb].
  by rewrite copy_headers_present by (by eapply header_entries_present).
Qed.

(** The status and the headers that go out, on every path behind
    [WriteHeader]: those of upstream, unless the handler fails before a
    byte of the body is written, when [c.JSON] puts its status and, where
    there is none, its content type in their place. *)
Lemma response_sent_relayed env c form file header resp h0 :
  upstream_answered ChannelBaseURLs env c form file header resp ->
  ReqBody_Close_ok env = true ->
  InboundBody_Close_ok env = true ->
  header_values_present (resp_Header resp) ->
  exists h1,
    (forall k v0 vs, resp_Header resp !! k = Some (v0 :: vs) -> h1 !! k = Some [v0])
    /\ (forall k, resp_Header resp !! k = None -> h1 !! k = h0 !! k)
    /\ response_sent h0
         (RelayAudio QuotaPerUnit ChannelBaseURLs GetModelRatio GetGroupRatio
            unrepresentable env c)
       = Some (if fails_before_first_byte env resp
               then (500, writeContentType jsonContentType h1)
               else (if 0 <? resp_StatusCode resp
                     then resp_StatusCode resp else 200, h1)).
Proof.
  intros H HR HI HP.
  destruct (RelayAudio_upstream QuotaPerUnit _ GetModelRatio GetGroupRatio
              unrepresentable _ _ _ _ _ _ H) as [req ->].
  assert (Hl : Range_order env ≡ₚ map_to_list (resp_Header resp)) by apply H.
  rewrite after_do_relays by done.
  set (acct := deferred_accounting _ _ _ _ _ _ _ _).
  set (status := resp_StatusCode resp).
  assert (Et : EvDo req :: (EvReqBodyClose :: EvInboundBodyClose ::
                 map set_first_value (Range_order env)
                 ++ EvWriteHeader status :: after_WriteHeader env resp)
                 ++ acct ++ [EvFileClose]
               = [EvDo req; EvReqBodyClose; EvInboundBodyClose]
                 ++ map set_first_value (Range_order env)
                 ++ [EvWriteHeader status] ++ after_WriteHeader env resp
                 ++ acct ++ [EvFileClose]).
  { cbn [app]. by rewrite <- !app_assoc. }
  rewrite Et. clear Et.
  assert (Hacct : writer_events acct = []) by apply writer_events_accounting.
  unfold response_sent. rewrite !writer_steps_app.
  change (foldl writer_step (fresh_writer h0)
            [EvDo req; EvReqBodyClose; EvInboundBodyClose]) with (fresh_writer h0).
  destruct (writer_steps_sets (Range_order env) (fresh_writer h0)) as [Hs Hx].
  exists (rw_header (foldl writer_step (fresh_writer h0)
                       (map set_first_value (Range_order env)))).
  split; [|split].
  - intros k v0 vs Hk. rewrite (writer_steps_sets_entry k (v0 :: vs)); [done| |].
    + rewrite Hl. apply NoDup_fst_map_to_list.
    + rewrite Hl. by apply elem_of_map_to_list.
  - intros k Hk. rewrite writer_steps_sets_absent; [done|]. intros Hel.
    apply list_elem_of_fmap in Hel as ([k' vs] & -> & Hel).
    rewrite Hl in Hel. apply elem_of_map_to_list in Hel. cbn in Hk. congruence.
  - rewrite (writer_steps_no_writer acct) by done.
    change (foldl writer_step ?w [EvFileClose]) with w.
    destruct (foldl writer_step (fresh_writer h0)
                (map set_first_value (Range_order env))) as [h1 s1 x1].
    cbn [rw_status rw_written rw_header fresh_writer] in Hs, Hx |- *. subst s1 x1.
    set (st := if 0 <? status then status else 200).
    assert (Hw : foldl writer_step
                   {| rw_header := h1; rw_status := 200; rw_written := None |}
                   [EvWriteHeader status]
                 = {| rw_header := h1; rw_status := st; rw_written := None |}).
    { cbn [foldl writer_step]. unfold gin_WriteHeader, st.
      cbn [rw_header rw_status rw_written].
      destruct (0 <? status); cbn [andb]; [|done].
      by destruct (Z.eqb_spec 200 status) as [<-|]. }
    rewrite Hw. clear Hw.
    assert (HJ : forall e, writer_step
                   {| rw_header := h1; rw_status := st; rw_written := None |}
                   (EvJSON StatusInternalServerError e)
                 = {| rw_header := writeContentType jsonContentType h1;
                      rw_status := 500;
                      rw_written := Some (500, writeContentType jsonContentType h1) |}).
    { intros e. cbn [writer_step]. unfold gin_JSON, gin_WriteHeader.
      cbn [rw_header rw_status rw_written]. unfold StatusInternalServerError.
      change (0 <? 500) with true. cbn [andb].
      by destruct (Z.eqb_spec st 500) as [->|]. }
    assert (HN : forall e,
               rw_written
                 (gin_WriteHeaderNow
                    (writer_step
                       (gin_WriteHeaderNow
                          {| rw_header := h1; rw_status := st; rw_written := None |})
                       (EvJSON StatusInternalServerError e)))
               = Some (st, h1)).
    { intros e. cbn [writer_step].
      destruct (gin_written
                  (gin_WriteHeaderNow
                     {| rw_header := h1; rw_status := st; rw_written := None |})
                  (st, h1) StatusInternalServerError eq_refl) as [_ HJ'].
      by apply gin_written. }
    unfold fails_before_first_byte, fails_behind_WriteHeader, bytes_copied,
      after_WriteHeader.
    destruct (Copy_fails_after env) as [n|].
    + destruct (take n (resp_Body resp)) as [|b bs]; cbn [foldl andb].
      * rewrite bool_decide_eq_true_2 by done.
        change (writer_step ?w (EvWrite [])) with w. by rewrite HJ.
      * rewrite bool_decide_eq_false_2 by done.
        change (writer_step ?w (EvWrite (b :: bs))) with (gin_WriteHeaderNow w).
        by rewrite HN.
    + destruct (resp_Body resp) as [|b bs], (RespBody_Close_ok env);
        cbn [foldl negb andb app];
        rewrite ?bool_decide_eq_true_2, ?bool_decide_eq_false_2 by done.
      * done.
      * change (writer_step ?w (EvWrite [])) with w.
        change (writer_step ?w EvRespBodyClose) with w. by rewrite HJ.
      * done.
      * change (writer_step ?w (EvWrite (b :: bs))) with (gin_WriteHeaderNow w).
        change (writer_step ?w EvRespBodyClose) with w. by rewrite HN.
Qed.


End Relayed.
Lemma example_headers_present (status : Z) :
  header_values_present (resp_Header (Examples.upstream_response status)).
Proof.
  intros k vs H. cbn [resp_Header Examples.upstream_response] in H.
  apply lookup_singleton_Some in H as [_ <-]. done.
Qed.


(** ** Closing the bodies *)

Section Closes.
Variable QuotaPerUnit : float64.
Variable ChannelBaseURLs : list string.
Variable GetModelRatio GetGroupRatio : string -> float64.
Variable unrepresentable : float64 -> Z.

Lemma closes_accounting (f : Event -> bool) env c resp duration :
  f = is_ReqBodyClose \/ f = is_RespBodyClose ->
  List.filter f (deferred_accounting QuotaPerUnit GetModelRatio GetGroupRatio
                   unrepresentable env c resp duration) = [].
Proof.
  intros Hf. unfold deferred_accounting.
  destruct (resp_StatusCode resp =? 200); [|done]. cbv zeta.
  destruct (PostConsumeTokenQuota_err env), (CacheUpdateUserQuota_err env),
    (audio_quota QuotaPerUnit unrepresentable duration =? 0);
    destruct Hf as [-> | ->]; reflexivity.
Qed.

(** Once upstream has answered, [req.Body.Close()] is called on every
    path, once. *)
Lemma request_body_closed env c form file header resp :
  upstream_answered ChannelBaseURLs env c form file header resp ->
  closes_request_body
    (RelayAudio QuotaPerUnit ChannelBaseURLs GetModelRatio GetGroupRatio
       unrepresentable env c) = 1%nat.
Proof.
  intros H. destruct (RelayAudio_upstream QuotaPerUnit _ GetModelRatio GetGroupRatio
                        unrepresentable _ _ _ _ _ _ H) as [req ->].
  unfold closes_request_body. cbn [List.filter is_ReqBodyClose].
  rewrite !List.filter_app, closes_accounting by auto.
  cbn [List.filter is_ReqBodyClose app]. rewrite app_nil_r.
  unfold after_do.
  pose proof (filter_copy_headers is_ReqBodyClose (Range_order env)
                ltac:(done) ltac:(done)) as Hc.
  destruct (copy_headers _) as [sets ok]. cbn [fst] in Hc.
  destruct (ReqBody_Close_ok env), (InboundBody_Close_ok env); cbn; try done.
  rewrite List.filter_app, Hc. unfold after_WriteHeader.
  destruct ok, (Copy_fails_after env), (RespBody_Close_ok env); done.
Qed.

(** [resp.Body.Close()] is called only on the path on which the copy of
    the body succeeds: a failing close of a request body, a panic in the
    header loop and a failing copy all return without it. *)
Lemma response_body_closed_iff env c form file header resp :
  upstream_answered ChannelBaseURLs env c form file header resp ->
  closes_response_body
    (RelayAudio QuotaPerUnit ChannelBaseURLs GetModelRatio GetGroupRatio
       unrepresentable env c)
  = if ReqBody_Close_ok env && InboundBody_Close_ok env
       && (copy_headers (Range_order env)).2
       && bool_decide (Copy_fails_after env = None)
    then 1%nat else 0%nat.
Proof.
  intros H. destruct (RelayAudio_upstream QuotaPerUnit _ GetModelRatio GetGroupRatio
                        unrepresentable _ _ _ _ _ _ H) as [req ->].
  unfold closes_response_body. cbn [List.filter is_RespBodyClose].
  rewrite !List.filter_app, closes_accounting by auto.
  cbn [List.filter is_RespBodyClose app]. rewrite app_nil_r.
  unfold after_do.
  pose proof (filter_copy_headers is_RespBodyClose (Range_order env)
                ltac:(done) ltac:(done)) as Hc.
  destruct (copy_headers _) as [sets ok]. cbn [fst snd] in *.
  destruct (ReqBody_Close_ok env), (InboundBody_Close_ok env); cbn; try done.
  rewrite List.filter_app, Hc. unfold after_WriteHeader.
  destruct ok, (Copy_fails_after env), (RespBody_Close_ok env); done.
Qed.

End Closes.

(** C9 does not hold of the code.  Upstream answers 200 and the copy of
    the body to the client fails after one byte: the request body has
    been closed, the response body is never closed, and the envelope
    [copy_response_body_failed] is written behind the byte already
    sent. *)
Lemma response_body_left_open :
  let t := Examples.run_audio Examples.wav_10s 200 (Some 1%nat) in
  length (List.filter is_upstream_call t) = 1%nat
  /\ closes_request_body t = 1%nat
  /\ closes_response_body t = 0%nat
  /\ List.filter is_body_write t =
       [EvWrite (take 1 Examples.transcript);
        EvJSON 500 (audio_error "copy_response_body_failed" EmptyString)].
Proof. vm_compute. repeat split; reflexivity. Qed.

(** ** The accounting *)

Section Accounting.
Variable QuotaPerUnit : float64.
Variable ChannelBaseURLs : list string.
Variable GetModelRatio GetGroupRatio : string -> float64.
Variable unrepresentable : float64 -> Z.

(** C10. Once upstream has answered, the ledger is updated exactly when
    the status is 200, whatever happens to the closes and to the copy of
    the body afterwards: the token quota is debited and the user-quota
    cache refreshed, and when the quota is not zero the consumption log,
    the user's and the channel's used quota follow.  With any other
    status, 201 or 204 included, there is no ledger update, while the
    status is still written to the client (both request bodies closed,
    a value for every header). *)
Theorem accounting_iff_200 env c form file header resp :
  upstream_answered ChannelBaseURLs env c form file header resp ->
  let quota := audio_quota QuotaPerUnit unrepresentable
                 (estimate_duration (Size (File form)) header) in
  (ledger (RelayAudio QuotaPerUnit ChannelBaseURLs GetModelRatio GetGroupRatio
             unrepresentable env c) =
  if resp_StatusCode resp =? 200 then
    EvPostConsumeTokenQuota (GetInt c "token_id") quota
    :: EvCacheUpdateUserQuota (GetInt c "id")
    :: (if quota =? 0 then []
        else [EvRecordConsumeLog (GetInt c "id") "whisper-1"
                (GetString c "token_name") quota
                (GetModelRatio "whisper-1") (GetGroupRatio (GetString c "group"));
              EvUpdateUserUsedQuotaAndRequestCount (GetInt c "id") quota;
              EvUpdateChannelUsedQuota (GetInt c "channel_id") quota])
  else [])
  /\ (ReqBody_Close_ok env = true ->
      InboundBody_Close_ok env = true ->
      header_values_present (resp_Header resp) ->
      EvWriteHeader (resp_StatusCode resp)
      ∈ RelayAudio QuotaPerUnit ChannelBaseURLs GetModelRatio GetGroupRatio
          unrepresentable env c).
Proof.
  intros H. cbv zeta.
  destruct (RelayAudio_upstream QuotaPerUnit _ GetModelRatio GetGroupRatio
              unrepresentable _ _ _ _ _ _ H) as [req ->].
  split; [|intros HR HI HP; rewrite after_do_relays by (done || apply H); set_solver].
  unfold ledger. cbn [List.filter is_ledger]. rewrite !List.filter_app.
  fold (ledger (after_do env resp)). rewrite ledger_after_do. cbn [app List.filter is_ledger].
  rewrite app_nil_r. apply ledger_accounting.
Qed.

End Accounting.

Lemma accounting_iff_200_witness :
  ledger (RelayAudio Examples.quota_per_unit Examples.base_urls
            Examples.ratio_one Examples.ratio_one Examples.no_choice
            (Examples.audio_env Examples.wav_10s 201 (Some 1%nat))
            Examples.audio_request) = []
  /\ ledger (RelayAudio Examples.quota_per_unit Examples.base_urls
               Examples.ratio_one Examples.ratio_one Examples.no_choice
               (Examples.audio_env Examples.wav_10s 200 (Some 1%nat))
               Examples.audio_request)
     = [EvPostConsumeTokenQuota 3 500; EvCacheUpdateUserQuota 11;
        EvRecordConsumeLog 11 "whisper-1" "demo" 500 (of_int 1) (of_int 1);
        EvUpdateUserUsedQuotaAndRequestCount 11 500;
        EvUpdateChannelUsedQuota 7 500].
Proof.
  split.
  - destruct (example_upstream_answered 201 (Some 1%nat)) as (h & H & _).
    exact (proj1 (accounting_iff_200 Examples.quota_per_unit Examples.base_urls
             Examples.ratio_one Examples.ratio_one Examples.no_choice _ _ _ _ _ _ H)).
  - destruct (example_upstream_answered 200 (Some 1%nat)) as (h & H & E).
    pose proof (proj1 (accounting_iff_200 Examples.quota_per_unit Examples.base_urls
             Examples.ratio_one Examples.ratio_one Examples.no_choice _ _ _ _ _ _ H)) as A.
    cbv zeta in A. cbn [Size File Examples.audio_form] in A. rewrite E in A. exact A.
Defined.

End AudioFacts.

(* ===================================================================== *)
(** * The chain on the path                                              *)
(* ===================================================================== *)

Module PathFacts.
Import GoLib Gin Controller Spec GoLibFacts RelayFacts.

(** No path begins with two of the prefixes the chain tests: they part
    within their first six bytes. *)
Lemma route_prefixes_exclusive (path p q : string) :
  p ∈ route_prefixes -> q ∈ route_prefixes -> p <> q ->
  HasPrefix path p = true -> HasPrefix path q = false.
Proof.
  intros Hp Hq Hne H. apply HasPrefix_iff in H as [t ->].
  unfold route_prefixes in Hp, Hq.
  repeat (apply elem_of_cons in Hp as [->|Hp]);
    try (by apply elem_of_nil in Hp);
    repeat (apply elem_of_cons in Hq as [->|Hq]);
    try (by apply elem_of_nil in Hq); try done;
    apply andb_false_intro2; reflexivity.
Qed.

Ltac other_prefix H q :=
  match type of H with
  | HasPrefix ?path ?p = true =>
      rewrite (route_prefixes_exclusive path p q
                 ltac:(unfold route_prefixes; set_solver)
                 ltac:(unfold route_prefixes; set_solver) ltac:(done) H)
  end.

(** X1. The mode the chain gives a path.  The six prefixes exclude one
    another, so that the order of the chain matters for the suffix rule
    alone: a path that ends in [embeddings] is in the embeddings mode
    unless it begins with one of the two completions prefixes, which
    stand before the rule; the modes whose prefixes stand behind it
    (moderations, image generations, edits) are for paths that do not end
    in [embeddings]. *)
Theorem relayMode_of_path_cases (path : string) :
  let begins p := HasPrefix path p = true in
  let ends_in_embeddings := HasSuffix path "embeddings" = true in
  (relayMode_of_path path = RelayModeChatCompletions
   <-> begins "/v1/chat/completions"%string)
  /\ (relayMode_of_path path = RelayModeCompletions
      <-> begins "/v1/completions"%string)
  /\ (relayMode_of_path path = RelayModeEmbeddings
      <-> (begins "/v1/embeddings"%string \/ ends_in_embeddings)
          /\ ~ begins "/v1/chat/completions"%string
          /\ ~ begins "/v1/completions"%string)
  /\ (relayMode_of_path path = RelayModeModerations
      <-> begins "/v1/moderations"%string /\ ~ ends_in_embeddings)
  /\ (relayMode_of_path path = RelayModeImagesGenerations
      <-> begins "/v1/images/generations"%string /\ ~ ends_in_embeddings)
  /\ (relayMode_of_path path = RelayModeEdits
      <-> begins "/v1/edits"%string /\ ~ ends_in_embeddings)
  /\ (relayMode_of_path path = RelayModeUnknown
      <-> Forall (fun p => HasPrefix path p = false) route_prefixes
          /\ ~ ends_in_embeddings).
Proof.
  cbv zeta. unfold relayMode_of_path, route_prefixes.
  rewrite !Forall_cons, Forall_nil. cbv beta.
  destruct (HasPrefix path "/v1/chat/completions") eqn:H1.
  { other_prefix H1 "/v1/completions"%string.
    other_prefix H1 "/v1/embeddings"%string.
    other_prefix H1 "/v1/moderations"%string.
    other_prefix H1 "/v1/images/generations"%string.
    other_prefix H1 "/v1/edits"%string.
    intuition congruence. }
  destruct (HasPrefix path "/v1/completions") eqn:H2.
  { other_prefix H2 "/v1/embeddings"%string.
    other_prefix H2 "/v1/moderations"%string.
    other_prefix H2 "/v1/images/generations"%string.
    other_prefix H2 "/v1/edits"%string.
    intuition congruence. }
  destruct (HasPrefix path "/v1/embeddings") eqn:H3.
  { other_prefix H3 "/v1/moderations"%string.
    other_prefix H3 "/v1/images/generations"%string.
    other_prefix H3 "/v1/edits"%string.
    intuition congruence. }
  destruct (HasSuffix path "embeddings") eqn:H4; [intuition congruence|].
  destruct (HasPrefix path "/v1/moderations") eqn:H5.
  { other_prefix H5 "/v1/images/generations"%string.
    other_prefix H5 "/v1/edits"%string.
    intuition congruence. }
  destruct (HasPrefix path "/v1/images/generations") eqn:H6.
  { other_prefix H6 "/v1/edits"%string. intuition congruence. }
  destruct (HasPrefix path "/v1/edits") eqn:H7; intuition congruence.
Qed.

End PathFacts.

(* ===================================================================== *)
(** * One attempt of the dispatcher, and the handlers of unknown routes  *)
(* ===================================================================== *)

Module AttemptFacts.
Import GoLib Gin Controller Spec GoLibFacts StrconvFacts RelayFacts.

Lemma digit_of_ascii_range (a : ascii) (d : Z) :
  digit_of_ascii a = Some d -> 0 <= d <= 9.
Proof.
  unfold digit_of_ascii.
  destruct (Z.leb_spec 48 (Z.of_N (N_of_ascii a))),
           (Z.leb_spec (Z.of_N (N_of_ascii a)) 57); cbn; intros [= <-]; lia.
Qed.

(** The digit loop stops with a syntax error at a byte that is no digit,
    when the digits before it cannot leave the 64-bit range. *)
Lemma parse_uint_loop_not_digit (s : string) :
  forall acc,
    0 <= acc -> (acc + 1) * 10 ^ Z.of_nat (String.length s) <= 2 ^ 64 ->
    (exists i a, String.get i s = Some a /\ digit_of_ascii a = None) ->
    parse_uint_loop s acc = UintSyntax.
Proof.
  induction s as [|a s IH]; intros acc Hacc Hlen (i & b & Hget & Hb).
  { by destruct i. }
  cbn [parse_uint_loop]. destruct (digit_of_ascii a) as [d|] eqn:Ed; [|done].
  apply digit_of_ascii_range in Ed as Hd.
  cbn [String.length] in Hlen. rewrite Nat2Z.inj_succ, Z.pow_succ_r in Hlen by lia.
  assert (0 < 10 ^ Z.of_nat (String.length s)) by (apply Z.pow_pos_nonneg; lia).
  replace (MaxUint64 <? acc * 10 + d) with false
    by (symmetry; apply Z.ltb_ge; unfold MaxUint64; nia).
  apply IH; [lia|nia|].
  destruct i as [|i]; cbn in Hget; [congruence|]. by exists i, b.
Qed.

(** [Atoi] gives 0 for a string of at most 19 bytes that holds a byte
    which is neither a digit nor a sign in front. *)
Lemma Atoi_not_a_number (s : string) :
  (String.length s <= 19)%nat ->
  (exists i a, String.get i s = Some a /\ digit_of_ascii a = None
               /\ (i = 0%nat -> a <> "+"%char /\ a <> "-"%char)) ->
  Atoi s = 0.
Proof.
  intros Hlen (i & b & Hget & Hb & Hsign). unfold Atoi, ParseInt.
  destruct s as [|a s]; [done|]. cbn [String.length] in Hlen.
  assert (Hpow : forall n : nat, (n <= 19)%nat -> (0 + 1) * 10 ^ Z.of_nat n <= 2 ^ 64).
  { intros n Hn. rewrite Z.mul_1_l.
    transitivity (10 ^ 19); [apply Z.pow_le_mono_r; lia | by vm_compute]. }
  destruct (Ascii.eqb a "+" || Ascii.eqb a "-") eqn:Ea.
  - assert (Hs : parse_uint_loop s 0 = UintSyntax).
    { apply parse_uint_loop_not_digit; [done|apply Hpow; lia|].
      destruct i as [|i]; [|by exists i, b].
      cbn in Hget. injection Hget as ->. destruct (Hsign eq_refl) as [H1 H2].
      apply orb_true_iff in Ea as [Ea|Ea]; apply Ascii.eqb_eq in Ea; done. }
    unfold ParseUint. destruct s as [|a' s']; [done|]. by rewrite Hs.
  - unfold ParseUint.
    rewrite (parse_uint_loop_not_digit (String a s) 0); [done|done| |by exists i, b].
    apply Hpow. cbn [String.length]. lia.
Qed.

(** [Atoi] gives no positive number for a string that begins with the
    minus sign. *)
Lemma Atoi_minus (s : string) : Atoi (String "-" s) <= 0.
Proof.
  unfold Atoi, ParseInt. cbn [Ascii.eqb Bool.eqb orb andb negb].
  change (Ascii.eqb "-" "+") with false. change (Ascii.eqb "-" "-") with true.
  cbn [orb andb negb].
  destruct (ParseUint s) as [n| |] eqn:E; [|done|by vm_compute].
  destruct (2 ^ 63 <? n); [by vm_compute|].
  unfold ParseUint in E. destruct s as [|a s']; [done|].
  apply parse_uint_loop_ge in E. lia.
Qed.

Section Attempt.
Variable RetryTimes : Z.
Variable RI RT : Context -> RelayMode -> option OpenAIErrorWithStatusCode.
Variable policy : OpenAIError -> bool.

Lemma log_lines_on_error (c : Context) (err : OpenAIErrorWithStatusCode) :
  log_lines (on_error RetryTimes policy c err) =
  [EvSysError ("relay error (channel #" ++ FormatInt (GetInt c "channel_id") ++ "): "
               ++ Message (Error (err_after_branch (retryTimes_of RetryTimes c) err)))%string].
Proof.
  unfold on_error, log_lines. cbv zeta.
  destruct (0 <? retryTimes_of RetryTimes c), (policy _); reflexivity.
Qed.

(** X2. One attempt.  When the pipeline returns no error, [Relay] does
    nothing more: no answer, no log line, no disablement.  When it returns
    an error, the trace is the pipeline call, then one answer to the
    client, then one log line, and only then the call of
    [disableChannel], if any, and no more than one.  The log line names
    the channel of the context (channel #0 when the context holds none)
    and carries the
    message of the error as it stands after the branch on the budget: on
    a terminal failure of status 429 that is the substituted message, the
    message upstream gave is not logged. *)
Theorem one_answer_then_one_log_line (c : Context) :
  let t := Relay RetryTimes RI RT policy c in
  let mode := relayMode_of_path (URL_Path c) in
  match (dispatch RI RT c mode).2 with
  | None => t = [pipeline_call mode]
  | Some err =>
      let terminal := retryTimes_of RetryTimes c <=? 0 in
      let message :=
        if terminal && (StatusCode err =? 429) then saturated_message
        else Message (Error err) in
      let line := fun channel : string =>
        EvSysError ("relay error (channel #" ++ channel ++ "): " ++ message)%string in
      (exists answer rest,
         t = pipeline_call mode :: answer
               :: line (FormatInt (GetInt c "channel_id")) :: rest
         /\ answers t = [answer]
         /\ log_lines t = [line (FormatInt (GetInt c "channel_id"))]
         /\ length (disablements rest) = length rest
         /\ (length rest <= 1)%nat)
      /\ (Keys c !! "channel_id"%string = None -> log_lines t = [line "0"%string])
  end.
Proof.
  cbv zeta. rewrite Relay_unfold. cbv zeta.
  set (mode := relayMode_of_path (URL_Path c)).
  destruct ((dispatch RI RT c mode).2) as [err|]; [|done].
  assert (Emsg : Message (Error (err_after_branch (retryTimes_of RetryTimes c) err))
                 = if (retryTimes_of RetryTimes c <=? 0) && (StatusCode err =? 429)
                   then saturated_message else Message (Error err)).
  { unfold err_after_branch, StatusTooManyRequests.
    destruct (Z.ltb_spec 0 (retryTimes_of RetryTimes c)),
             (Z.leb_spec (retryTimes_of RetryTimes c) 0); try lia; cbn [andb]; [done|].
    by destruct (StatusCode err =? 429). }
  assert (Hlog : log_lines (pipeline_call mode :: on_error RetryTimes policy c err)
                 = log_lines (on_error RetryTimes policy c err)) by (by destruct mode).
  split.
  - unfold on_error at 1. cbv zeta. rewrite Emsg. eexists _, _.
    split; [reflexivity|]. split; [|split].
    + unfold on_error. cbv zeta.
      destruct mode, (0 <? retryTimes_of RetryTimes c), (policy _); reflexivity.
    + rewrite Hlog, log_lines_on_error. by rewrite Emsg.
    + destruct (policy _); cbn; split; (done || lia).
  - intros Hk. rewrite Hlog, log_lines_on_error, Emsg.
    unfold GetInt. by rewrite Hk.
Qed.

End Attempt.

(** X3. A value of the query [retry] that is not a number ends the
    chain.  When the value (of at most 19 bytes) holds a byte that is
    neither a digit nor a sign in front, [Atoi] gives 0 and drops its
    error; when the value begins with the minus sign, [Atoi] gives no
    positive number.  The value is not empty, so the process-wide default
    is not taken, whatever it is: the failed attempt is terminal and the
    client is answered by the error envelope. *)
Theorem retry_not_a_number_is_terminal (RetryTimes : Z)
    (RI RT : Context -> RelayMode -> option OpenAIErrorWithStatusCode)
    (policy : OpenAIError -> bool)
    (c : Context) (err : OpenAIErrorWithStatusCode) :
  attempt_fails RI RT c err ->
  let s := Query c "retry" in
  ((String.length s <= 19)%nat
   /\ exists i a, String.get i s = Some a /\ digit_of_ascii a = None
                  /\ (i = 0%nat -> a <> "+"%char /\ a <> "-"%char))
  \/ (exists rest, s = String "-" rest) ->
  retryTimes_of RetryTimes c = Atoi s
  /\ Atoi s <= 0
  /\ answers (Relay RetryTimes RI RT policy c) =
       [EvJSON (StatusCode err)
          {| Message := if StatusCode err =? 429 then saturated_message
                        else Message (Error err);
             Type_ := Type_ (Error err);
             Param := Param (Error err);
             Code := Code (Error err) |}].
Proof.
  intros Hfail s Hs.
  assert (Hne : s <> EmptyString).
  { destruct Hs as [(_ & i & a & Hget & _)|[rest ->]]; [|done].
    intros E. rewrite E in Hget. by destruct i. }
  assert (Hb : retryTimes_of RetryTimes c = Atoi s).
  { unfold retryTimes_of. fold s. cbv zeta.
    destruct (String.eqb_spec s EmptyString); done. }
  assert (Hle : Atoi s <= 0).
  { destruct Hs as [[Hlen Hbad]|[rest ->]]; [|apply Atoi_minus].
    by rewrite Atoi_not_a_number. }
  split; [done|]. split; [done|].
  rewrite (answers_Relay_failed RetryTimes policy RI RT c err Hfail), answers_on_error.
  cbv zeta. rewrite Hb.
  replace (0 <? Atoi s) with false by (symmetry; apply Z.ltb_ge; lia).
  by rewrite err_after_branch_terminal.
Qed.

Lemma retry_not_a_number_is_terminal_witness :
  retryTimes_of 3 (Examples.chat_request "2x") = 0
  /\ answers (Relay 3 (Examples.always_fails Examples.quota_exhausted)
                (Examples.always_fails Examples.quota_exhausted)
                Examples.disable_on_insufficient_quota (Examples.chat_request "2x"))
     = [EvJSON 401 (Error Examples.quota_exhausted)].
Proof.
  destruct (retry_not_a_number_is_terminal 3
              (Examples.always_fails Examples.quota_exhausted)
              (Examples.always_fails Examples.quota_exhausted)
              Examples.disable_on_insufficient_quota
              (Examples.chat_request "2x") Examples.quota_exhausted eq_refl)
    as (E & _ & A).
  - left. split; [vm_compute; lia|].
    exists 1%nat, "x"%char. split; [reflexivity|]. split; [reflexivity|]. lia.
  - split; [exact E | exact A].
Defined.

(** X5. The handlers of the routes that are not served.
    [RelayNotImplemented] answers every request alike, with status 501;
    [RelayNotFound] answers with status 404 and a message that holds the
    method and the path of the request, so that two requests of the same
    method have the same answer only on the same path.  Neither calls a
    pipeline or the upstream, writes a log line or touches the ledger. *)
Theorem unserved_routes (c c' : Context) :
  RelayNotImplemented c = RelayNotImplemented c'
  /\ answers (RelayNotImplemented c) =
       [EvJSON 501 {| Message := "API not implemented";
                      Type_ := "one_api_error";
                      Param := EmptyString;
                      Code := CodeString "api_not_implemented" |}]
  /\ answers (RelayNotFound c) =
       [EvJSON 404 {| Message := ("API not found: " ++ Method c ++ ":" ++ URL_Path c)%string;
                      Type_ := "one_api_error";
                      Param := EmptyString;
                      Code := CodeString "api_not_found" |}]
  /\ (Method c = Method c' ->
      (RelayNotFound c = RelayNotFound c' <-> URL_Path c = URL_Path c'))
  /\ Forall (fun t => t = answers t /\ List.filter is_pipeline_call t = []
                      /\ upstream_requests t = [] /\ log_lines t = []
                      /\ ledger t = [] /\ disablements t = [])
       [RelayNotImplemented c; RelayNotFound c].
Proof.
  split; [done|]. split; [done|]. split; [done|]. split.
  - intros Hm. unfold RelayNotFound. rewrite Hm. split.
    + intros [= H]. revert H. generalize (Method c'). intros m.
      induction m as [|a m IH]; cbn; [intros [= H]; exact H|].
      intros [= H]. by apply IH.
    + by intros ->.
  - repeat (apply Forall_cons; split; [by repeat split|]). by apply Forall_nil.
Qed.

End AttemptFacts.

(* ===================================================================== *)
(** * Every run of the audio forwarder                                   *)
(* ===================================================================== *)

Module ForwarderFacts.
Import GoLib Gin Float64 Common Controller Spec Float64Facts HeaderFacts AudioFacts.

Lemma filter_nil_Forall {A} (f : A -> bool) (P : A -> Prop) (l : list A) :
  Forall P l -> (forall x, P x -> f x = false) -> List.filter f l = [].
Proof.
  intros H Hf. induction H as [|x l Hx _ IH]; [done|].
  cbn. by rewrite (Hf x Hx).
Qed.

Lemma upstream_requests_app (t1 t2 : list Event) :
  upstream_requests (t1 ++ t2) = upstream_requests t1 ++ upstream_requests t2.
Proof.
  induction t1 as [|e t1 IH]; [done|]. destruct e; cbn; by rewrite ?IH.
Qed.

Lemma upstream_requests_nil_Forall (P : Event -> Prop) (l : list Event) :
  Forall P l -> (forall req, ~ P (EvDo req)) -> upstream_requests l = [].
Proof.
  intros H Hf. induction H as [|x l Hx _ IH]; [done|].
  destruct x; cbn; try done. by destruct (Hf req).
Qed.

(** The events between the upstream answer and the deferred calls. *)
Abbreviation relay_phase e :=
  (match e with
   | EvReqBodyClose | EvInboundBodyClose | EvHeaderSet _ _ | EvPanic
   | EvWriteHeader _ | EvWrite _ | EvRespBodyClose | EvJSON _ _ => True
   | _ => False
   end).

(** The events of the deferred accounting. *)
Abbreviation accounting_phase e :=
  (match e with
   | EvPostConsumeTokenQuota _ _ | EvCacheUpdateUserQuota _
   | EvRecordConsumeLog _ _ _ _ _ _ | EvUpdateUserUsedQuotaAndRequestCount _ _
   | EvUpdateChannelUsedQuota _ _ | EvSysError _ => True
   | _ => False
   end).

Lemma copy_headers_events (l : list (string * list string)) :
  Forall (fun e => relay_phase e) (copy_headers l).1.
Proof.
  induction l as [|[k [|v0 vs]] l IH]; cbn [copy_headers].
  - by apply Forall_nil.
  - by repeat constructor.
  - destruct (copy_headers l) as [evs ok]. cbn [fst] in *. by constructor.
Qed.

Lemma after_do_events env resp : Forall (fun e => relay_phase e) (after_do env resp).
Proof.
  unfold after_do. pose proof (copy_headers_events (Range_order env)) as Hc.
  destruct (copy_headers _) as [sets ok]. cbn [fst] in Hc.
  destruct (ReqBody_Close_ok env), (InboundBody_Close_ok env); cbn [negb];
    try (by repeat constructor).
  do 2 (constructor; [done|]). apply Forall_app. split; [done|].
  unfold after_WriteHeader.
  destruct ok, (Copy_fails_after env), (RespBody_Close_ok env); by repeat constructor.
Qed.

Section Runs.
Variable QuotaPerUnit : float64.
Variable ChannelBaseURLs : list string.
Variable GetModelRatio GetGroupRatio : string -> float64.
Variable unrepresentable : float64 -> Z.

Lemma accounting_events env c resp duration :
  Forall (fun e => accounting_phase e)
    (deferred_accounting QuotaPerUnit GetModelRatio GetGroupRatio
       unrepresentable env c resp duration).
Proof.
  unfold deferred_accounting.
  destruct (resp_StatusCode resp =? 200); [|by apply Forall_nil]. cbv zeta.
  destruct (PostConsumeTokenQuota_err env), (CacheUpdateUserQuota_err env),
    (audio_quota QuotaPerUnit unrepresentable duration =? 0); by repeat constructor.
Qed.

(** The request the forwarder builds. *)
Lemma after_open_cases env c form file :
  let t := after_open QuotaPerUnit ChannelBaseURLs GetModelRatio GetGroupRatio
             unrepresentable env c form file in
  (exists code message,
     t = [EvJSON code (audio_error message EmptyString)] /\ (code = 400 \/ code = 500))
  \/ t = [EvPanic]
  \/ (exists req e,
        Do env = inl e
        /\ t = [EvDo req; EvSysLog ("RelayAudio do_request_failed " ++ e)%string;
                EvJSON 500 (audio_error "do_request_failed" e)])
  \/ (exists req header resp,
        Do env = inr resp
        /\ binary_Read file = Some header
        /\ t = EvDo req :: after_do env resp
                 ++ deferred_accounting QuotaPerUnit GetModelRatio GetGroupRatio
                      unrepresentable env c resp
                      (estimate_duration (Size (File form)) header)).
Proof.
  cbv zeta. unfold after_open.
  destruct (binary_Read file) as [header|]; [|left; eexists _, _; split; [done|by left]].
  destruct (index_ChannelBaseURLs _ _) as [base|]; [|by right; left].
  destruct (CreateFormFile_ok env); cbn [negb];
    [|left; eexists _, _; split; [done|by right]].
  destruct (NewRequest_ok env); cbn [negb];
    [|left; eexists _, _; split; [done|by right]].
  destruct (Do env) as [e|resp].
  - right; right; left. by eexists _, _.
  - right; right; right. by eexists _, _, _.
Qed.

(** X6. Nothing is billed unless upstream has answered 200: whenever a
    run of the forwarder updates the ledger, it has sent one request
    upstream, [httpClient.Do] has returned a response, and the status of
    that response is 200.  No run sends more than one request. *)
Theorem billing_needs_upstream_200 env c :
  let t := RelayAudio QuotaPerUnit ChannelBaseURLs GetModelRatio GetGroupRatio
             unrepresentable env c in
  (length (upstream_requests t) <= 1)%nat
  /\ (ledger t <> [] ->
      exists req resp,
        upstream_requests t = [req] /\ Do env = inr resp
        /\ resp_StatusCode resp = 200).
Proof.
  cbv zeta. unfold RelayAudio.
  destruct (ShouldBind env) as [form|]; [|by split; [cbn; lia|]].
  destruct (File_Open env) as [file|]; [|by split; [cbn; lia|]].
  destruct (after_open_cases env c form file)
    as [(code & m & -> & _)|[->|[(req & e & _ & ->)|(req & header & resp & HD & _ & ->)]]];
    try (by split; [cbn; lia|]).
  assert (E : upstream_requests
                ((EvDo req :: after_do env resp
                    ++ deferred_accounting QuotaPerUnit GetModelRatio GetGroupRatio
                         unrepresentable env c resp
                         (estimate_duration (Size (File form)) header))
                 ++ [EvFileClose]) = [req]).
  { cbn [app upstream_requests]. rewrite !upstream_requests_app.
    rewrite (upstream_requests_nil_Forall _ _ (after_do_events env resp))
      by (by intros ? []).
    by rewrite (upstream_requests_nil_Forall _ _ (accounting_events env c resp _))
      by (by intros ? []). }
  rewrite E. split; [cbn; lia|].
  intros Hl. exists req, resp. split; [done|]. split; [done|].
  unfold ledger in Hl. cbn [app List.filter is_ledger] in Hl.
  rewrite !List.filter_app in Hl.
  rewrite (filter_nil_Forall is_ledger _ _ (after_do_events env resp)) in Hl
    by (by intros []).
  cbn [app List.filter is_ledger] in Hl. rewrite app_nil_r in Hl.
  fold (ledger (deferred_accounting QuotaPerUnit GetModelRatio GetGroupRatio
                  unrepresentable env c resp
                  (estimate_duration (Size (File form)) header))) in Hl.
  rewrite ledger_accounting in Hl.
  destruct (Z.eqb_spec (resp_StatusCode resp) 200); done.
Qed.

(** X7. The failures before the upstream call.  A form that cannot be
    bound, an upload that cannot be opened and a header that cannot be
    read are answered with status 400; a multipart part or an outbound
    request that cannot be built, with status 500; each with one envelope
    of type [one_api_error] and code [audio_error], in this order of
    precedence.  The upload is closed once it has been opened.  In a run
    that sends nothing upstream the ledger is not touched and nothing is
    logged, and the client has that one envelope, unless the handler
    panicked. *)
Theorem failure_before_upstream env c :
  let t := RelayAudio QuotaPerUnit ChannelBaseURLs GetModelRatio GetGroupRatio
             unrepresentable env c in
  let rejected := fun (code : Z) (message : string) (deferred : list Event) =>
    t = EvJSON code {| Message := message;
                       Type_ := "one_api_error";
                       Param := EmptyString;
                       Code := CodeString "audio_error" |} :: deferred in
  (ShouldBind env = None -> rejected 400 "bind_form_failed"%string [])
  /\ (forall form,
        ShouldBind env = Some form -> File_Open env = None ->
        rejected 400 "Open file error"%string [])
  /\ (forall form file,
        ShouldBind env = Some form -> File_Open env = Some file ->
        ((length file < 44)%nat ->
         rejected 400 "Read file error"%string [EvFileClose])
        /\ ((44 <= length file)%nat ->
            is_Some (index_ChannelBaseURLs ChannelBaseURLs (GetInt c "channel")) ->
            (CreateFormFile_ok env = false ->
             rejected 500 "create_form_file_failed"%string [EvFileClose])
            /\ (CreateFormFile_ok env = true -> NewRequest_ok env = false ->
                rejected 500 "new_request_failed"%string [EvFileClose])))
  /\ (upstream_requests t = [] ->
      ledger t = [] /\ log_lines t = []
      /\ (EvPanic ∈ t
          \/ exists code message,
               answers t = [EvJSON code (audio_error message EmptyString)]
               /\ writer_events t = answers t
               /\ (code = 400 \/ code = 500))).
Proof.
  cbv zeta. unfold RelayAudio. split; [by intros ->|]. split; [by intros form -> ->|].
  split.
  - intros form file -> ->. unfold after_open. split.
    + intros Hlen. by rewrite binary_Read_short.
    + intros Hlen [base ->]. rewrite binary_Read_layout by done. split.
      * by intros ->.
      * by intros -> ->.
  - destruct (ShouldBind env) as [form|];
      [|intros _; do 2 (split; [done|]); right; eexists _, _; split; [done|]; split; [done|by left]].
    destruct (File_Open env) as [file|];
      [|intros _; do 2 (split; [done|]); right; eexists _, _; split; [done|]; split; [done|by left]].
    destruct (after_open_cases env c form file)
      as [(code & m & -> & Hcode)|[->|[(req & e & _ & ->)|(req & header & resp & HD & _ & ->)]]];
      try done.
    + intros _. do 2 (split; [done|]). right. by exists code, m.
    + intros _. do 2 (split; [done|]). left. set_solver.
Qed.

(** Once opened, the upload is closed once, and last. *)
Lemma file_closed_when_opened env c form file :
  ShouldBind env = Some form -> File_Open env = Some file ->
  let t := RelayAudio QuotaPerUnit ChannelBaseURLs GetModelRatio GetGroupRatio
             unrepresentable env c in
  closes_file t = 1%nat /\ last t = Some EvFileClose.
Proof.
  intros HB HO. cbv zeta. unfold RelayAudio. rewrite HB, HO.
  split; [|by rewrite last_snoc].
  unfold closes_file. rewrite List.filter_app. cbn [List.filter is_FileClose].
  rewrite length_app. cbn [length].
  destruct (after_open_cases env c form file)
    as [(code & m & -> & _)|[->|[(req & e & _ & ->)|(req & header & resp & HD & _ & ->)]]];
    try done.
  cbn [List.filter is_FileClose]. rewrite List.filter_app.
  rewrite (filter_nil_Forall is_FileClose _ _ (after_do_events env resp))
    by (by intros []).
  by rewrite (filter_nil_Forall is_FileClose _ _ (accounting_events env c resp _))
    by (by intros []).
Qed.

(** X8. The uploaded file is closed by a deferred call: it is closed
    once, as the last thing the handler does, on every path after it has
    been opened, a panic included, and never otherwise. *)
Theorem file_closed_once_last env c :
  let t := RelayAudio QuotaPerUnit ChannelBaseURLs GetModelRatio GetGroupRatio
             unrepresentable env c in
  match ShouldBind env, File_Open env with
  | Some _, Some _ => closes_file t = 1%nat /\ last t = Some EvFileClose
  | _, _ => closes_file t = 0%nat
  end.
Proof.
  cbv zeta.
  destruct (ShouldBind env) as [form|] eqn:HB;
    [|by unfold RelayAudio; rewrite HB].
  destruct (File_Open env) as [file|] eqn:HO;
    [|by unfold RelayAudio; rewrite HB, HO].
  by apply (file_closed_when_opened env c form file).
Qed.

(** Up to the upstream call. *)
Lemma RelayAudio_called env c form file base :
  upstream_called ChannelBaseURLs env c form file base ->
  exists header,
    binary_Read file = Some header
    /\ RelayAudio QuotaPerUnit ChannelBaseURLs GetModelRatio GetGroupRatio
         unrepresentable env c =
       EvDo {| req_Method := Method c;
               req_URL := ((if String.eqb (GetString c "base_url") EmptyString
                            then base else GetString c "base_url")
                           ++ URL_Path c)%string;
               req_Authorization := Header_Get (Header c) "Authorization";
               req_Accept := Header_Get (Header c) "Accept";
               part_file_name := Filename (File form);
               part_file := file;
               part_model := Model form;
               part_prompt := Prompt form;
               part_response_format := ResponseFormat form;
               part_temperature := Temperature form;
               part_language := Language form |}
       :: match Do env with
          | inl e => [EvSysLog ("RelayAudio do_request_failed " ++ e)%string;
                      EvJSON 500 (audio_error "do_request_failed" e)]
          | inr resp =>
              after_do env resp
              ++ deferred_accounting QuotaPerUnit GetModelRatio GetGroupRatio
                   unrepresentable env c resp
                   (estimate_duration (Size (File form)) header)
          end ++ [EvFileClose].
Proof.
  intros (HB & HO & Hlen & HI & HC & HN).
  eexists. split; [by apply binary_Read_layout|].
  unfold RelayAudio, after_open.
  rewrite HB, HO, (binary_Read_layout file Hlen), HI, HC, HN. cbn [negb].
  destruct (String.eqb _ EmptyString); by destruct (Do env).
Qed.

(** X9. The request sent upstream.  The URL is the path of the inbound
    request behind the base URL of the channel, or behind the [base_url]
    of the context when that is not empty; the query of the inbound
    request is not part of it.  The method, the [Authorization] and the
    [Accept] header are those of the inbound request.  The file part
    holds the whole upload, the 44 bytes read as a header included, under
    the name of the upload, and the five fields are those of the form.
    (The source drops the errors of [file.Seek] and of the [io.Copy] of
    the upload into the part; both are taken to succeed.) *)
Theorem outbound_request env c form file base :
  upstream_called ChannelBaseURLs env c form file base ->
  upstream_requests
    (RelayAudio QuotaPerUnit ChannelBaseURLs GetModelRatio GetGroupRatio
       unrepresentable env c) =
  [ {| req_Method := Method c;
       req_URL := ((if String.eqb (GetString c "base_url") EmptyString
                    then base else GetString c "base_url")
                   ++ URL_Path c)%string;
       req_Authorization := Header_Get (Header c) "Authorization";
       req_Accept := Header_Get (Header c) "Accept";
       part_file_name := Filename (File form);
       part_file := file;
       part_model := Model form;
       part_prompt := Prompt form;
       part_response_format := ResponseFormat form;
       part_temperature := Temperature form;
       part_language := Language form |} ].
Proof.
  intros H. destruct (RelayAudio_called _ _ _ _ _ H) as (header & _ & ->).
  cbn [upstream_requests]. f_equal. rewrite upstream_requests_app.
  destruct (Do env) as [e|resp]; [done|].
  rewrite upstream_requests_app.
  rewrite (upstream_requests_nil_Forall _ _ (after_do_events env resp))
    by (by intros ? []).
  by rewrite (upstream_requests_nil_Forall _ _ (accounting_events env c resp _))
    by (by intros ? []).
Qed.

(** X10. An upstream call that fails.  The client is answered with
    status 500 and the envelope [do_request_failed], whose [param] is the
    text of the error; the same text goes to the log.  Nothing of a
    response is relayed, the ledger is not touched, and the handler closes
    neither request body; the upload is closed. *)
Theorem upstream_error_is_reported env c form file base e :
  upstream_called ChannelBaseURLs env c form file base ->
  Do env = inl e ->
  let t := RelayAudio QuotaPerUnit ChannelBaseURLs GetModelRatio GetGroupRatio
             unrepresentable env c in
  writer_events t =
    [EvJSON 500 {| Message := "do_request_failed";
                   Type_ := "one_api_error";
                   Param := e;
                   Code := CodeString "audio_error" |}]
  /\ answers t = writer_events t
  /\ log_lines t = [EvSysLog ("RelayAudio do_request_failed " ++ e)%string]
  /\ ledger t = []
  /\ closes_request_body t = 0%nat
  /\ closes_inbound_body t = 0%nat
  /\ closes_file t = 1%nat.
Proof.
  intros H HD. cbv zeta.
  destruct (RelayAudio_called _ _ _ _ _ H) as (header & _ & ->). by rewrite HD.
Qed.

Lemma RelayAudio_answered env c form file header resp :
  upstream_answered ChannelBaseURLs env c form file header resp ->
  exists req,
    RelayAudio QuotaPerUnit ChannelBaseURLs GetModelRatio GetGroupRatio
      unrepresentable env c =
    (EvDo req :: after_do env resp)
    ++ deferred_accounting QuotaPerUnit GetModelRatio GetGroupRatio
         unrepresentable env c resp (estimate_duration (Size (File form)) header)
    ++ [EvFileClose].
Proof.
  intros H.
  destruct (RelayAudio_upstream QuotaPerUnit _ GetModelRatio GetGroupRatio
              unrepresentable _ _ _ _ _ _ H) as [req ->].
  by exists req.
Qed.

(** X11. A close of a request body that fails.  When [req.Body.Close()]
    or [c.Request.Body.Close()] returns an error after upstream has
    answered, the client is answered with status 500 and the envelope
    [close_request_body_failed], the same for both; no header, no status
    and no byte of the upstream response is relayed, and the response
    body is not closed.  The deferred accounting runs all the same: with
    an upstream status of 200 the token quota is debited. *)
Theorem close_failure_still_bills env c form file header resp :
  upstream_answered ChannelBaseURLs env c form file header resp ->
  ReqBody_Close_ok env = false \/ InboundBody_Close_ok env = false ->
  let t := RelayAudio QuotaPerUnit ChannelBaseURLs GetModelRatio GetGroupRatio
             unrepresentable env c in
  writer_events t =
    [EvJSON 500 {| Message := "close_request_body_failed";
                   Type_ := "one_api_error";
                   Param := EmptyString;
                   Code := CodeString "audio_error" |}]
  /\ closes_inbound_body t = (if ReqBody_Close_ok env then 1 else 0)%nat
  /\ closes_response_body t = 0%nat
  /\ (resp_StatusCode resp = 200 ->
      EvPostConsumeTokenQuota (GetInt c "token_id")
        (audio_quota QuotaPerUnit unrepresentable
           (estimate_duration (Size (File form)) header)) ∈ t).
Proof.
  intros H Hclose. cbv zeta.
  destruct (RelayAudio_answered _ _ _ _ _ _ H) as [req ->].
  set (acct := deferred_accounting _ _ _ _ _ _ _ _).
  assert (Hw : writer_events acct = []) by apply writer_events_accounting.
  assert (Hi : List.filter is_InboundBodyClose acct = [])
    by (apply (filter_nil_Forall _ _ _ (accounting_events env c resp _)); by intros []).
  assert (Hr : List.filter is_RespBodyClose acct = [])
    by (apply (filter_nil_Forall _ _ _ (accounting_events env c resp _)); by intros []).
  assert (Ea : after_do env resp =
               if ReqBody_Close_ok env
               then [EvReqBodyClose; EvInboundBodyClose;
                     EvJSON 500 (audio_error "close_request_body_failed" EmptyString)]
               else [EvReqBodyClose;
                     EvJSON 500 (audio_error "close_request_body_failed" EmptyString)]).
  { unfold after_do. destruct (ReqBody_Close_ok env); [|done].
    destruct (InboundBody_Close_ok env); [|done].
    destruct Hclose as [Hf|Hf]; discriminate Hf. }
  rewrite Ea. split; [|split; [|split]].
  - unfold writer_events in *. rewrite !List.filter_app, Hw.
    by destruct (ReqBody_Close_ok env).
  - unfold closes_inbound_body. rewrite !List.filter_app, Hi.
    by destruct (ReqBody_Close_ok env).
  - unfold closes_response_body. rewrite !List.filter_app, Hr.
    by destruct (ReqBody_Close_ok env).
  - intros E200. apply elem_of_app. right. apply elem_of_app. left.
    unfold acct, deferred_accounting. rewrite E200. cbv zeta.
    change (200 =? 200) with true. cbv iota. cbn [app]. apply elem_of_cons. by left.
Qed.

(** X12. Errors of the ledger.  When [PostConsumeTokenQuota] or
    [CacheUpdateUserQuota] returns an error, the error goes to the log,
    one line each, and that is all: the client is written what it is
    written without the errors, and every update of the ledger is made
    as without them, those behind the failed one included. *)
Theorem ledger_errors_are_logged env c form file header resp :
  upstream_answered ChannelBaseURLs env c form file header resp ->
  let t := RelayAudio QuotaPerUnit ChannelBaseURLs GetModelRatio GetGroupRatio
             unrepresentable env c in
  let line := fun (what : string) (err : option string) =>
    match err with
    | Some e => [EvSysError (what ++ e)%string]
    | None => []
    end in
  let quota := audio_quota QuotaPerUnit unrepresentable
                 (estimate_duration (Size (File form)) header) in
  log_lines t =
    (if resp_StatusCode resp =? 200 then
       line "error consuming token remain quota: "%string (PostConsumeTokenQuota_err env)
       ++ line "error update user quota cache: "%string (CacheUpdateUserQuota_err env)
     else [])
  /\ writer_events t = writer_events (after_do env resp)
  /\ ledger t =
       (if resp_StatusCode resp =? 200 then
          EvPostConsumeTokenQuota (GetInt c "token_id") quota
          :: EvCacheUpdateUserQuota (GetInt c "id")
          :: (if quota =? 0 then []
              else [EvRecordConsumeLog (GetInt c "id") "whisper-1"
                      (GetString c "token_name") quota
                      (GetModelRatio "whisper-1")
                      (GetGroupRatio (GetString c "group"));
                    EvUpdateUserUsedQuotaAndRequestCount (GetInt c "id") quota;
                    EvUpdateChannelUsedQuota (GetInt c "channel_id") quota])
        else []).
Proof.
  intros H. cbv zeta.
  destruct (RelayAudio_answered _ _ _ _ _ _ H) as [req ->].
  split; [|split].
  - unfold log_lines. rewrite !List.filter_app. cbn [List.filter is_log].
    rewrite (filter_nil_Forall is_log _ _ (after_do_events env resp)) by (by intros []).
    cbn [app]. rewrite app_nil_r. unfold deferred_accounting.
    destruct (resp_StatusCode resp =? 200); [|done]. cbv zeta.
    by destruct (PostConsumeTokenQuota_err env), (CacheUpdateUserQuota_err env),
      (audio_quota QuotaPerUnit unrepresentable _ =? 0).
  - unfold writer_events. rewrite !List.filter_app.
    fold (writer_events (deferred_accounting QuotaPerUnit GetModelRatio GetGroupRatio
                           unrepresentable env c resp
                           (estimate_duration (Size (File form)) header))).
    rewrite writer_events_accounting. cbn. by rewrite app_nil_r.
  - unfold ledger. rewrite !List.filter_app. cbn [List.filter is_ledger app].
    fold (ledger (after_do env resp)). rewrite ledger_after_do.
    cbn [app List.filter is_ledger]. rewrite app_nil_r. apply ledger_accounting.
Qed.

(** X13. Closing, once upstream has answered.  The body of the outbound
    request is closed once on every path, and so is the upload.  The body
    of the inbound request is closed once when the first close succeeded,
    and not at all otherwise.  The body of the upstream response is closed
    once when both closes succeeded, the loop over the headers ran to its
    end and the copy of the body succeeded, and not at all otherwise. *)
Theorem bodies_closed env c form file header resp :
  upstream_answered ChannelBaseURLs env c form file header resp ->
  let t := RelayAudio QuotaPerUnit ChannelBaseURLs GetModelRatio GetGroupRatio
             unrepresentable env c in
  closes_request_body t = 1%nat
  /\ closes_inbound_body t = (if ReqBody_Close_ok env then 1 else 0)%nat
  /\ closes_response_body t =
       (if ReqBody_Close_ok env && InboundBody_Close_ok env
           && (copy_headers (Range_order env)).2
           && bool_decide (Copy_fails_after env = None)
        then 1 else 0)%nat
  /\ closes_file t = 1%nat.
Proof.
  intros H. cbv zeta.
  split; [by eapply request_body_closed|].
  split; [|split; [by eapply response_body_closed_iff|]].
  - destruct (RelayAudio_answered _ _ _ _ _ _ H) as [req ->].
    unfold closes_inbound_body. rewrite !List.filter_app.
    rewrite (filter_nil_Forall is_InboundBodyClose _ _ (accounting_events env c resp _))
      by (by intros []).
    cbn [List.filter is_InboundBodyClose app]. rewrite app_nil_r.
    unfold after_do.
    pose proof (filter_copy_headers is_InboundBodyClose (Range_order env)
                  ltac:(done) ltac:(done)) as Hc.
    destruct (copy_headers _) as [sets ok]. cbn [fst] in Hc.
    destruct (ReqBody_Close_ok env), (InboundBody_Close_ok env); cbn; try done.
    rewrite List.filter_app, Hc. unfold after_WriteHeader.
    destruct ok, (Copy_fails_after env), (RespBody_Close_ok env); done.
  - destruct H as (HB & HO & _).
    by apply (file_closed_when_opened env c form file).
Qed.

Lemma suffix_behind (A B t1 t2 : list Event) (e : Event) (P : Event -> Prop) :
  A ++ B = t1 ++ e :: t2 -> Forall P A -> ~ P e ->
  exists B1, B = B1 ++ e :: t2.
Proof.
  revert t1. induction A as [|a A IH]; intros t1 E HA He; [by exists t1|].
  apply Forall_cons in HA as [Ha HA].
  destruct t1 as [|x t1]; cbn in E; injection E as -> E; [done|].
  by apply (IH t1).
Qed.

(** X14. The ledger is updated last.  In every run, once the first
    update of the ledger is made, nothing more is written to the client
    and nothing is sent upstream or closed, the upload apart: the
    accounting is deferred, and runs when the response has been relayed or
    the relay has failed. *)
Theorem response_before_billing env c (t1 t2 : list Event) (e : Event) :
  RelayAudio QuotaPerUnit ChannelBaseURLs GetModelRatio GetGroupRatio
    unrepresentable env c = t1 ++ e :: t2 ->
  is_ledger e = true ->
  writer_events t2 = []
  /\ upstream_requests t2 = []
  /\ closes_request_body t2 = 0%nat
  /\ closes_inbound_body t2 = 0%nat
  /\ closes_response_body t2 = 0%nat
  /\ upstream_requests t1 <> [].
Proof.
  unfold RelayAudio.
  destruct (ShouldBind env) as [form|];
    [|intros E; destruct t1 as [|? [|? ?]]; cbn in E; by injection E as <-].
  destruct (File_Open env) as [file|];
    [|intros E; destruct t1 as [|? [|? ?]]; cbn in E; by injection E as <-].
  destruct (after_open_cases env c form file)
    as [(code & m & -> & _)|[->|[(req & e' & _ & ->)|(req & header & resp & HD & _ & ->)]]].
  - intros E; destruct t1 as [|? [|? [|? ?]]]; cbn in E; injection E; intros; by subst.
  - intros E; destruct t1 as [|? [|? [|? ?]]]; cbn in E; injection E; intros; by subst.
  - intros E; destruct t1 as [|? [|? [|? [|? [|? ?]]]]]; cbn in E;
      injection E; intros; by subst.
  - set (acct := deferred_accounting _ _ _ _ _ _ _ _).
    intros E He. cbn [app] in E. rewrite <- app_assoc in E.
    change (EvDo req :: after_do env resp ++ acct ++ [EvFileClose])
      with ((EvDo req :: after_do env resp) ++ acct ++ [EvFileClose]) in E.
    assert (HA : Forall (fun e => relay_phase e \/ exists r, e = EvDo r)
                   (EvDo req :: after_do env resp)).
    { constructor; [by eauto|].
      eapply Forall_impl; [apply after_do_events|]. by left. }
    destruct (suffix_behind _ _ _ _ _ _ E HA) as [B1 EB].
    { intros [Hp|[r ->]]; [by destruct e|done]. }
    assert (Ht2 : Forall (fun e => accounting_phase e \/ e = EvFileClose) t2).
    { assert (Hall : Forall (fun e => accounting_phase e \/ e = EvFileClose)
                       (acct ++ [EvFileClose])).
      { apply Forall_app. split.
        - eapply Forall_impl; [apply accounting_events|]. by left.
        - by repeat constructor. }
      rewrite EB in Hall. apply Forall_app in Hall as [_ Hall].
      by apply Forall_cons in Hall as [_ Hall]. }
    split; [|split; [|split; [|split; [|split]]]].
    + apply (filter_nil_Forall _ _ _ Ht2). by intros [] [?|?].
    + apply (upstream_requests_nil_Forall _ _ Ht2). by intros ? [?|?].
    + unfold closes_request_body.
      rewrite (filter_nil_Forall is_ReqBodyClose _ _ Ht2); [done|]. by intros [] [?|?].
    + unfold closes_inbound_body.
      rewrite (filter_nil_Forall is_InboundBodyClose _ _ Ht2); [done|].
      by intros [] [?|?].
    + unfold closes_response_body.
      rewrite (filter_nil_Forall is_RespBodyClose _ _ Ht2); [done|]. by intros [] [?|?].
    + cbn [app] in E.
      assert (Hin : EvDo req ∈ t1).
      { destruct t1 as [|x t1]; cbn in E; injection E as <- E; [done|]. set_solver. }
      intros Hnil. clear -Hin Hnil.
      induction t1 as [|x t1 IH]; [by apply elem_of_nil in Hin|].
      apply elem_of_cons in Hin as [<-|Hin]; [done|].
      destruct x; cbn in Hnil; try done; by apply IH.
Qed.

(** The loop over the headers stops with a panic at an entry that has no
    value. *)
Lemma copy_headers_without_value (l : list (string * list string)) (k : string) :
  (k, []) ∈ l ->
  exists sets,
    copy_headers l = (sets ++ [EvPanic], false)
    /\ Forall (fun e => exists k v, e = EvHeaderSet k v) sets.
Proof.
  induction l as [|[k' [|v0 vs]] l IH]; intros Hel.
  - by apply elem_of_nil in Hel.
  - exists []. by split; [|apply Forall_nil].
  - apply elem_of_cons in Hel as [[=]|Hel].
    destruct (IH Hel) as (sets & E & Hs).
    exists (EvHeaderSet k' v0 :: sets). cbn [copy_headers]. rewrite E.
    split; [done|]. constructor; by eauto.
Qed.

(** X15. A header of the upstream response without a value.  The loop
    reads [v[0]] of every entry: at an entry with no value the handler
    panics, with both request bodies closed.  The client has been written
    no status and no body, the response body is left open, and the
    deferred calls run: the accounting, as with any upstream answer, and
    the close of the upload. *)
Theorem header_without_value_panics env c form file header resp (k : string) :
  upstream_answered ChannelBaseURLs env c form file header resp ->
  ReqBody_Close_ok env = true ->
  InboundBody_Close_ok env = true ->
  resp_Header resp !! k = Some [] ->
  let t := RelayAudio QuotaPerUnit ChannelBaseURLs GetModelRatio GetGroupRatio
             unrepresentable env c in
  EvPanic ∈ t
  /\ Forall (fun e => exists k v, e = EvHeaderSet k v) (writer_events t)
  /\ closes_response_body t = 0%nat
  /\ closes_file t = 1%nat
  /\ ledger t =
       ledger (deferred_accounting QuotaPerUnit GetModelRatio GetGroupRatio
                 unrepresentable env c resp
                 (estimate_duration (Size (File form)) header)).
Proof.
  intros H HR HI Hk. cbv zeta.
  pose proof (proj1 (file_closed_when_opened env c form file
                       ltac:(apply H) ltac:(apply H))) as Hf.
  cbv zeta in Hf.
  destruct (RelayAudio_answered _ _ _ _ _ _ H) as [req Et]. rewrite Et in *.
  set (acct := deferred_accounting _ _ _ _ _ _ _ _) in *.
  destruct (copy_headers_without_value (Range_order env) k) as (sets & Ec & Hsets).
  { destruct H as (_ & _ & _ & _ & _ & _ & _ & ->). by apply elem_of_map_to_list. }
  assert (Ea : after_do env resp
               = EvReqBodyClose :: EvInboundBodyClose :: sets ++ [EvPanic]).
  { unfold after_do. rewrite HR, HI, Ec. cbn [negb]. by rewrite app_nil_r. }
  rewrite Ea in *.
  assert (Hs : forall f : Event -> bool,
             (forall k v, f (EvHeaderSet k v) = false) -> List.filter f sets = []).
  { intros f Hfalse. apply (filter_nil_Forall _ _ _ Hsets). by intros ? (? & ? & ->). }
  split; [set_solver|]. split; [|split; [|split]].
  - unfold writer_events. rewrite !List.filter_app.
    fold (writer_events acct). unfold acct. rewrite writer_events_accounting.
    cbn [List.filter is_writer app]. rewrite List.filter_app. cbn.
    rewrite !app_nil_r. clear -Hsets.
    induction Hsets as [|x l (k & v & ->) _ IH]; [by apply Forall_nil|].
    cbn. constructor; by eauto.
  - unfold closes_response_body. rewrite !List.filter_app.
    rewrite (filter_nil_Forall is_RespBodyClose _ acct (accounting_events env c resp _))
      by (by intros []).
    cbn [List.filter is_RespBodyClose app]. rewrite List.filter_app, Hs by done. done.
  - exact Hf.
  - unfold ledger. rewrite !List.filter_app.
    cbn [List.filter is_ledger app]. rewrite List.filter_app, Hs by done.
    cbn. by rewrite app_nil_r.
Qed.

(** X21. The audio forwarder never retries.  Whatever fails, a run
    answers the client with at most one error envelope and never with a
    redirect; it calls no pipeline and disables no channel. *)
Theorem audio_is_never_retried env c :
  let t := RelayAudio QuotaPerUnit ChannelBaseURLs GetModelRatio GetGroupRatio
             unrepresentable env c in
  (length (answers t) <= 1)%nat
  /\ Forall (fun e => exists code err, e = EvJSON code err) (answers t)
  /\ disablements t = []
  /\ List.filter is_pipeline_call t = [].
Proof.
  cbv zeta. unfold RelayAudio.
  destruct (ShouldBind env) as [form|];
    [|split; [cbn; lia|]; split; [by repeat econstructor|done]].
  destruct (File_Open env) as [file|];
    [|split; [cbn; lia|]; split; [by repeat econstructor|done]].
  destruct (after_open_cases env c form file)
    as [(code & m & -> & _)|[->|[(req & e & _ & ->)|(req & header & resp & HD & _ & ->)]]];
    try (split; [cbn; lia|]; split; [by repeat econstructor|done]).
  set (acct := deferred_accounting _ _ _ _ _ _ _ _).
  assert (Ha : answers ((EvDo req :: after_do env resp ++ acct) ++ [EvFileClose])
               = answers (after_do env resp)).
  { unfold answers. cbn [app List.filter is_answer]. rewrite !List.filter_app.
    rewrite (filter_nil_Forall is_answer _ acct (accounting_events env c resp _))
      by (by intros []).
    cbn. by rewrite ?app_nil_r. }
  assert (Hd : forall l, Forall (fun e => relay_phase e \/ accounting_phase e
                                          \/ e = EvFileClose \/ exists r, e = EvDo r) l ->
                         disablements l = [] /\ List.filter is_pipeline_call l = []).
  { intros l Hl. induction Hl as [|x l Hx _ [IH1 IH2]]; [done|].
    destruct x; cbn; try done; destruct Hx as [[]|[[]|[?|[? ?]]]]; done. }
  rewrite Ha. split; [|split].
  - unfold answers, after_do.
    pose proof (filter_copy_headers is_answer (Range_order env)
                  ltac:(done) ltac:(done)) as Hc.
    destruct (copy_headers _) as [sets ok]. cbn [fst] in Hc.
    destruct (ReqBody_Close_ok env), (InboundBody_Close_ok env); cbn; try lia.
    rewrite List.filter_app, Hc. unfold after_WriteHeader.
    destruct ok, (Copy_fails_after env), (RespBody_Close_ok env); cbn; lia.
  - unfold answers, after_do.
    pose proof (filter_copy_headers is_answer (Range_order env)
                  ltac:(done) ltac:(done)) as Hc.
    destruct (copy_headers _) as [sets ok]. cbn [fst] in Hc.
    destruct (ReqBody_Close_ok env), (InboundBody_Close_ok env); cbn;
      try (by repeat econstructor).
    rewrite List.filter_app, Hc. unfold after_WriteHeader.
    destruct ok, (Copy_fails_after env), (RespBody_Close_ok env); cbn;
      by repeat econstructor.
  - apply Hd. apply Forall_app. split; [|by repeat constructor; right; right; left].
    constructor; [by right; right; right; eexists|].
    apply Forall_app. split.
    + eapply Forall_impl; [apply after_do_events|]. by left.
    + eapply Forall_impl; [apply accounting_events|]. by right; left.
Qed.

End Runs.

Section LateFailure.
Variable QuotaPerUnit : float64.
Variable ChannelBaseURLs : list string.
Variable GetModelRatio GetGroupRatio : string -> float64.
Variable unrepresentable : float64 -> Z.

(** X16. The status the client is sent when the relay fails behind
    [WriteHeader].  gin stores the status until the first [Write]: when a
    byte of the body has been copied, the header is out with the status
    of upstream, and the [c.JSON] of the failure does not change it; when
    none has been copied (the copy fails before its first byte, or the
    body is empty and the close of the response body fails), [c.JSON] puts
    500 in its place, and the client is sent 500.  Without a failure the
    client is sent the status of upstream.  The status of upstream is 200
    or above, as the responses that [net/http] hands on have. *)
Theorem status_after_late_failure env c form file header resp h0 :
  upstream_answered ChannelBaseURLs env c form file header resp ->
  ReqBody_Close_ok env = true ->
  InboundBody_Close_ok env = true ->
  header_values_present (resp_Header resp) ->
  200 <= resp_StatusCode resp ->
  let t := RelayAudio QuotaPerUnit ChannelBaseURLs GetModelRatio GetGroupRatio
             unrepresentable env c in
  fst <$> response_sent h0 t =
    Some (if fails_before_first_byte env resp then 500
          else resp_StatusCode resp).
Proof.
  intros H HR HI HP Hs. cbv zeta.
  destruct (response_sent_relayed QuotaPerUnit ChannelBaseURLs GetModelRatio
              GetGroupRatio unrepresentable env c form file header resp h0
              H HR HI HP) as (h1 & _ & _ & ->).
  replace (0 <? resp_StatusCode resp) with true
    by (symmetry; apply Z.ltb_lt; lia).
  by destruct (fails_before_first_byte env resp).
Qed.

(** X22. The headers the client is sent.  Under a key of the upstream
    response they hold its first value alone, and under any other key what
    was there before the handler ran; when the handler fails before a byte
    of the body is written, [c.JSON] has set its content type as well,
    where there was none. *)
Theorem headers_sent_exactly env c form file header resp h0 :
  upstream_answered ChannelBaseURLs env c form file header resp ->
  ReqBody_Close_ok env = true ->
  InboundBody_Close_ok env = true ->
  header_values_present (resp_Header resp) ->
  let t := RelayAudio QuotaPerUnit ChannelBaseURLs GetModelRatio GetGroupRatio
             unrepresentable env c in
  exists code h1,
    (forall k, h1 !! k = match resp_Header resp !! k with
                         | Some values => Some (take 1 values)
                         | None => h0 !! k
                         end)
    /\ response_sent h0 t
       = Some (code, if fails_before_first_byte env resp
                     then writeContentType jsonContentType h1 else h1).
Proof.
  intros H HR HI HP. cbv zeta.
  destruct (response_sent_relayed QuotaPerUnit ChannelBaseURLs GetModelRatio
              GetGroupRatio unrepresentable env c form file header resp h0
              H HR HI HP) as (h1 & Hin & Hout & ->).
  exists (if fails_before_first_byte env resp then 500
          else if 0 <? resp_StatusCode resp then resp_StatusCode resp else 200), h1.
  split.
  - intros k. destruct (resp_Header resp !! k) as [[|v0 vs]|] eqn:Ek.
    + by destruct (HP k [] Ek).
    + by apply (Hin k v0 vs).
    + by apply Hout.
  - by destruct (fails_before_first_byte env resp).
Qed.

End LateFailure.

Lemma billing_needs_upstream_200_witness :
  exists req resp,
    upstream_requests (Examples.run_audio Examples.wav_10s 200 None) = [req]
    /\ Do (Examples.audio_env Examples.wav_10s 200 None) = inr resp
    /\ resp_StatusCode resp = 200.
Proof.
  apply (billing_needs_upstream_200 Examples.quota_per_unit Examples.base_urls
           Examples.ratio_one Examples.ratio_one Examples.no_choice
           (Examples.audio_env Examples.wav_10s 200 None) Examples.audio_request).
  vm_compute. discriminate.
Defined.

Lemma example_upstream_called (do : string + Response)
    (order : list (string * list string)) (req_close inbound_close : bool)
    (copy : option nat) (resp_close : bool) (post cache : option string) :
  upstream_called Examples.base_urls
    (Examples.audio_env_of Examples.wav_10s do order req_close inbound_close
       copy resp_close post cache)
    Examples.audio_request (Examples.audio_form 44) Examples.wav_10s
    "https://api.openai.com".
Proof. repeat split; reflexivity. Defined.

Lemma outbound_request_witness :
  upstream_requests
    (RelayAudio Examples.quota_per_unit Examples.base_urls
       Examples.ratio_one Examples.ratio_one Examples.no_choice
       (Examples.audio_env_of Examples.wav_10s (inl "connection refused"%string) []
          true true None true None None)
       Examples.audio_request) =
  [ {| req_Method := "POST";
       req_URL := "https://api.openai.com/v1/audio/transcriptions";
       req_Authorization := "Bearer sk-test";
       req_Accept := EmptyString;
       part_file_name := "speech.wav";
       part_file := Examples.wav_10s;
       part_model := "whisper-1";
       part_prompt := EmptyString;
       part_response_format := "json";
       part_temperature := S754_zero false;
       part_language := "en" |} ].
Proof.
  exact (outbound_request Examples.quota_per_unit Examples.base_urls
           Examples.ratio_one Examples.ratio_one Examples.no_choice _ _ _ _ _
           (example_upstream_called (inl "connection refused"%string) []
              true true None true None None)).
Defined.

Lemma upstream_error_is_reported_witness :
  let t := RelayAudio Examples.quota_per_unit Examples.base_urls
             Examples.ratio_one Examples.ratio_one Examples.no_choice
             (Examples.audio_env_of Examples.wav_10s (inl "connection refused"%string) []
                true true None true None None)
             Examples.audio_request in
  answers t = [EvJSON 500 (audio_error "do_request_failed" "connection refused")]
  /\ ledger t = [].
Proof.
  cbv zeta.
  destruct (upstream_error_is_reported Examples.quota_per_unit Examples.base_urls
              Examples.ratio_one Examples.ratio_one Examples.no_choice _ _ _ _ _
              "connection refused"%string
              (example_upstream_called (inl "connection refused"%string) []
                 true true None true None None) eq_refl)
    as (W & A & _ & L & _).
  split; [by rewrite A, W | exact L].
Defined.

(** X20. The ratios do not enter the price.  The model ratio and the
    group ratio are read for the text of the consumption log and for
    nothing else: with other ratios every run does the same, the two
    numbers in that log apart, and debits the same quota. *)
Theorem ratios_are_logged_only (QuotaPerUnit : float64) (ChannelBaseURLs : list string)
    (unrepresentable : float64 -> Z)
    (GetModelRatio GetGroupRatio GetModelRatio' GetGroupRatio' : string -> float64)
    (env : AudioEnv) (c : Context) :
  map without_ratios
    (RelayAudio QuotaPerUnit ChannelBaseURLs GetModelRatio GetGroupRatio
       unrepresentable env c)
  = map without_ratios
      (RelayAudio QuotaPerUnit ChannelBaseURLs GetModelRatio' GetGroupRatio'
         unrepresentable env c).
Proof.
  unfold RelayAudio.
  destruct (ShouldBind env) as [form|]; [|done].
  destruct (File_Open env) as [file|]; [|done].
  rewrite !map_app. f_equal. unfold after_open.
  destruct (binary_Read file) as [header|]; [|done].
  destruct (index_ChannelBaseURLs _ _) as [base|]; [|done].
  destruct (CreateFormFile_ok env); [|done].
  destruct (NewRequest_ok env); [|done]. cbn [negb].
  destruct (Do env) as [e|resp]; [done|].
  cbn [map]. f_equal. rewrite !map_app. f_equal.
  unfold deferred_accounting.
  destruct (resp_StatusCode resp =? 200); [|done]. cbv zeta.
  by destruct (PostConsumeTokenQuota_err env), (CacheUpdateUserQuota_err env),
    (audio_quota QuotaPerUnit unrepresentable _ =? 0).
Qed.

(** A run on the ten-second upload in which upstream answers [resp], the
    loop ranging over its headers as the map lists them. *)
Lemma example_answered (resp : Response) (req_close inbound_close : bool)
    (copy : option nat) (resp_close : bool) (post cache : option string) :
  exists header,
    upstream_answered Examples.base_urls
      (Examples.audio_env_of Examples.wav_10s (inr resp)
         (map_to_list (resp_Header resp)) req_close inbound_close copy resp_close
         post cache)
      Examples.audio_request (Examples.audio_form 44) Examples.wav_10s header resp
    /\ estimate_duration 44 header = of_int 10.
Proof.
  destruct (binary_Read Examples.wav_10s) as [h|] eqn:E; [|by vm_compute in E].
  exists h. split.
  - repeat split; try reflexivity; try done.
  - vm_compute in E. by injection E as <-.
Defined.

Lemma close_failure_still_bills_witness :
  let t := RelayAudio Examples.quota_per_unit Examples.base_urls
             Examples.ratio_one Examples.ratio_one Examples.no_choice
             (Examples.audio_env_of Examples.wav_10s
                (inr (Examples.upstream_response 200))
                (map_to_list (resp_Header (Examples.upstream_response 200)))
                false true None true None None)
             Examples.audio_request in
  writer_events t
  = [EvJSON 500 (audio_error "close_request_body_failed" EmptyString)]
  /\ EvPostConsumeTokenQuota 3 500 ∈ t.
Proof.
  cbv zeta.
  destruct (example_answered (Examples.upstream_response 200)
              false true None true None None) as (h & H & E).
  destruct (close_failure_still_bills Examples.quota_per_unit Examples.base_urls
              Examples.ratio_one Examples.ratio_one Examples.no_choice
              _ _ _ _ _ _ H (or_introl eq_refl)) as (W & _ & _ & B).
  split; [exact W|].
  cbn [Size File Examples.audio_form] in B. rewrite E in B. exact (B eq_refl).
Defined.

Lemma ledger_errors_are_logged_witness :
  let t := RelayAudio Examples.quota_per_unit Examples.base_urls
             Examples.ratio_one Examples.ratio_one Examples.no_choice
             (Examples.audio_env_of Examples.wav_10s
                (inr (Examples.upstream_response 200))
                (map_to_list (resp_Header (Examples.upstream_response 200)))
                true true None true None (Some "database is locked"%string))
             Examples.audio_request in
  log_lines t
  = [EvSysError "error update user quota cache: database is locked"]
  /\ ledger t
     = [EvPostConsumeTokenQuota 3 500; EvCacheUpdateUserQuota 11;
        EvRecordConsumeLog 11 "whisper-1" "demo" 500 (of_int 1) (of_int 1);
        EvUpdateUserUsedQuotaAndRequestCount 11 500;
        EvUpdateChannelUsedQuota 7 500].
Proof.
  cbv zeta.
  destruct (example_answered (Examples.upstream_response 200)
              true true None true None (Some "database is locked"%string))
    as (h & H & E).
  destruct (ledger_errors_are_logged Examples.quota_per_unit Examples.base_urls
              Examples.ratio_one Examples.ratio_one Examples.no_choice
              _ _ _ _ _ _ H) as (L & _ & B).
  split; [exact L|].
  cbv zeta in B. cbn [Size File Examples.audio_form] in B. rewrite E in B. exact B.
Defined.

Lemma bodies_closed_witness :
  let t := RelayAudio Examples.quota_per_unit Examples.base_urls
             Examples.ratio_one Examples.ratio_one Examples.no_choice
             (Examples.audio_env_of Examples.wav_10s
                (inr (Examples.upstream_response 200))
                (map_to_list (resp_Header (Examples.upstream_response 200)))
                true false None true None None)
             Examples.audio_request in
  closes_request_body t = 1%nat
  /\ closes_inbound_body t = 1%nat
  /\ closes_response_body t = 0%nat
  /\ closes_file t = 1%nat.
Proof.
  cbv zeta.
  destruct (example_answered (Examples.upstream_response 200)
              true false None true None None) as (h & H & _).
  exact (bodies_closed Examples.quota_per_unit Examples.base_urls
           Examples.ratio_one Examples.ratio_one Examples.no_choice
           _ _ _ _ _ _ H).
Defined.

Lemma response_before_billing_witness :
  let t := Examples.run_audio Examples.wav_10s 200 None in
  t !! 7%nat = Some (EvPostConsumeTokenQuota 3 500)
  /\ writer_events (drop 8 t) = []
  /\ upstream_requests (drop 8 t) = []
  /\ upstream_requests (take 7 t) <> [].
Proof.
  cbv zeta. split; [by vm_compute|].
  destruct (response_before_billing Examples.quota_per_unit Examples.base_urls
              Examples.ratio_one Examples.ratio_one Examples.no_choice
              (Examples.audio_env Examples.wav_10s 200 None) Examples.audio_request
              (take 7 (Examples.run_audio Examples.wav_10s 200 None))
              (drop 8 (Examples.run_audio Examples.wav_10s 200 None))
              (EvPostConsumeTokenQuota 3 500))
    as (W & U & _ & _ & _ & N).
  - by vm_compute.
  - reflexivity.
  - split; [exact W|]. split; [exact U | exact N].
Defined.

Lemma header_without_value_panics_witness :
  let t := RelayAudio Examples.quota_per_unit Examples.base_urls
             Examples.ratio_one Examples.ratio_one Examples.no_choice
             (Examples.audio_env_of Examples.wav_10s
                (inr Examples.response_without_value)
                (map_to_list (resp_Header Examples.response_without_value))
                true true None true None None)
             Examples.audio_request in
  EvPanic ∈ t /\ closes_response_body t = 0%nat /\ closes_file t = 1%nat.
Proof.
  cbv zeta.
  destruct (example_answered Examples.response_without_value
              true true None true None None) as (h & H & _).
  destruct (header_without_value_panics Examples.quota_per_unit Examples.base_urls
              Examples.ratio_one Examples.ratio_one Examples.no_choice
              _ _ _ _ _ _ "X-Empty"%string H eq_refl eq_refl eq_refl)
    as (P & _ & R & F & _).
  split; [exact P|]. split; [exact R | exact F].
Defined.

Lemma status_after_late_failure_witness :
  fst <$> response_sent ∅ (Examples.run_audio Examples.wav_10s 200 (Some 0%nat))
  = Some 500
  /\ fst <$> response_sent ∅ (Examples.run_audio Examples.wav_10s 200 (Some 1%nat))
     = Some 200.
Proof.
  split.
  - destruct (example_upstream_answered 200 (Some 0%nat)) as (h & H & _).
    exact (status_after_late_failure Examples.quota_per_unit Examples.base_urls
             Examples.ratio_one Examples.ratio_one Examples.no_choice
             _ _ _ _ _ _ ∅ H eq_refl eq_refl (example_headers_present 200)
             ltac:(done)).
  - destruct (example_upstream_answered 200 (Some 1%nat)) as (h & H & _).
    exact (status_after_late_failure Examples.quota_per_unit Examples.base_urls
             Examples.ratio_one Examples.ratio_one Examples.no_choice
             _ _ _ _ _ _ ∅ H eq_refl eq_refl (example_headers_present 200)
             ltac:(done)).
Defined.

Lemma headers_sent_exactly_witness :
  exists code h1,
    h1 !! "Content-Type"%string = Some ["application/json"%string]
    /\ h1 !! "Content-Length"%string = None
    /\ response_sent ∅ (Examples.run_audio Examples.wav_10s 200 (Some 1%nat))
       = Some (code, h1).
Proof.
  destruct (example_upstream_answered 200 (Some 1%nat)) as (h & H & _).
  destruct (headers_sent_exactly Examples.quota_per_unit Examples.base_urls
              Examples.ratio_one Examples.ratio_one Examples.no_choice
              _ _ _ _ _ _ ∅ H eq_refl eq_refl (example_headers_present 200))
    as (code & h1 & Hk & Hsent).
  exists code, h1. split; [exact (Hk "Content-Type"%string)|].
  split; [exact (Hk "Content-Length"%string)|exact Hsent].
Defined.

End ForwarderFacts.

(* ===================================================================== *)
(** * The header and the duration at the edges                           *)
(* ===================================================================== *)

Module DurationFacts.
Import GoLib Gin Float64 Common Controller Spec Float64Facts HeaderFacts.

Lemma take_drop_of_prefix {A} (l rest : list A) (n m k : nat) :
  (n + m <= k)%nat -> (k <= length l)%nat ->
  take m (drop n (take k l ++ rest)) = take m (drop n l).
Proof.
  intros Hnm Hk.
  rewrite drop_app_le by (rewrite length_take; lia).
  rewrite take_app_le by (rewrite length_drop, length_take; lia).
  rewrite <- (take_drop k l) at 2.
  rewrite drop_app_le by (rewrite length_take; lia).
  by rewrite take_app_le by (rewrite length_drop, length_take; lia).
Qed.

(** X17. What [binary.Read] makes of an upload.  Reading the header
    succeeds on an upload of at least 44 bytes and on no other; the header
    depends on the first 44 bytes alone, whatever follows them; the four
    tags have four bytes each, and every number lies in the range of its
    type: 32 bits for the sizes and the rates, 16 bits for the format,
    the channels, the block alignment and the bits per sample. *)
Theorem binary_Read_fields (file : list byte) (header : WAVHeader) :
  binary_Read file = Some header ->
  (44 <= length file)%nat
  /\ (forall rest, binary_Read (take 44 file ++ rest) = Some header)
  /\ Forall (fun tag => length tag = 4%nat)
       [RIFF header; WAVE header; FMT header; Data header]
  /\ Forall (fun n => 0 <= n < 2 ^ 32)
       [FileSize header; FMTSize header; SampleRate header; ByteRate header;
        DataSize header]
  /\ Forall (fun n => 0 <= n < 2 ^ 16)
       [AudioFormat header; Channels header; BlockAlign header;
        BitsPerSample header].
Proof.
  intros H.
  assert (Hlen : (44 <= length file)%nat).
  { destruct (Nat.le_gt_cases 44 (length file)) as [|Hlt]; [done|].
    by rewrite binary_Read_short in H. }
  split; [done|].
  rewrite binary_Read_layout in H by done. injection H as <-.
  split; [|split; [|split]].
  - intros rest. rewrite binary_Read_layout by (rewrite length_app, length_take; lia).
    f_equal. rewrite <- (drop_0 (take 44 file ++ rest)), <- (drop_0 file) at 1.
    by rewrite !(take_drop_of_prefix file rest _ _ 44) by lia.
  - cbn [RIFF WAVE FMT Data].
    repeat (apply Forall_cons; split; [rewrite length_take, ?length_drop; lia|]).
    by apply Forall_nil.
  - cbn [FileSize FMTSize SampleRate ByteRate DataSize].
    repeat (apply Forall_cons; split;
            [match goal with |- _ <= le_value ?bs < _ =>
               pose proof (le_value_range bs) as Hr;
               rewrite length_take, length_drop in Hr;
               replace (4 `min` _)%nat with 4%nat in Hr by lia;
               exact Hr
             end|]).
    by apply Forall_nil.
  - cbn [AudioFormat Channels BlockAlign BitsPerSample].
    repeat (apply Forall_cons; split;
            [match goal with |- _ <= le_value ?bs < _ =>
               pose proof (le_value_range bs) as Hr;
               rewrite length_take, length_drop in Hr;
               replace (2 `min` _)%nat with 2%nat in Hr by lia;
               exact Hr
             end|]).
    by apply Forall_nil.
Qed.

Lemma binary_Read_fields_witness :
  exists header,
    binary_Read (Examples.wav_10s ++ Examples.zeros 100) = Some header
    /\ ByteRate header = 16000 /\ DataSize header = 160000.
Proof.
  destruct (binary_Read Examples.wav_10s) as [h|] eqn:E; [|by vm_compute in E].
  exists h. split.
  - exact (proj1 (proj2 (binary_Read_fields Examples.wav_10s h E)) (Examples.zeros 100)).
  - vm_compute in E. by injection E as <-.
Defined.

(** X18. The fallback estimate.  For an upload whose header lacks the
    magic and whose size is below [2^32] bytes, the duration is a finite
    number that is not negative, within a relative error of [2^-53] of
    the size divided by 16000. *)
Theorem fallback_duration_accurate (header : WAVHeader) (fileSize : Z) :
  RIFF header <> list_byte_of_string "RIFF"
  \/ WAVE header <> list_byte_of_string "WAVE" ->
  0 <= fileSize < 2 ^ 32 ->
  let duration := estimate_duration fileSize header in
  is_finite duration = true
  /\ nonneg duration = true
  /\ (Qabs (to_Q duration - (fileSize # 16000)) <= (fileSize # 16000) * (1 # 2 ^ 53))%Q.
Proof.
  intros Hm Hsize. cbv zeta. rewrite estimate_duration_fallback by done.
  replace lit_16000 with (of_int 16000) by (symmetry; apply literals_faithful).
  apply (div_of_int_accurate fileSize 16000); [done|lia].
Qed.

Lemma fallback_duration_accurate_witness :
  exists header,
    binary_Read Examples.not_wav = Some header
    /\ is_finite (estimate_duration 64 header) = true
    /\ nonneg (estimate_duration 64 header) = true.
Proof.
  destruct (binary_Read Examples.not_wav) as [h|] eqn:E; [|by vm_compute in E].
  exists h. split; [done|].
  assert (Hm : RIFF h <> list_byte_of_string "RIFF"
               \/ WAVE h <> list_byte_of_string "WAVE").
  { vm_compute in E. injection E as <-. by left. }
  destruct (fallback_duration_accurate h 64 Hm ltac:(lia)) as (F & N & _).
  split; [exact F | exact N].
Defined.

(** X19. A header with a byte rate of 0.  The division is one of
    [float64] numbers and does not panic: the duration is the positive
    infinity, or a NaN when the data size is 0 as well.  The product with
    the price of a second is then no finite number either, and the quota
    is what the conversion to [int] makes of it, which the language
    leaves to the implementation. *)
Theorem zero_byte_rate_is_not_finite (header : WAVHeader) (fileSize : Z) :
  RIFF header = list_byte_of_string "RIFF" ->
  WAVE header = list_byte_of_string "WAVE" ->
  ByteRate header = 0 ->
  0 <= DataSize header < 2 ^ 32 ->
  let duration := estimate_duration fileSize header in
  duration = (if DataSize header =? 0 then S754_nan else S754_infinity false)
  /\ forall QuotaPerUnit unrepresentable,
       let product := mul duration (div (mul QuotaPerUnit lit_0_006) lit_60) in
       is_finite product = false
       /\ audio_quota QuotaPerUnit unrepresentable duration
          = wrap64 (unrepresentable product).
Proof.
  intros HR HW Hrate Hsize. cbv zeta.
  rewrite estimate_duration_wav by done. rewrite Hrate.
  assert (Ed : div (of_int (DataSize header)) (of_int 0)
               = if DataSize header =? 0 then S754_nan else S754_infinity false).
  { destruct (DataSize header) as [|p|p] eqn:Ep; [done| |lia].
    destruct (of_int_pos p) as (m & e & -> & _); [lia|]. reflexivity. }
  rewrite Ed. split; [done|].
  intros Q u. unfold audio_quota. cbv zeta.
  set (s := div (mul Q lit_0_006) lit_60).
  assert (Hp : match mul (if DataSize header =? 0 then S754_nan else S754_infinity false) s
               with S754_nan | S754_infinity _ => True | _ => False end).
  { destruct (DataSize header =? 0), s; done. }
  destruct (mul _ s); try done.
Qed.

Lemma zero_byte_rate_is_not_finite_witness :
  let header := {| RIFF := list_byte_of_string "RIFF"; FileSize := 0;
                   WAVE := list_byte_of_string "WAVE";
                   FMT := list_byte_of_string "fmt "; FMTSize := 16;
                   AudioFormat := 1; Channels := 1; SampleRate := 16000;
                   ByteRate := 0; BlockAlign := 2; BitsPerSample := 16;
                   Data := list_byte_of_string "data"; DataSize := 160000 |} in
  estimate_duration 44 header = S754_infinity false
  /\ audio_quota Examples.quota_per_unit (fun _ => MinInt64) (estimate_duration 44 header)
     = MinInt64.
Proof.
  cbv zeta.
  destruct (zero_byte_rate_is_not_finite
              {| RIFF := list_byte_of_string "RIFF"; FileSize := 0;
                 WAVE := list_byte_of_string "WAVE";
                 FMT := list_byte_of_string "fmt "; FMTSize := 16;
                 AudioFormat := 1; Channels := 1; SampleRate := 16000;
                 ByteRate := 0; BlockAlign := 2; BitsPerSample := 16;
                 Data := list_byte_of_string "data"; DataSize := 160000 |} 44
              eq_refl eq_refl eq_refl ltac:(cbn; lia)) as (D & Q).
  split; [exact D|].
  exact (proj2 (Q Examples.quota_per_unit (fun _ => MinInt64))).
Defined.

(** The sign bit of a number is clear. *)
Abbreviation sign_clear f :=
  (match f with
   | S754_zero s | S754_infinity s | S754_finite s _ _ => s = false
   | S754_nan => True
   end).

Lemma div_not_negative (x y : float64) :
  sign_clear x -> sign_clear y -> not_negative (div x y).
Proof.
  destruct x as [sx|sx| |sx mx ex], y as [sy|sy| |sy my ey]; simpl;
    intros Hx Hy; subst; try done.
  unfold div, SFdiv.
  destruct (SFdiv_core_binary _ _ _ _ _ _) as [[mz ez] lz].
  apply binary_round_aux_not_negative.
Qed.

Lemma of_int_sign_clear (n : Z) : 0 <= n -> sign_clear (of_int n).
Proof.
  destruct n as [|p|p]; [done| |lia]. intros _.
  unfold of_int, binary_normalize, binary_round.
  destruct (shl_align _ _ _) as [mz ez].
  pose proof (binary_round_aux_not_negative (Zpos mz) ez loc_Exact) as H.
  unfold binary_round_aux in *.
  destruct (shr_fexp _ _ _ _ _) as [mrs' e'].
  destruct (shr_fexp _ _ _ _ _) as [mrs'' e''].
  destruct (shr_m mrs''); [done| |done].
  by destruct (_ <=? _).
Qed.

(** X23. The integer part of the price is not negative.  For every
    upload whose
    header is read, with a size and a [QuotaPerUnit] that are not
    negative, the duration and its product with the price of a second are
    not negative (a NaN and the positive infinity apart, which a byte rate
    of 0 gives); whenever the product has an integer part, that part is
    not negative, and it is the quota when it fits the 64-bit [int]. *)
Theorem product_is_not_negative (file : list byte) (header : WAVHeader)
    (fileSize : Z) (QuotaPerUnit : float64) (unrepresentable : float64 -> Z) :
  binary_Read file = Some header ->
  0 <= fileSize ->
  nonneg QuotaPerUnit = true ->
  let duration := estimate_duration fileSize header in
  let product := mul duration (div (mul QuotaPerUnit lit_0_006) lit_60) in
  not_negative duration
  /\ not_negative product
  /\ forall z, trunc product = Some z ->
               0 <= z
               /\ (z <= MaxInt64 ->
                   audio_quota QuotaPerUnit unrepresentable duration = z).
Proof.
  intros H Hsize HQ. cbv zeta.
  assert (Hlen : (44 <= length file)%nat).
  { destruct (Nat.le_gt_cases 44 (length file)) as [|Hlt]; [done|].
    by rewrite binary_Read_short in H. }
  rewrite binary_Read_layout in H by done. injection H as <-.
  assert (Hd : not_negative
                 (estimate_duration fileSize
                    {| RIFF := take 4 file;
                       FileSize := le_value (take 4 (drop 4 file));
                       WAVE := take 4 (drop 8 file);
                       FMT := take 4 (drop 12 file);
                       FMTSize := le_value (take 4 (drop 16 file));
                       AudioFormat := le_value (take 2 (drop 20 file));
                       Channels := le_value (take 2 (drop 22 file));
                       SampleRate := le_value (take 4 (drop 24 file));
                       ByteRate := le_value (take 4 (drop 28 file));
                       BlockAlign := le_value (take 2 (drop 32 file));
                       BitsPerSample := le_value (take 2 (drop 34 file));
                       Data := take 4 (drop 36 file);
                       DataSize := le_value (take 4 (drop 40 file)) |})).
  { unfold estimate_duration. cbn [RIFF WAVE DataSize ByteRate].
    destruct (_ || _).
    - apply div_not_negative; [by apply of_int_sign_clear|done].
    - apply div_not_negative; apply of_int_sign_clear; apply le_value_range. }
  set (duration := estimate_duration _ _) in *.
  assert (Hp : not_negative (mul duration (div (mul QuotaPerUnit lit_0_006) lit_60))).
  { apply mul_not_negative; [done|].
    apply div_lit_60_not_negative, mul_not_negative;
      [by apply nonneg_not_negative|done]. }
  split; [done|]. split; [done|].
  intros z Ez.
  destruct (trunc_nonneg_floor
              (mul duration (div (mul QuotaPerUnit lit_0_006) lit_60)) z)
    as [_ Hz]; [|done|].
  { destruct (mul duration _) as [| | |[] m e]; done. }
  split; [done|]. intros Hmax. unfold audio_quota. cbv zeta. unfold to_int.
  rewrite Ez.
  replace (MinInt64 <=? z) with true
    by (symmetry; apply Z.leb_le; unfold MinInt64; lia).
  by replace (z <=? MaxInt64) with true by (symmetry; apply Z.leb_le; lia).
Qed.

Lemma product_is_not_negative_witness :
  exists header,
    binary_Read Examples.wav_10s = Some header
    /\ not_negative (estimate_duration 44 header)
    /\ audio_quota Examples.quota_per_unit Examples.no_choice
         (estimate_duration 44 header) = 500.
Proof.
  destruct (binary_Read Examples.wav_10s) as [h|] eqn:E; [|by vm_compute in E].
  exists h. split; [done|].
  destruct (product_is_not_negative Examples.wav_10s h 44 Examples.quota_per_unit
              Examples.no_choice E ltac:(lia) eq_refl) as (D & _ & Q).
  split; [exact D|].
  apply (Q 500); [|by vm_compute].
  vm_compute in E. injection E as <-. by vm_compute.
Defined.

End DurationFacts.

